(** * Mr.Market: snapshot intake and two-leg payment reconciliation

    A shallow embedding of

    - [server/src/modules/mixin/snapshots/snapshots.service.ts]
      ([createSnapshot], [fetchAndProcessSnapshots], [sendMixinTx], [refund],
      [handleSnapshot], [handleSnapshots]),
    - [server/src/modules/mixin/listeners/arbitrage.listener.ts]
      ([handleArbitrageCreate]),
    - [server/src/modules/mixin/listeners/market_making.listener.ts]
      ([handleMarketMakingCreate]),

    followed by the properties of the reconciliation pipeline.

    The asynchronous methods are written in a state-and-exception monad over
    a [World] that holds the database tables, the Mixin ledger as seen by
    the bot, the event bus, the logger and the clock.  A rejected promise is
    a [Thrown] result; the effects performed before the rejection stay in
    the world.  A monadic definition is a handler run without interruption;
    handlers interleaving at their [await]s are modelled by cutting each at
    its first read ([Suspended], [turn]). *)

From Stdlib Require Import QArith String Ascii List DecimalString.
From stdpp Require Import gmap strings list fin_maps.
Import ListNotations.
Local Open Scope string_scope.
Local Open Scope list_scope.

(** ** JavaScript values used by the services *)

(** Outcome of a call: a returned value or a thrown error with its message. *)
Inductive JsResult (A : Type) : Type :=
| Returned (a : A)
| Thrown (message : string).
Arguments Returned {A} a.
Arguments Thrown {A} message.

(** Truthiness of an optional string property: [undefined], [null] and the
    empty string are falsy. *)
Definition truthy (v : option string) : bool :=
  match v with
  | None => false
  | Some s => negb (bool_decide (s = ""))
  end.

(** bignumber.js values: a rational, or NaN ([None]). *)
Definition BN : Type := option Q.

Definition bn_zero : BN := Some 0%Q.

Definition bn_plus (a b : BN) : BN :=
  match a, b with
  | Some x, Some y => Some (x + y)%Q
  | _, _ => None
  end.

(** [a.isLessThan(b)]: false as soon as one side is NaN. *)
Definition isLessThan (a b : BN) : bool :=
  match a, b with
  | Some x, Some y => negb (Qle_bool y x)
  | _, _ => false
  end.

Definition isZero (a : BN) : bool :=
  match a with
  | Some x => Qeq_bool x 0
  | None => false
  end.

Definition isNegative (a : BN) : bool :=
  match a with
  | Some x => negb (Qle_bool 0 x)
  | None => false
  end.

(** ** Data model *)

(** A transfer observed on the ledger (the SDK's [SafeSnapshot]); only the
    properties the services read.  [memo] may be absent. *)
Record SafeSnapshot : Type := {
  snapshot_id : string;
  opponent_id : string;
  asset_id : string;
  amount : string;
  memo : option string;
  created_at : string;
}.

(** [src/common/types/memo/memo]: the properties the listeners read. *)
Record ArbitrageMemoDetails : Type := {
  arb_traceId : string;
  arb_symbol : string;
  exchangeAName : string;
  exchangeBName : string;
}.

Record MarketMakingMemoDetails : Type := {
  mm_traceId : string;
  mm_symbol : string;
  exchangeName : string;
}.

(** Instants read from the system clock by [getRFC3339Timestamp]. *)
Definition Timestamp : Type := nat.

(** [src/common/entities/strategy.entity]: the properties the listeners
    write; the second-leg ones are absent until the second leg. *)
Record PaymentState : Type := {
  orderId : string;
  type : string;
  symbol : string;
  firstAssetId : string;
  firstAssetAmount : string;
  firstSnapshotId : string;
  createdAt : Timestamp;
  updatedAt : Timestamp;
  secondAssetId : option string;
  secondAssetAmount : option string;
  secondSnapshotId : option string;
}.

Record ArbitrageOrder : Type := {
  ao_orderId : string;
  ao_userId : string;
  ao_pair : string;
  ao_amountToTrade : string;
  ao_minProfitability : string;
  ao_exchangeAName : string;
  ao_exchangeBName : string;
  ao_balanceA : string;
  ao_balanceB : string;
  ao_state : string;
  ao_createdAt : Timestamp;
}.

(** [src/common/enum/pricesourcetype]: the member the listener uses. *)
Inductive PriceSourceType : Type := MID_PRICE.

Record MarketMakingOrder : Type := {
  mo_orderId : string;
  mo_userId : string;
  mo_pair : string;
  mo_state : string;
  mo_exchangeName : string;
  mo_bidSpread : string;
  mo_askSpread : string;
  mo_orderAmount : string;
  mo_orderRefreshTime : string;
  mo_numberOfLayers : string;
  mo_priceSourceType : PriceSourceType;
  mo_amountChangePerLayer : string;
  mo_amountChangeType : string;
  mo_ceilingPrice : string;
  mo_floorPrice : string;
  mo_balanceA : string;
  mo_balanceB : string;
  mo_createdAt : Timestamp;
}.

(** An output held on the Mixin ledger. *)
Record SafeUtxoOutput : Type := {
  utxo_asset : string;
  utxo_amount : string;
  utxo_unspent : bool;
  receivers : list string;
  receivers_threshold : nat;
}.

(** The plain object built by the SDK's [buildSafeTransactionRecipient]; its
    own properties are read as [r.members] in [withdrawal]. *)
Record SafeTransactionRecipient : Type := {
  members : list string;
  threshold : nat;
  r_amount : string;
}.

Definition buildSafeTransactionRecipient
    (ms : list string) (t : nat) (a : string) : SafeTransactionRecipient :=
  {| members := ms; threshold := t; r_amount := a |}.

(** Element read [r[i]] on a recipient: the object has the named properties
    above and no indexed one, so the read gives [undefined]. *)
Definition recipient_at (r : SafeTransactionRecipient) (i : nat)
    : option SafeTransactionRecipient := None.

Record GhostKeyRequest : Type := {
  gk_receivers : list string;
  gk_index : nat;
}.

(** A transaction handed to [utxo.sendTransactions]. *)
Record SequencerTransactionRequest : Type := {
  tx_inputs : list SafeUtxoOutput;
  tx_recipients : list SafeTransactionRecipient;
  tx_memo : string;
}.

Inductive LogLevel : Type := LogError | LogWarn | LogInfo.

(** The database and Mixin calls that can reject. *)
Inductive StoreOp : Type :=
| OpCheckSnapshotExist
| OpCreateSnapshot
| OpFindPaymentState
| OpCreatePaymentState
| OpUpdatePaymentState
| OpCreateArbitrage
| OpCreateMarketMaking.

Inductive MixinCall : Type :=
| CallSafeOutputs
| CallGhostKey
| CallVerifyTransaction
| CallSendTransactions.

Section Pipeline.

(** The collaborators that live outside the three embedded files. *)
Context {SpotMemoDetails : Type}.

Record Env : Type := {
  (** [src/common/helpers/mixin/memo]: falsy result on a parse failure. *)
  decodeSpotMemo : string -> option SpotMemoDetails;
  decodeArbitrageMemo : string -> option ArbitrageMemoDetails;
  decodeMarketMakingMemo : string -> option MarketMakingMemoDetails;
  (** [src/common/helpers/utils]: the pair registry, [None] when the lookup
      fails. *)
  getAssetIDBySymbol : string -> option (string * string);
  (** [Buffer.from(s, 'hex').toString('utf-8')] *)
  hexToUtf8 : string -> string;
  (** [Buffer.from(s, 'base64').toString('utf-8')] *)
  base64ToUtf8 : string -> string;
  (** bignumber.js parsing and printing *)
  BigNumber : string -> BN;
  bnToString : BN -> string;
  (** SDK input selection: the chosen inputs and the change, or an error. *)
  getUnspentOutputsForRecipients :
    list SafeUtxoOutput -> list SafeTransactionRecipient ->
    JsResult (list SafeUtxoOutput * BN);
  (** [strategy.run === 'true'] *)
  enableCron : bool;
}.

Variable env : Env.

(** Events on the event bus, with the arguments given to [emit]. *)
Inductive Event : Type :=
| SpotCreate (details : SpotMemoDetails) (snapshot : SafeSnapshot)
| ArbitrageCreate (details : ArbitrageMemoDetails) (snapshot : SafeSnapshot)
| MarketMakingCreate (details : MarketMakingMemoDetails) (snapshot : SafeSnapshot).

Record World : Type := {
  (** SnapshotsRepository: one row per archived transfer *)
  snapshotsTable : list SafeSnapshot;
  (** StrategyUserService tables *)
  paymentStates : gmap string PaymentState;
  arbitrageOrders : list ArbitrageOrder;
  marketMakingOrders : list MarketMakingOrder;
  (** Mixin: the outputs of the bot and the transactions it submitted *)
  ledgerOutputs : list SafeUtxoOutput;
  sentTransactions : list SequencerTransactionRequest;
  (** events emitted and not yet handled by their listener *)
  emitted : list Event;
  logs : list (LogLevel * string);
  clock : Timestamp;
  (** which calls currently reject *)
  storeFails : StoreOp -> bool;
  mixinFails : MixinCall -> bool;
}.

Definition M (A : Type) : Type := World -> JsResult A * World.

Definition ret {A : Type} (a : A) : M A := fun w => (Returned a, w).

Definition throw {A : Type} (message : string) : M A :=
  fun w => (Thrown message, w).

Definition bind {A B : Type} (m : M A) (k : A -> M B) : M B :=
  fun w =>
    match m w with
    | (Returned a, w') => k a w'
    | (Thrown message, w') => (Thrown message, w')
    end.

(** [try { m } catch (e) { h e.message }] *)
Definition tryCatch {A : Type} (m : M A) (h : string -> M A) : M A :=
  fun w =>
    match m w with
    | (Returned a, w') => (Returned a, w')
    | (Thrown message, w') => h message w'
    end.

#[local] Instance M_ret : MRet M := @ret.
#[local] Instance M_bind : MBind M := fun A B k m => bind m k.

(** ** World updates *)

Definition set_snapshotsTable (v : list SafeSnapshot) (w : World) : World :=
  {| snapshotsTable := v; paymentStates := paymentStates w;
     arbitrageOrders := arbitrageOrders w;
     marketMakingOrders := marketMakingOrders w;
     ledgerOutputs := ledgerOutputs w; sentTransactions := sentTransactions w;
     emitted := emitted w; logs := logs w; clock := clock w;
     storeFails := storeFails w; mixinFails := mixinFails w |}.

Definition set_paymentStates (v : gmap string PaymentState) (w : World) : World :=
  {| snapshotsTable := snapshotsTable w; paymentStates := v;
     arbitrageOrders := arbitrageOrders w;
     marketMakingOrders := marketMakingOrders w;
     ledgerOutputs := ledgerOutputs w; sentTransactions := sentTransactions w;
     emitted := emitted w; logs := logs w; clock := clock w;
     storeFails := storeFails w; mixinFails := mixinFails w |}.

Definition set_arbitrageOrders (v : list ArbitrageOrder) (w : World) : World :=
  {| snapshotsTable := snapshotsTable w; paymentStates := paymentStates w;
     arbitrageOrders := v;
     marketMakingOrders := marketMakingOrders w;
     ledgerOutputs := ledgerOutputs w; sentTransactions := sentTransactions w;
     emitted := emitted w; logs := logs w; clock := clock w;
     storeFails := storeFails w; mixinFails := mixinFails w |}.

Definition set_marketMakingOrders (v : list MarketMakingOrder) (w : World) : World :=
  {| snapshotsTable := snapshotsTable w; paymentStates := paymentStates w;
     arbitrageOrders := arbitrageOrders w;
     marketMakingOrders := v;
     ledgerOutputs := ledgerOutputs w; sentTransactions := sentTransactions w;
     emitted := emitted w; logs := logs w; clock := clock w;
     storeFails := storeFails w; mixinFails := mixinFails w |}.

Definition set_sentTransactions (v : list SequencerTransactionRequest) (w : World) : World :=
  {| snapshotsTable := snapshotsTable w; paymentStates := paymentStates w;
     arbitrageOrders := arbitrageOrders w;
     marketMakingOrders := marketMakingOrders w;
     ledgerOutputs := ledgerOutputs w; sentTransactions := v;
     emitted := emitted w; logs := logs w; clock := clock w;
     storeFails := storeFails w; mixinFails := mixinFails w |}.

Definition set_emitted (v : list Event) (w : World) : World :=
  {| snapshotsTable := snapshotsTable w; paymentStates := paymentStates w;
     arbitrageOrders := arbitrageOrders w;
     marketMakingOrders := marketMakingOrders w;
     ledgerOutputs := ledgerOutputs w; sentTransactions := sentTransactions w;
     emitted := v; logs := logs w; clock := clock w;
     storeFails := storeFails w; mixinFails := mixinFails w |}.

Definition set_logs (v : list (LogLevel * string)) (w : World) : World :=
  {| snapshotsTable := snapshotsTable w; paymentStates := paymentStates w;
     arbitrageOrders := arbitrageOrders w;
     marketMakingOrders := marketMakingOrders w;
     ledgerOutputs := ledgerOutputs w; sentTransactions := sentTransactions w;
     emitted := emitted w; logs := v; clock := clock w;
     storeFails := storeFails w; mixinFails := mixinFails w |}.

Definition set_clock (v : Timestamp) (w : World) : World :=
  {| snapshotsTable := snapshotsTable w; paymentStates := paymentStates w;
     arbitrageOrders := arbitrageOrders w;
     marketMakingOrders := marketMakingOrders w;
     ledgerOutputs := ledgerOutputs w; sentTransactions := sentTransactions w;
     emitted := emitted w; logs := logs w; clock := v;
     storeFails := storeFails w; mixinFails := mixinFails w |}.

(** ** Logger, clock, event bus *)

Definition logger (level : LogLevel) (message : string) : M unit :=
  fun w => (Returned tt, set_logs (logs w ++ [(level, message)]) w).

(** [getRFC3339Timestamp()]: reads the clock; two reads never coincide. *)
Definition getRFC3339Timestamp : M Timestamp :=
  fun w => (Returned (clock w), set_clock (S (clock w)) w).

(** [this.events.emit(name, ...args)]: the listener is asynchronous, so
    [emit] returns with the event handed over and the listener's work still
    ahead. *)
Definition emit (e : Event) : M unit :=
  fun w => (Returned tt, set_emitted (emitted w ++ [e]) w).

(** ** The store *)

Definition storeCall {A : Type} (op : StoreOp) (body : M A) : M A :=
  fun w => if storeFails w op then (Thrown "StoreError", w) else body w.

(** Modelled from the spec: [SnapshotsRepository.checkSnapshotExist], the
    store's [get(transfer_id) -> bool]. *)
Definition repo_checkSnapshotExist (id : string) : M bool :=
  storeCall OpCheckSnapshotExist
    (fun w => (Returned (existsb (fun s => bool_decide (snapshot_id s = id))
                                 (snapshotsTable w)), w)).

(** Modelled from the spec: [SnapshotsRepository.createSnapshot], the
    store's [markProcessed(transfer_id)]: one more row. *)
Definition repo_createSnapshot (snapshot : SafeSnapshot) : M unit :=
  storeCall OpCreateSnapshot
    (fun w => (Returned tt, set_snapshotsTable (snapshotsTable w ++ [snapshot]) w)).

(** Modelled from the spec: [StrategyUserService.findPaymentStateByIdRaw],
    the store's [getPaymentState(trace_id) -> PaymentState|None]. *)
Definition findPaymentStateByIdRaw (id : string) : M (option PaymentState) :=
  storeCall OpFindPaymentState (fun w => (Returned (paymentStates w !! id), w)).

(** Modelled from the spec: [StrategyUserService.createPaymentState], the
    store's [putPaymentState(state)]. *)
Definition createPaymentState (ps : PaymentState) : M unit :=
  storeCall OpCreatePaymentState
    (fun w => (Returned tt, set_paymentStates (<[orderId ps := ps]> (paymentStates w)) w)).

(** The second-leg properties passed to [updatePaymentStateById]. *)
Record Leg2 : Type := {
  l2_secondAssetId : string;
  l2_secondAssetAmount : string;
  l2_secondSnapshotId : string;
  l2_updatedAt : Timestamp;
}.

Definition applyLeg2 (l : Leg2) (ps : PaymentState) : PaymentState :=
  {| orderId := orderId ps; type := type ps; symbol := symbol ps;
     firstAssetId := firstAssetId ps; firstAssetAmount := firstAssetAmount ps;
     firstSnapshotId := firstSnapshotId ps; createdAt := createdAt ps;
     updatedAt := l2_updatedAt l;
     secondAssetId := Some (l2_secondAssetId l);
     secondAssetAmount := Some (l2_secondAssetAmount l);
     secondSnapshotId := Some (l2_secondSnapshotId l) |}.

(** Modelled from the spec: [StrategyUserService.updatePaymentStateById],
    the store's [updatePaymentStateLeg2(trace_id, leg2fields)]. *)
Definition updatePaymentStateById (id : string) (l : Leg2) : M unit :=
  storeCall OpUpdatePaymentState
    (fun w => (Returned tt, set_paymentStates (alter (applyLeg2 l) id (paymentStates w)) w)).

(** Modelled from the spec: [StrategyUserService.createArbitrage], the
    store's [createArbitrageOrder(order)]. *)
Definition createArbitrage (o : ArbitrageOrder) : M unit :=
  storeCall OpCreateArbitrage
    (fun w => (Returned tt, set_arbitrageOrders (arbitrageOrders w ++ [o]) w)).

(** Modelled from the spec: [StrategyUserService.createMarketMaking], the
    store's [createMarketMakingOrder(order)]. *)
Definition createMarketMaking (o : MarketMakingOrder) : M unit :=
  storeCall OpCreateMarketMaking
    (fun w => (Returned tt, set_marketMakingOrders (marketMakingOrders w ++ [o]) w)).

(** ** Mixin client *)

Definition mixinCall {A : Type} (c : MixinCall) (body : M A) : M A :=
  fun w => if mixinFails w c then (Thrown "MixinError", w) else body w.

(** [client.utxo.safeOutputs({members: [app_id], threshold: 1, asset,
    state: 'unspent'})] *)
Definition safeOutputs (asset : string) : M (list SafeUtxoOutput) :=
  mixinCall CallSafeOutputs
    (fun w => (Returned (filter (fun o => utxo_asset o = asset ∧ utxo_unspent o = true)
                                (ledgerOutputs w)), w)).

(** SDK: the sum of the outputs' amounts. *)
Definition getTotalBalanceFromOutputs (outputs : list SafeUtxoOutput) : BN :=
  fold_left (fun acc o => bn_plus acc (BigNumber env (utxo_amount o))) outputs bn_zero.

(** [client.utxo.ghostKey(requests)]; the keys do not matter here. *)
Definition ghostKey (requests : list GhostKeyRequest) : M (list GhostKeyRequest) :=
  mixinCall CallGhostKey (ret requests).

Definition verifyTransaction (tx : SequencerTransactionRequest) : M unit :=
  mixinCall CallVerifyTransaction (ret tt).

Definition sendTransactions (txs : list SequencerTransactionRequest)
    : M (list SequencerTransactionRequest) :=
  mixinCall CallSendTransactions
    (fun w => (Returned txs, set_sentTransactions (sentTransactions w ++ txs) w)).

(** [recipients.map((r, i) => ({hint, receivers: r[0].members, index: i}))]:
    reading [.members] of [undefined] throws a TypeError. *)
Fixpoint ghostKeyRequests (recipients : list SafeTransactionRecipient) (i : nat)
    : JsResult (list GhostKeyRequest) :=
  match recipients with
  | [] => Returned []
  | r :: rest =>
      match recipient_at r 0 with
      | None => Thrown "Cannot read properties of undefined (reading 'members')"
      | Some r0 =>
          match ghostKeyRequests rest (S i) with
          | Returned reqs =>
              Returned ({| gk_receivers := members r0; gk_index := i |} :: reqs)
          | Thrown message => Thrown message
          end
      end
  end.

Definition liftResult {A : Type} (r : JsResult A) : M A := fun w => (r, w).

(** [outputs[0]]: reading a property of it throws when the array is empty. *)
Definition firstOutput (outputs : list SafeUtxoOutput) : M SafeUtxoOutput :=
  match outputs with
  | o :: _ => ret o
  | [] => throw "Cannot read properties of undefined (reading 'receivers')"
  end.

Definition sendMixinTx (opponent asset amt : string)
    : M (option (list SequencerTransactionRequest)) :=
  let recipients := [buildSafeTransactionRecipient [opponent] 1 amt] in
  outputs ← safeOutputs asset;
  let balance := getTotalBalanceFromOutputs outputs in
  let amountBN := BigNumber env amt in
  if isLessThan balance amountBN then
    logger LogError "Insufficient fund";;
    mret None
  else
    '(utxos, change) ← liftResult (getUnspentOutputsForRecipients env outputs recipients);
    recipients ←
      (if negb (isZero change) && negb (isNegative change) then
         o ← firstOutput outputs;
         mret (recipients ++
               [buildSafeTransactionRecipient (receivers o) (receivers_threshold o)
                  (bnToString env change)])
       else mret recipients);
    requests ← liftResult (ghostKeyRequests recipients 0);
    _ ← ghostKey requests;
    let tx := {| tx_inputs := utxos; tx_recipients := recipients; tx_memo := "Refund" |} in
    verifyTransaction tx;;
    sendedTx ← sendTransactions [tx];
    mret (Some sendedTx).

Definition refund (snapshot : SafeSnapshot) : M unit :=
  tryCatch
    (_ ← sendMixinTx (opponent_id snapshot) (asset_id snapshot) (amount snapshot);
     mret tt)
    (fun message => logger LogError ("Failed to refund snapshot: " +:+ message)).

(** ** Listeners *)

(** [const { baseAssetID, targetAssetID } = getAssetIDBySymbol(symbol)] *)
Definition resolvePair (sym : string) : M (string * string) :=
  match getAssetIDBySymbol env sym with
  | Some ids => mret ids
  | None => throw "getAssetIDBySymbol failed"
  end.

Definition handleArbitrageCreate
    (details : option ArbitrageMemoDetails) (snapshot : option SafeSnapshot) : M unit :=
  match details, snapshot with
  | Some details, Some snapshot =>
      paymentState ← findPaymentStateByIdRaw (arb_traceId details);
      '(baseAssetID, targetAssetID) ← resolvePair (arb_symbol details);
      if bool_decide (asset_id snapshot ≠ baseAssetID)
         && bool_decide (asset_id snapshot ≠ targetAssetID)
      then refund snapshot
      else
        match paymentState with
        | None =>
            now ← getRFC3339Timestamp;
            createPaymentState
              {| orderId := arb_traceId details;
                 type := "arbitrage";
                 symbol := arb_symbol details;
                 firstAssetId := asset_id snapshot;
                 firstAssetAmount := amount snapshot;
                 firstSnapshotId := snapshot_id snapshot;
                 createdAt := now;
                 updatedAt := now;
                 secondAssetId := None;
                 secondAssetAmount := None;
                 secondSnapshotId := None |}
        | Some paymentState =>
            if negb (truthy (secondAssetId paymentState)) then
              updated ← getRFC3339Timestamp;
              updatePaymentStateById (arb_traceId details)
                {| l2_secondAssetId := asset_id snapshot;
                   l2_secondAssetAmount := amount snapshot;
                   l2_secondSnapshotId := snapshot_id snapshot;
                   l2_updatedAt := updated |};;
              created ← getRFC3339Timestamp;
              createArbitrage
                {| ao_orderId := arb_traceId details;
                   ao_userId := opponent_id snapshot;
                   ao_pair := arb_symbol details;
                   ao_amountToTrade := "1";
                   ao_minProfitability := "0.01";
                   ao_exchangeAName := exchangeAName details;
                   ao_exchangeBName := exchangeBName details;
                   ao_balanceA := firstAssetAmount paymentState;
                   ao_balanceB := amount snapshot;
                   ao_state := "created";
                   ao_createdAt := created |}
            else mret tt
        end
  | _, _ => logger LogError "Invalid arguments passed to handleArbitrageCreate"
  end.

Definition handleMarketMakingCreate
    (details : option MarketMakingMemoDetails) (snapshot : option SafeSnapshot) : M unit :=
  match details, snapshot with
  | Some details, Some snapshot =>
      paymentState ← findPaymentStateByIdRaw (mm_traceId details);
      '(baseAssetID, targetAssetID) ← resolvePair (mm_symbol details);
      if bool_decide (asset_id snapshot ≠ baseAssetID)
         && bool_decide (asset_id snapshot ≠ targetAssetID)
      then refund snapshot
      else
        match paymentState with
        | None =>
            now ← getRFC3339Timestamp;
            createPaymentState
              {| orderId := mm_traceId details;
                 type := "market_making";
                 symbol := mm_symbol details;
                 firstAssetId := asset_id snapshot;
                 firstAssetAmount := amount snapshot;
                 firstSnapshotId := snapshot_id snapshot;
                 createdAt := now;
                 updatedAt := now;
                 secondAssetId := None;
                 secondAssetAmount := None;
                 secondSnapshotId := None |}
        | Some paymentState =>
            if negb (truthy (secondAssetId paymentState)) then
              updated ← getRFC3339Timestamp;
              updatePaymentStateById (mm_traceId details)
                {| l2_secondAssetId := asset_id snapshot;
                   l2_secondAssetAmount := amount snapshot;
                   l2_secondSnapshotId := snapshot_id snapshot;
                   l2_updatedAt := updated |};;
              created ← getRFC3339Timestamp;
              createMarketMaking
                {| mo_orderId := mm_traceId details;
                   mo_userId := opponent_id snapshot;
                   mo_pair := mm_symbol details;
                   mo_state := "created";
                   mo_exchangeName := exchangeName details;
                   mo_bidSpread := "0.1";
                   mo_askSpread := "0.1";
                   mo_orderAmount := "1";
                   mo_orderRefreshTime := "15000";
                   mo_numberOfLayers := "1";
                   mo_priceSourceType := MID_PRICE;
                   mo_amountChangePerLayer := "1";
                   mo_amountChangeType := "percentage";
                   mo_ceilingPrice := "0";
                   mo_floorPrice := "0";
                   mo_balanceA := firstAssetAmount paymentState;
                   mo_balanceB := amount snapshot;
                   mo_createdAt := created |}
            else mret tt
        end
  | _, _ => logger LogError "Invalid arguments passed to handleMarketMakingCreate"
  end.

(** ** Snapshot intake *)

Definition createSnapshot (snapshot : SafeSnapshot) : M unit :=
  tryCatch (repo_createSnapshot snapshot)
    (fun message => logger LogError ("createSnapshot()=> " +:+ message)).

(** [Buffer.from(Buffer.from(memo, 'hex').toString('utf-8'), 'base64')
    .toString('utf-8')] *)
Definition decodeMemo (m : string) : string :=
  base64ToUtf8 env (hexToUtf8 env m).

(** The [switch (tradingType)] of [handleSnapshot]. *)
Definition dispatchMemo (decodedMemo : string) (snapshot : SafeSnapshot) : M unit :=
  let tradingType := substring 0 2 decodedMemo in
  if bool_decide (tradingType = "SP") then
    match decodeSpotMemo env decodedMemo with
    | None => mret tt
    | Some spotDetails => emit (SpotCreate spotDetails snapshot)
    end
  else if bool_decide (tradingType = "AR") then
    match decodeArbitrageMemo env decodedMemo with
    | None => mret tt
    | Some arbDetails => emit (ArbitrageCreate arbDetails snapshot)
    end
  else if bool_decide (tradingType = "MM") then
    match decodeMarketMakingMemo env decodedMemo with
    | None => mret tt
    | Some mmDetails => emit (MarketMakingCreate mmDetails snapshot)
    end
  else mret tt.

Definition handleSnapshot (snapshot : SafeSnapshot) : M unit :=
  exist ← repo_checkSnapshotExist (snapshot_id snapshot);
  if exist : bool then mret tt
  else if negb (truthy (memo snapshot)) then
    createSnapshot snapshot;;
    logger LogWarn "snapshot no memo, return"
  else
    let m := default "" (memo snapshot) in
    if (String.length m =? 0)%nat then
      createSnapshot snapshot;;
      logger LogWarn "snapshot.memo.length === 0, return"
    else
      dispatchMemo (decodeMemo m) snapshot;;
      createSnapshot snapshot.

(** ** Event delivery *)

(** The [@OnEvent] bindings.  The spot listener belongs to the order
    placement side, which keeps its own tables. *)
Definition listener (e : Event) : M unit :=
  match e with
  | SpotCreate _ _ => mret tt
  | ArbitrageCreate details snapshot =>
      handleArbitrageCreate (Some details) (Some snapshot)
  | MarketMakingCreate details snapshot =>
      handleMarketMakingCreate (Some details) (Some snapshot)
  end.

(** The promise of a listener is detached: nobody observes its outcome. *)
Definition deliver (e : Event) (w : World) : World := (listener e w).2.

(** Run the listeners of all pending events, in emission order. *)
Definition drain (w : World) : World :=
  fold_left (fun w' e => deliver e w') (emitted w) (set_emitted [] w).

(** One transfer handled on its own, listeners included. *)
Definition processSnapshot (snapshot : SafeSnapshot) (w : World) : World :=
  drain (handleSnapshot snapshot w).2.

(** ** The poller *)

(** [inFlight]: the [handleSnapshot] promises started and not yet settled,
    each with the number of the cycle that started it. *)
Record Scheduler : Type := {
  world : World;
  inFlight : list (nat * SafeSnapshot);
  cycles : nat;
}.

Definition sched_log (level : LogLevel) (message : string) (sch : Scheduler)
    : Scheduler :=
  {| world := (logger level message (world sch)).2;
     inFlight := inFlight sch; cycles := cycles sch |}.

(** [feed] is the outcome of [client.safe.fetchSafeSnapshots({})].  The
    [forEach] starts one [handleSnapshot] per transfer; each of them stops at
    its first [await], and the method returns. *)
Definition fetchAndProcessSnapshots
    (feed : JsResult (option (list SafeSnapshot))) (sch : Scheduler) : Scheduler :=
  match feed with
  | Returned None => sched_log LogError "fetchAndProcessSnapshots()=> No snapshots" sch
  | Returned (Some snapshots) =>
      {| world := world sch;
         inFlight := inFlight sch ++ map (fun s => (cycles sch, s)) snapshots;
         cycles := cycles sch |}
  | Thrown message =>
      sched_log LogError ("Failed to fetch snapshots: " +:+ message) sch
  end.

(** The cron tick. *)
Definition handleSnapshots
    (feed : JsResult (option (list SafeSnapshot))) (sch : Scheduler) : Scheduler :=
  if enableCron env then
    let sch' := fetchAndProcessSnapshots feed sch in
    {| world := world sch'; inFlight := inFlight sch'; cycles := S (cycles sch) |}
  else sch.

(** Successive ticks, each fetching one batch, while no handling started
    by an earlier tick has finished. *)
Definition ticks (batches : list (list SafeSnapshot)) (sch : Scheduler) : Scheduler :=
  fold_left (fun sch' batch => handleSnapshots (Returned (Some batch)) sch')
            batches sch.

(** ** Runs of the pipeline *)

Definition set_environment (sf : StoreOp -> bool) (mf : MixinCall -> bool)
    (outputs : list SafeUtxoOutput) (w : World) : World :=
  {| snapshotsTable := snapshotsTable w; paymentStates := paymentStates w;
     arbitrageOrders := arbitrageOrders w;
     marketMakingOrders := marketMakingOrders w;
     ledgerOutputs := outputs; sentTransactions := sentTransactions w;
     emitted := emitted w; logs := logs w; clock := clock w;
     storeFails := sf; mixinFails := mf |}.

(** What can happen next: a transfer goes through [handleSnapshot], the
    oldest pending event reaches its listener, or the surroundings change
    (calls start or stop failing, the bot's outputs move).  [Intake] and
    [Deliver] run a handler from its first line to its last with nothing in
    between: these are the runs in which the handlers follow one another.
    Handlers that overlap at their [await]s are the subject of [turn]
    further down. *)
Inductive Step : Type :=
| Intake (snapshot : SafeSnapshot)
| Deliver
| Disturb (sf : StoreOp -> bool) (mf : MixinCall -> bool)
    (outputs : list SafeUtxoOutput).

Definition step (st : Step) (w : World) : World :=
  match st with
  | Intake snapshot => (handleSnapshot snapshot w).2
  | Deliver =>
      match emitted w with
      | [] => w
      | e :: rest => deliver e (set_emitted rest w)
      end
  | Disturb sf mf outputs => set_environment sf mf outputs w
  end.

Definition run (steps : list Step) (w : World) : World :=
  fold_left (fun w' st => step st w') steps w.

(** ** Observations used in the statements *)

(** Number of strategy orders, of either kind, created for a trace id. *)
Definition ordersFor (trace : string) (w : World) : nat :=
  count_occ string_dec (map ao_orderId (arbitrageOrders w)) trace
  + count_occ string_dec (map mo_orderId (marketMakingOrders w)) trace.

(** Number of archive rows for a transfer id. *)
Definition markersFor (id : string) (w : World) : nat :=
  count_occ string_dec (map snapshot_id (snapshotsTable w)) id.

(** The balance [sendMixinTx] computes for an asset. *)
Definition unspentBalance (asset : string) (w : World) : BN :=
  getTotalBalanceFromOutputs
    (filter (fun o => utxo_asset o = asset ∧ utxo_unspent o = true)
            (ledgerOutputs w)).

(** The transfer's asset is one side of the pair named by [sym]. *)
Definition validAsset (sym : string) (snapshot : SafeSnapshot) : Prop :=
  ∃ baseAssetID targetAssetID,
    getAssetIDBySymbol env sym = Some (baseAssetID, targetAssetID)
    ∧ (asset_id snapshot = baseAssetID ∨ asset_id snapshot = targetAssetID).

(** The transfer's asset is on neither side of the pair named by [sym]. *)
Definition foreignAsset (sym : string) (snapshot : SafeSnapshot) : Prop :=
  ∃ baseAssetID targetAssetID,
    getAssetIDBySymbol env sym = Some (baseAssetID, targetAssetID)
    ∧ asset_id snapshot ≠ baseAssetID ∧ asset_id snapshot ≠ targetAssetID.

(** The payment state written for a first leg. *)
Definition firstLeg (kind trace sym : string) (snapshot : SafeSnapshot)
    (now : Timestamp) : PaymentState :=
  {| orderId := trace; type := kind; symbol := sym;
     firstAssetId := asset_id snapshot;
     firstAssetAmount := amount snapshot;
     firstSnapshotId := snapshot_id snapshot;
     createdAt := now; updatedAt := now;
     secondAssetId := None; secondAssetAmount := None;
     secondSnapshotId := None |}.

(** The second-leg properties taken from a transfer. *)
Definition secondLeg (snapshot : SafeSnapshot) (now : Timestamp) : Leg2 :=
  {| l2_secondAssetId := asset_id snapshot;
     l2_secondAssetAmount := amount snapshot;
     l2_secondSnapshotId := snapshot_id snapshot;
     l2_updatedAt := now |}.

(** A transaction paying [amt] to [recipient] was appended to the submitted
    ones. *)
Definition refunded (recipient amt : string) (w w' : World) : Prop :=
  ∃ tx, sentTransactions w' = sentTransactions w ++ [tx]
        ∧ head (tx_recipients tx) = Some (buildSafeTransactionRecipient [recipient] 1 amt).

(** ** The memo codec in the words of the specification

    Hex-decode, then base64-decode; the first two characters select the
    kind; an empty memo, another prefix or a failed payload parse give no
    instruction. *)
Inductive Kind : Type := Spot | Arbitrage | MarketMaking.

Definition spec_kind (text : string) : option Kind :=
  match text with
  | String c1 (String c2 _) =>
      if decide ((c1, c2) = ("S", "P")%char) then Some Spot
      else if decide ((c1, c2) = ("A", "R")%char) then Some Arbitrage
      else if decide ((c1, c2) = ("M", "M")%char) then Some MarketMaking
      else None
  | _ => None
  end.

(** The instruction the specification reads in a decoded memo text. *)
Definition spec_instruction (text : string) (snapshot : SafeSnapshot)
    : option Event :=
  match spec_kind text with
  | Some Spot =>
      (fun d => SpotCreate d snapshot) <$> decodeSpotMemo env text
  | Some Arbitrage =>
      (fun d => ArbitrageCreate d snapshot) <$> decodeArbitrageMemo env text
  | Some MarketMaking =>
      (fun d => MarketMakingCreate d snapshot) <$> decodeMarketMakingMemo env text
  | None => None
  end.

Definition spec_decode (snapshot : SafeSnapshot) : option Event :=
  match memo snapshot with
  | None => None
  | Some EmptyString => None
  | Some m => spec_instruction (base64ToUtf8 env (hexToUtf8 env m)) snapshot
  end.

(** Transfers of the ledger name their asset. *)
Definition namedAsset (snapshot : SafeSnapshot) : Prop := asset_id snapshot ≠ "".

Definition stepNamed (st : Step) : Prop :=
  match st with
  | Intake snapshot => namedAsset snapshot
  | _ => True
  end.

(** No store call rejects. *)
Definition storeHealthy (w : World) : Prop := ∀ op, storeFails w op = false.

(** Two listener calls in a row, for the transfers [x] then [y]. *)
Definition arbitrageThen (d1 : ArbitrageMemoDetails) (x : SafeSnapshot)
    (d2 : ArbitrageMemoDetails) (y : SafeSnapshot) (w : World) : World :=
  (handleArbitrageCreate (Some d2) (Some y)
     (handleArbitrageCreate (Some d1) (Some x) w).2).2.

Definition marketMakingThen (d1 : MarketMakingMemoDetails) (x : SafeSnapshot)
    (d2 : MarketMakingMemoDetails) (y : SafeSnapshot) (w : World) : World :=
  (handleMarketMakingCreate (Some d2) (Some y)
     (handleMarketMakingCreate (Some d1) (Some x) w).2).2.

(** ** Fields an action leaves alone *)

(** The tables of the reconciliation state machine. *)
Definition strategyTables (w : World)
    : gmap string PaymentState * list ArbitrageOrder * list MarketMakingOrder :=
  (paymentStates w, arbitrageOrders w, marketMakingOrders w).

(** The archive and the event bus. *)
Definition intakeState (w : World) : list SafeSnapshot * list Event :=
  (snapshotsTable w, emitted w).

(** What the services only read. *)
Definition surroundings (w : World)
    : (StoreOp -> bool) * (MixinCall -> bool) * list SafeUtxoOutput :=
  (storeFails w, mixinFails w, ledgerOutputs w).

(** What one listener call for [trace] may do to the tables: nothing; record
    a first leg where there was no state; or fill the second leg of a state
    that lacked it, with at most one order for [trace] appended. *)
Definition legStep (trace : string) (snapshot : SafeSnapshot) (w w' : World)
    : Prop :=
  strategyTables w' = strategyTables w
  ∨ (paymentStates w !! trace = None
     ∧ (∃ ps, secondAssetId ps = None
              ∧ paymentStates w' = <[trace := ps]> (paymentStates w))
     ∧ arbitrageOrders w' = arbitrageOrders w
     ∧ marketMakingOrders w' = marketMakingOrders w)
  ∨ (∃ ps now,
        paymentStates w !! trace = Some ps
        ∧ truthy (secondAssetId ps) = false
        ∧ paymentStates w' =
            <[trace := applyLeg2 (secondLeg snapshot now) ps]> (paymentStates w)
        ∧ ((arbitrageOrders w' = arbitrageOrders w
            ∧ marketMakingOrders w' = marketMakingOrders w)
           ∨ (∃ o, ao_orderId o = trace
                   ∧ arbitrageOrders w' = arbitrageOrders w ++ [o]
                   ∧ marketMakingOrders w' = marketMakingOrders w)
           ∨ (∃ o, mo_orderId o = trace
                   ∧ marketMakingOrders w' = marketMakingOrders w ++ [o]
                   ∧ arbitrageOrders w' = arbitrageOrders w))).

(** The invariant of the reconciliation tables: a trace id has no order, or
    exactly one together with a payment state whose second leg is set. *)
Definition reconciled (w : World) : Prop :=
  ∀ trace,
    ordersFor trace w = 0
    ∨ (ordersFor trace w = 1
       ∧ ∃ ps, paymentStates w !! trace = Some ps
               ∧ truthy (secondAssetId ps) = true).

(** The transfer an event was emitted for. *)
Definition snapshotOf (e : Event) : SafeSnapshot :=
  match e with
  | SpotCreate _ snapshot => snapshot
  | ArbitrageCreate _ snapshot => snapshot
  | MarketMakingCreate _ snapshot => snapshot
  end.

Definition keeps {A X : Type} (f : World -> X) (m : M A) : Prop :=
  ∀ w, f (m w).2 = f w.

End Pipeline.

Arguments Env : clear implicits.
Arguments Event : clear implicits.
Arguments World : clear implicits.
Arguments Scheduler : clear implicits.
Arguments M : clear implicits.

(** ** A concrete environment

    Memos in the layout [hex(base64(text))] with colon-separated payloads,
    the BTC/USDT pair, and decimal amounts.  The two [Buffer] decoders cover
    well-formed ASCII input, which is all the examples below use. *)
Module Demo.

Definition hexValue (c : ascii) : option N :=
  let n := N_of_ascii c in
  if (48 <=? n)%N && (n <=? 57)%N then Some (n - 48)%N
  else if (97 <=? n)%N && (n <=? 102)%N then Some (n - 87)%N
  else if (65 <=? n)%N && (n <=? 70)%N then Some (n - 55)%N
  else None.

Fixpoint hexDecode (s : string) : string :=
  match s with
  | String a (String b rest) =>
      match hexValue a, hexValue b with
      | Some x, Some y => String (ascii_of_N (16 * x + y)) (hexDecode rest)
      | _, _ => EmptyString
      end
  | _ => EmptyString
  end.

Definition base64Value (c : ascii) : option N :=
  let n := N_of_ascii c in
  if (65 <=? n)%N && (n <=? 90)%N then Some (n - 65)%N
  else if (97 <=? n)%N && (n <=? 122)%N then Some (n - 71)%N
  else if (48 <=? n)%N && (n <=? 57)%N then Some (n + 4)%N
  else if (n =? 43)%N then Some 62%N
  else if (n =? 47)%N then Some 63%N
  else None.

Fixpoint base64Values (s : string) : list N :=
  match s with
  | EmptyString => []
  | String c rest =>
      match base64Value c with
      | Some v => v :: base64Values rest
      | None => []
      end
  end.

Fixpoint base64Bytes (fuel : nat) (vs : list N) : string :=
  match fuel with
  | O => EmptyString
  | S fuel' =>
      match vs with
      | a :: b :: c :: d :: rest =>
          String (ascii_of_N (4 * a + b / 16))
            (String (ascii_of_N (16 * (b mod 16) + c / 4))
               (String (ascii_of_N (64 * (c mod 4) + d)) (base64Bytes fuel' rest)))
      | [a; b; c] =>
          String (ascii_of_N (4 * a + b / 16))
            (String (ascii_of_N (16 * (b mod 16) + c / 4)) EmptyString)
      | [a; b] => String (ascii_of_N (4 * a + b / 16)) EmptyString
      | _ => EmptyString
      end
  end%N.

Definition base64Decode (s : string) : string :=
  let vs := base64Values s in base64Bytes (length vs) vs.

(** Fields of a colon-separated payload. *)
Fixpoint splitColon (s : string) (cur : string) : list string :=
  match s with
  | EmptyString => [cur]
  | String c rest =>
      if bool_decide (c = ":"%char) then cur :: splitColon rest EmptyString
      else splitColon rest (cur +:+ String c EmptyString)
  end.

Definition decodeSpot (s : string) : option string :=
  match splitColon s "" with
  | [_; exchange; sym] => Some (exchange +:+ " " +:+ sym)
  | _ => None
  end.

Definition decodeArbitrage (s : string) : option ArbitrageMemoDetails :=
  match splitColon s "" with
  | [_; a; b; sym; trace] =>
      Some {| arb_traceId := trace; arb_symbol := sym;
              exchangeAName := a; exchangeBName := b |}
  | _ => None
  end.

Definition decodeMarketMaking (s : string) : option MarketMakingMemoDetails :=
  match splitColon s "" with
  | [_; e; sym; trace] =>
      Some {| mm_traceId := trace; mm_symbol := sym; exchangeName := e |}
  | _ => None
  end.

Definition BTC : string := "c6d0c728-2624-429b-8e0d-d9d19b6592fa".
Definition USDT : string := "4d8c508b-91c5-375b-92b0-ee702ed2dac5".
Definition ETH : string := "43d61dcd-e413-450d-80b8-101d5e903357".

Definition registry (sym : string) : option (string * string) :=
  if bool_decide (sym = "BTC/USDT") then Some (BTC, USDT) else None.

Fixpoint digitsValue (s : string) (acc : N) : option N :=
  match s with
  | EmptyString => Some acc
  | String c rest =>
      let n := N_of_ascii c in
      if (48 <=? n)%N && (n <=? 57)%N then digitsValue rest (10 * acc + (n - 48))%N
      else None
  end.

Fixpoint splitDot (s : string) (cur : string) : string * option string :=
  match s with
  | EmptyString => (cur, None)
  | String c rest =>
      if bool_decide (c = "."%char) then (cur, Some rest)
      else splitDot rest (cur +:+ String c EmptyString)
  end.

(** Plain decimals [digits] or [digits.digits]; anything else is NaN. *)
Definition parseDecimal (s : string) : BN :=
  match splitDot s "" with
  | (EmptyString, _) => None
  | (i, None) => (fun n => (Z.of_N n # 1)%Q) <$> digitsValue i 0
  | (_, Some EmptyString) => None
  | (i, Some f) =>
      match digitsValue i 0, digitsValue f 0 with
      | Some a, Some b =>
          let scale := (10 ^ N.of_nat (String.length f))%N in
          Some (Z.of_N (a * scale + b) # N.succ_pos (N.pred scale))%Q
      | _, _ => None
      end
  end.

Definition selectAll (outputs : list SafeUtxoOutput)
    (recipients : list SafeTransactionRecipient)
    : JsResult (list SafeUtxoOutput * BN) :=
  Returned (outputs, bn_zero).

Definition demoEnv (cron : bool) : Env string :=
  {| decodeSpotMemo := decodeSpot;
     decodeArbitrageMemo := decodeArbitrage;
     decodeMarketMakingMemo := decodeMarketMaking;
     getAssetIDBySymbol := registry;
     hexToUtf8 := hexDecode;
     base64ToUtf8 := base64Decode;
     BigNumber := parseDecimal;
     bnToString := fun _ => "0";
     getUnspentOutputsForRecipients := selectAll;
     enableCron := cron |}.

Definition healthy {A : Type} (_ : A) : bool := false.

(** An empty database, a ledger holding [outputs], nothing failing. *)
Definition world0 (outputs : list SafeUtxoOutput) : World string :=
  {| snapshotsTable := []; paymentStates := ∅; arbitrageOrders := [];
     marketMakingOrders := []; ledgerOutputs := outputs;
     sentTransactions := []; emitted := []; logs := []; clock := 0;
     storeFails := healthy; mixinFails := healthy |}.

Definition memoAR : string :=
  "51564936596d6c755957356a5a54707661336736516c52444c3156545246513664484a685932557457413d3d".
Definition memoMM : string :=
  "54553036623274344f6b4a5551793956553052554f6e527959574e6c4c566b3d".
Definition memoSP : string := "55314136623274344f6b4a555179395655305255".
Definition memoXX : string := "57466736626d393061476c755a773d3d".
Definition memoARbroken : string := "51564936596e4a7661325675".

(** The Mixin user the transfers come from. *)
Definition sender : string := "2f1c9a34-7b5e-4d0a-8c61-9e3f5a7b2d18".

Definition transfer (id asset amt : string) (m : option string) : SafeSnapshot :=
  {| snapshot_id := id; opponent_id := sender; asset_id := asset;
     amount := amt; memo := m; created_at := "2024-05-01T00:00:00Z" |}.

Definition t1 : SafeSnapshot := transfer "1" BTC "0.1" (Some memoAR).
Definition t2 : SafeSnapshot := transfer "2" USDT "2500" (Some memoAR).
Definition t3 : SafeSnapshot := transfer "3" ETH "5" (Some memoAR).

Definition t4 : SafeSnapshot := transfer "4" BTC "0.2" (Some memoAR).
Definition m1 : SafeSnapshot := transfer "5" BTC "0.3" (Some memoMM).
Definition m2 : SafeSnapshot := transfer "6" USDT "900" (Some memoMM).
Definition bare : SafeSnapshot := transfer "7" BTC "1" None.

Definition detailsX : ArbitrageMemoDetails :=
  {| arb_traceId := "trace-X"; arb_symbol := "BTC/USDT";
     exchangeAName := "binance"; exchangeBName := "okx" |}.

Definition detailsY : MarketMakingMemoDetails :=
  {| mm_traceId := "trace-Y"; mm_symbol := "BTC/USDT"; exchangeName := "okx" |}.

Definition output (asset amt : string) : SafeUtxoOutput :=
  {| utxo_asset := asset; utxo_amount := amt; utxo_unspent := true;
     receivers := ["bot"]; receivers_threshold := 1 |}.

(** Only the store call [bad] rejects. *)
Definition onlyFails (bad op : StoreOp) : bool :=
  match bad, op with
  | OpCheckSnapshotExist, OpCheckSnapshotExist
  | OpCreateSnapshot, OpCreateSnapshot
  | OpFindPaymentState, OpFindPaymentState
  | OpCreatePaymentState, OpCreatePaymentState
  | OpUpdatePaymentState, OpUpdatePaymentState
  | OpCreateArbitrage, OpCreateArbitrage
  | OpCreateMarketMaking, OpCreateMarketMaking => true
  | _, _ => false
  end.

(** The empty database with one store call rejecting. *)
Definition worldFailing (bad : StoreOp) : World string :=
  {| snapshotsTable := []; paymentStates := ∅; arbitrageOrders := [];
     marketMakingOrders := []; ledgerOutputs := [];
     sentTransactions := []; emitted := []; logs := []; clock := 0;
     storeFails := onlyFails bad; mixinFails := healthy |}.

(** The world once the first leg [t1] of trace-X has been processed. *)
Definition worldLeg1 : World string :=
  processSnapshot (demoEnv true) t1 (world0 []).

(** The world once both legs [t1], [t2] of trace-X have been processed. *)
Definition worldLeg2 : World string := processSnapshot (demoEnv true) t2 worldLeg1.

Definition env0 : Env string := demoEnv true.

Definition scheduler0 : Scheduler string :=
  {| world := world0 []; inFlight := []; cycles := 0 |}.

End Demo.

(** * The rest of the snapshots service: balances, deposits, withdrawals *)

(** An asset as [client.network.fetchAsset] returns it; only the properties
    the service reads. *)
Record Asset : Type := {
  a_asset_id : string;
  a_chain_id : string;
  a_symbol : string;
  a_amount : string;
}.

(** A deposit entry as [client.safe.depositEntries] returns it. *)
Record DepositEntry : Type := {
  destination : string;
  tag : option string;
}.

(** The object [depositAddress] returns. *)
Record DepositAddress : Type := {
  da_address : string;
  da_memo : option string;
}.

(** The answers of the Mixin network calls of [depositAddress]. *)
Record Network : Type := {
  fetchAsset : string -> JsResult Asset;
  depositEntries : string -> JsResult (list DepositEntry);
}.

(** The withdrawal output [{amount, destination}] of [withdrawal]. *)
Record SafeWithdrawalRecipient : Type := {
  w_amount : string;
  w_destination : string;
}.

Section Balances.

Context {SpotMemoDetails : Type}.
Variable env : Env SpotMemoDetails.

#[local] Existing Instances M_ret M_bind.

Local Abbreviation World := (World SpotMemoDetails).
Local Abbreviation M := (M SpotMemoDetails).

(** ** Balances *)

(** [client.utxo.safeOutputs({})]: neither asset nor state in the query. *)
Definition allOutputs : M (list SafeUtxoOutput) :=
  mixinCall CallSafeOutputs (fun w => (Returned (ledgerOutputs w), w)).

(** The outputs of one asset, in their order. *)
Definition ofAsset (asset : string) (outputs : list SafeUtxoOutput)
    : list SafeUtxoOutput :=
  filter (fun o => utxo_asset o = asset) outputs.

(** The first [reduce] of [getAllAssetBalances]:
    [if (!acc[assetId]) acc[assetId] = []; acc[assetId].push(output)]. *)
Definition groupByAssetId (outputs : list SafeUtxoOutput)
    : gmap string (list SafeUtxoOutput) :=
  fold_left
    (fun acc output =>
       let assetId := utxo_asset output in
       let acc' :=
         match acc !! assetId with
         | Some _ => acc
         | None => <[assetId := []]> acc
         end in
       alter (fun group => group ++ [output]) assetId acc')
    outputs ∅.

(** The second [reduce], over [Object.entries(groupedByAssetId)]. *)
Definition assetBalances (grouped : gmap string (list SafeUtxoOutput))
    : gmap string string :=
  fold_left
    (fun acc entry =>
       <[entry.1 := bnToString env (getTotalBalanceFromOutputs env entry.2)]> acc)
    (map_to_list grouped) ∅.

Definition getAllAssetBalances : M (gmap string string) :=
  tryCatch
    (outputs ← allOutputs;
     mret (assetBalances (groupByAssetId outputs)))
    (fun message =>
       logger LogError ("Error fetching asset balances: " +:+ message);;
       throw message).

(** SDK [client.utxo.safeAssetBalance({asset})]: the total of the unspent
    outputs of the asset, printed. *)
Definition safeAssetBalance (asset : string) : M string :=
  outputs ← safeOutputs asset;
  mret (bnToString env (getTotalBalanceFromOutputs env outputs)).

Definition getAssetBalance (asset : string) : M string :=
  tryCatch (safeAssetBalance asset)
    (fun message =>
       logger LogError ("Mixin getAssetBalance() => " +:+ message);;
       mret "0").

Definition checkMixinBalanceEnough (asset amt : string) : M bool :=
  tryCatch
    (balance ← getAssetBalance asset;
     if isLessThan (BigNumber env balance) (BigNumber env amt)
     then mret false
     else mret true)
    (fun _ => mret false).

(** ** Deposit address *)

Definition depositAddress (net : Network) (asset : string)
    : M (option DepositAddress) :=
  tryCatch
    (fetched ← liftResult (fetchAsset net asset);
     entities ← liftResult (depositEntries net (a_chain_id fetched));
     match entities with
     | first :: _ =>
         mret (Some {| da_address := destination first; da_memo := tag first |})
     | [] => throw "Cannot read properties of undefined (reading 'destination')"
     end)
    (fun message =>
       logger LogError ("Failed to get deposit address: " +:+ message);;
       mret None).

(** ** The outputs and ghost keys of a withdrawal *)

(** An output of a withdrawal transaction: the withdrawal itself, or a Mixin
    recipient (the fee paid to the cashier, the change). *)
Definition WithdrawalOutput : Type :=
  (SafeWithdrawalRecipient + SafeTransactionRecipient)%type.

(** [if (!change.isZero() && !change.isNegative()) recipients.push(
    buildSafeTransactionRecipient(outputs[0].receivers,
    outputs[0].receivers_threshold, change.toString()))] *)
Definition pushChange (recipients : list WithdrawalOutput)
    (outputs : list SafeUtxoOutput) (change : BN)
    : JsResult (list WithdrawalOutput) :=
  if negb (isZero change) && negb (isNegative change) then
    match outputs with
    | o :: _ =>
        Returned
          (recipients ++
           [inr (buildSafeTransactionRecipient (receivers o)
                   (receivers_threshold o) (bnToString env change))])
    | [] => Thrown "Cannot read properties of undefined (reading 'receivers')"
    end
  else Returned recipients.

(** The recipients when the fee is paid in the chain asset: the withdrawal
    output, then the change. *)
Definition chainFeeRecipients (amt dest : string)
    (outputs : list SafeUtxoOutput) (change : BN)
    : JsResult (list WithdrawalOutput) :=
  pushChange [inl {| w_amount := amt; w_destination := dest |}] outputs change.

(** The recipients when the fee is paid in the withdrawn asset: the
    withdrawal output first, the fee to the cashier, then the change. *)
Definition assetFeeRecipients (amt dest : string) (cashier : list string)
    (fee : Asset) (outputs : list SafeUtxoOutput) (change : BN)
    : JsResult (list WithdrawalOutput) :=
  pushChange
    [inl {| w_amount := amt; w_destination := dest |};
     inr (buildSafeTransactionRecipient cashier 1 (a_amount fee))]
    outputs change.

(** [recipients.filter((r) => 'members' in r)] *)
Definition withMembers (recipients : list WithdrawalOutput)
    : list SafeTransactionRecipient :=
  omap (fun r => match r with inr m => Some m | inl _ => None end) recipients.

(** [.map((r, i) => ({hint, receivers: r.members, index: i + 1}))] *)
Definition withdrawalGhostRequests (recipients : list WithdrawalOutput)
    : list GhostKeyRequest :=
  imap (fun i r => {| gk_receivers := members r; gk_index := i + 1 |})
       (withMembers recipients).

(** [[undefined, ...ghosts]], the ghost keys handed to
    [buildSafeTransaction] beside the recipients. *)
Definition ghostSlots (recipients : list WithdrawalOutput)
    : list (option GhostKeyRequest) :=
  None :: map Some (withdrawalGhostRequests recipients).

(** ** Observations on runs *)

(** The first-leg record of a payment state. *)
Definition firstLegOf (ps : PaymentState)
    : string * string * string * string * string * string * Timestamp :=
  (orderId ps, type ps, symbol ps, firstAssetId ps, firstAssetAmount ps,
   firstSnapshotId ps, createdAt ps).

(** Every order is backed by the payment state of its trace id: the state
    is complete and holds the two balances of the order. *)
Definition backed (trace balanceA balanceB : string) (w : World) : Prop :=
  ∃ ps, paymentStates w !! trace = Some ps
        ∧ truthy (secondAssetId ps) = true
        ∧ firstAssetAmount ps = balanceA
        ∧ secondAssetAmount ps = Some balanceB.

Definition ordersBacked (w : World) : Prop :=
  (∀ o, In o (arbitrageOrders w) ->
        backed (ao_orderId o) (ao_balanceA o) (ao_balanceB o) w)
  ∧ (∀ o, In o (marketMakingOrders w) ->
          backed (mo_orderId o) (mo_balanceA o) (mo_balanceB o) w).

(** [legStep] with the balances of the appended order. *)
Definition legMove (trace : string) (snapshot : SafeSnapshot) (w w' : World)
    : Prop :=
  strategyTables w' = strategyTables w
  ∨ (paymentStates w !! trace = None
     ∧ (∃ ps, secondAssetId ps = None
              ∧ paymentStates w' = <[trace := ps]> (paymentStates w))
     ∧ arbitrageOrders w' = arbitrageOrders w
     ∧ marketMakingOrders w' = marketMakingOrders w)
  ∨ (∃ ps now,
        paymentStates w !! trace = Some ps
        ∧ truthy (secondAssetId ps) = false
        ∧ paymentStates w' =
            <[trace := applyLeg2 (secondLeg snapshot now) ps]> (paymentStates w)
        ∧ ((arbitrageOrders w' = arbitrageOrders w
            ∧ marketMakingOrders w' = marketMakingOrders w)
           ∨ (∃ o, ao_orderId o = trace
                   ∧ ao_balanceA o = firstAssetAmount ps
                   ∧ ao_balanceB o = amount snapshot
                   ∧ arbitrageOrders w' = arbitrageOrders w ++ [o]
                   ∧ marketMakingOrders w' = marketMakingOrders w)
           ∨ (∃ o, mo_orderId o = trace
                   ∧ mo_balanceA o = firstAssetAmount ps
                   ∧ mo_balanceB o = amount snapshot
                   ∧ marketMakingOrders w' = marketMakingOrders w ++ [o]
                   ∧ arbitrageOrders w' = arbitrageOrders w))).

(** The transfers of a batch taken in one after the other. *)
Definition intakeAll (batch : list SafeSnapshot) (w : World) : World :=
  run env (map Intake batch) w.

End Balances.

(** * Handlers that overlap

    Every [await] hands control back to the event loop.  The [forEach] of
    [fetchAndProcessSnapshots] starts all the handlers of a batch without
    awaiting any of them, and [emit] does not wait for its listeners; so a
    handler stopped at an [await] shares the database with the others, and
    what it read before the [await] may be stale when it goes on.

    Below, each handler is cut at its first [await], which is the read of
    the row it decides on ([checkSnapshotExist] for [handleSnapshot],
    [findPaymentStateByIdRaw] for the listeners).  The part after the read
    takes the answer as an argument and runs on the database as it is by
    then.  [step] above is the special case in which nothing happens between
    the read and what follows it.  The later [await]s of a handler are not
    cut: every schedule below is a schedule of the code, which has more. *)

Section Overlapping.

Context {SpotMemoDetails : Type}.
Variable env : Env SpotMemoDetails.

#[local] Existing Instances M_ret M_bind.

Local Abbreviation World := (World SpotMemoDetails).
Local Abbreviation Event := (Event SpotMemoDetails).
Local Abbreviation M := (M SpotMemoDetails).

(** [handleSnapshot] from the answer of [await checkSnapshotExist] on. *)
Definition afterCheckSnapshotExist (snapshot : SafeSnapshot) (exist : bool)
    : M unit :=
  if exist then mret tt
  else if negb (truthy (memo snapshot)) then
    createSnapshot snapshot;;
    logger LogWarn "snapshot no memo, return"
  else
    let m := default "" (memo snapshot) in
    if (String.length m =? 0)%nat then
      createSnapshot snapshot;;
      logger LogWarn "snapshot.memo.length === 0, return"
    else
      dispatchMemo env (decodeMemo env m) snapshot;;
      createSnapshot snapshot.

(** [handleArbitrageCreate] from the answer of
    [await findPaymentStateByIdRaw] on. *)
Definition arbitrageAfterFind (details : ArbitrageMemoDetails)
    (snapshot : SafeSnapshot) (paymentState : option PaymentState) : M unit :=
  '(baseAssetID, targetAssetID) ← resolvePair env (arb_symbol details);
  if bool_decide (asset_id snapshot ≠ baseAssetID)
     && bool_decide (asset_id snapshot ≠ targetAssetID)
  then refund env snapshot
  else
    match paymentState with
    | None =>
        now ← getRFC3339Timestamp;
        createPaymentState
          {| orderId := arb_traceId details;
             type := "arbitrage";
             symbol := arb_symbol details;
             firstAssetId := asset_id snapshot;
             firstAssetAmount := amount snapshot;
             firstSnapshotId := snapshot_id snapshot;
             createdAt := now;
             updatedAt := now;
             secondAssetId := None;
             secondAssetAmount := None;
             secondSnapshotId := None |}
    | Some paymentState =>
        if negb (truthy (secondAssetId paymentState)) then
          updated ← getRFC3339Timestamp;
          updatePaymentStateById (arb_traceId details)
            {| l2_secondAssetId := asset_id snapshot;
               l2_secondAssetAmount := amount snapshot;
               l2_secondSnapshotId := snapshot_id snapshot;
               l2_updatedAt := updated |};;
          created ← getRFC3339Timestamp;
          createArbitrage
            {| ao_orderId := arb_traceId details;
               ao_userId := opponent_id snapshot;
               ao_pair := arb_symbol details;
               ao_amountToTrade := "1";
               ao_minProfitability := "0.01";
               ao_exchangeAName := exchangeAName details;
               ao_exchangeBName := exchangeBName details;
               ao_balanceA := firstAssetAmount paymentState;
               ao_balanceB := amount snapshot;
               ao_state := "created";
               ao_createdAt := created |}
        else mret tt
    end.

(** [handleMarketMakingCreate] from the answer of
    [await findPaymentStateByIdRaw] on. *)
Definition marketMakingAfterFind (details : MarketMakingMemoDetails)
    (snapshot : SafeSnapshot) (paymentState : option PaymentState) : M unit :=
  '(baseAssetID, targetAssetID) ← resolvePair env (mm_symbol details);
  if bool_decide (asset_id snapshot ≠ baseAssetID)
     && bool_decide (asset_id snapshot ≠ targetAssetID)
  then refund env snapshot
  else
    match paymentState with
    | None =>
        now ← getRFC3339Timestamp;
        createPaymentState
          {| orderId := mm_traceId details;
             type := "market_making";
             symbol := mm_symbol details;
             firstAssetId := asset_id snapshot;
             firstAssetAmount := amount snapshot;
             firstSnapshotId := snapshot_id snapshot;
             createdAt := now;
             updatedAt := now;
             secondAssetId := None;
             secondAssetAmount := None;
             secondSnapshotId := None |}
    | Some paymentState =>
        if negb (truthy (secondAssetId paymentState)) then
          updated ← getRFC3339Timestamp;
          updatePaymentStateById (mm_traceId details)
            {| l2_secondAssetId := asset_id snapshot;
               l2_secondAssetAmount := amount snapshot;
               l2_secondSnapshotId := snapshot_id snapshot;
               l2_updatedAt := updated |};;
          created ← getRFC3339Timestamp;
          createMarketMaking
            {| mo_orderId := mm_traceId details;
               mo_userId := opponent_id snapshot;
               mo_pair := mm_symbol details;
               mo_state := "created";
               mo_exchangeName := exchangeName details;
               mo_bidSpread := "0.1";
               mo_askSpread := "0.1";
               mo_orderAmount := "1";
               mo_orderRefreshTime := "15000";
               mo_numberOfLayers := "1";
               mo_priceSourceType := MID_PRICE;
               mo_amountChangePerLayer := "1";
               mo_amountChangeType := "percentage";
               mo_ceilingPrice := "0";
               mo_floorPrice := "0";
               mo_balanceA := firstAssetAmount paymentState;
               mo_balanceB := amount snapshot;
               mo_createdAt := created |}
        else mret tt
    end.

(** The read a listener starts with. *)
Definition findFor (e : Event) : M (option PaymentState) :=
  match e with
  | SpotCreate _ _ => mret None
  | ArbitrageCreate details _ => findPaymentStateByIdRaw (arb_traceId details)
  | MarketMakingCreate details _ => findPaymentStateByIdRaw (mm_traceId details)
  end.

(** A handler stopped at its first [await], with the answer it resumes
    with. *)
Inductive Suspended : Type :=
| AtCheck (snapshot : SafeSnapshot) (exist : bool)
| AtFind (e : Event) (paymentState : option PaymentState).

Definition resume (s : Suspended) : M unit :=
  match s with
  | AtCheck snapshot seen => afterCheckSnapshotExist snapshot seen
  | AtFind (SpotCreate _ _) _ => mret tt
  | AtFind (ArbitrageCreate details snapshot) paymentState =>
      arbitrageAfterFind details snapshot paymentState
  | AtFind (MarketMakingCreate details snapshot) paymentState =>
      marketMakingAfterFind details snapshot paymentState
  end.

(** The database and the handlers in flight. *)
Record Running : Type := {
  shared : World;
  suspended : list Suspended;
}.

Definition idle (w : World) : Running := {| shared := w; suspended := [] |}.

(** What the event loop can do next: call [handleSnapshot], whose dedup read
    is answered; answer the payment-state read of the listener of the oldest
    pending event; let a suspended handler run on to its end; or have the
    surroundings change.  A handler whose read rejects is over: nobody
    catches the rejection. *)
Inductive Turn : Type :=
| Start (snapshot : SafeSnapshot)
| Listen
| Resume (i : nat)
| Change (sf : StoreOp -> bool) (mf : MixinCall -> bool)
    (outputs : list SafeUtxoOutput).

Definition suspend (s : Suspended) (r : Running) (w : World) : Running :=
  {| shared := w; suspended := suspended r ++ [s] |}.

Definition turn (t : Turn) (r : Running) : Running :=
  match t with
  | Start snapshot =>
      match repo_checkSnapshotExist (snapshot_id snapshot) (shared r) with
      | (Returned seen, w) => suspend (AtCheck snapshot seen) r w
      | (Thrown _, w) => {| shared := w; suspended := suspended r |}
      end
  | Listen =>
      match emitted (shared r) with
      | [] => r
      | e :: rest =>
          match findFor e (set_emitted rest (shared r)) with
          | (Returned paymentState, w) => suspend (AtFind e paymentState) r w
          | (Thrown _, w) => {| shared := w; suspended := suspended r |}
          end
      end
  | Resume i =>
      match suspended r !! i with
      | None => r
      | Some s =>
          {| shared := (resume s (shared r)).2;
             suspended := delete i (suspended r) |}
      end
  | Change sf mf outputs =>
      {| shared := set_environment sf mf outputs (shared r);
         suspended := suspended r |}
  end.

Definition turns (ts : list Turn) (r : Running) : Running :=
  fold_left (fun r' t => turn t r') ts r.

(** A step of [run] as turns: the handler is resumed right after its
    read. *)
Definition serial (st : Step) : list Turn :=
  match st with
  | Intake snapshot => [Start snapshot; Resume 0]
  | Deliver => [Listen; Resume 0]
  | Disturb sf mf outputs => [Change sf mf outputs]
  end.

(** The schedule in which no two handlers overlap. *)
Definition oneByOne (steps : list Step) : list Turn :=
  concat (map serial steps).

(** The handlers a poller has in flight, as the [forEach] starts them. *)
Definition started (sch : Scheduler SpotMemoDetails) : list Turn :=
  map (fun p => Start p.2) (inFlight sch).

(** Two handlers started one after the other, then resumed one after the
    other: both have their read answered before either goes on. *)
Definition bothThenBoth (first second : Turn) : list Turn :=
  [first; second; Resume 0; Resume 0].

End Overlapping.

Arguments Suspended : clear implicits.
Arguments Running : clear implicits.

(** ** Fixtures for the balance, deposit and withdrawal code *)
Module Fixtures.

Import Demo.

(** Whole numbers printed in decimal; everything else prints as NaN. *)
Definition printWhole (b : BN) : string :=
  match b with
  | Some (Qmake n 1%positive) => NilZero.string_of_int (Z.to_int n)
  | _ => "NaN"
  end.

(** The concrete environment with whole balances printed. *)
Definition env1 : Env string :=
  {| decodeSpotMemo := decodeSpot;
     decodeArbitrageMemo := decodeArbitrage;
     decodeMarketMakingMemo := decodeMarketMaking;
     getAssetIDBySymbol := registry;
     hexToUtf8 := hexDecode;
     base64ToUtf8 := base64Decode;
     BigNumber := parseDecimal;
     bnToString := printWhole;
     getUnspentOutputsForRecipients := selectAll;
     enableCron := true |}.

(** A ledger with two BTC outputs around one ETH output. *)
Definition mixedLedger : World string :=
  world0 [output BTC "1"; output ETH "3"; output BTC "2"].

(** The world [mixedLedger] with the outputs call rejecting. *)
Definition offlineLedger : World string :=
  set_environment healthy (fun _ => true) (ledgerOutputs mixedLedger) mixedLedger.

(** A market-making instruction that carries the trace id of [detailsX]. *)
Definition detailsXmm : MarketMakingMemoDetails :=
  {| mm_traceId := "trace-X"; mm_symbol := "BTC/USDT"; exchangeName := "okx" |}.

(** A network that knows every asset as its own chain and has one deposit
    entry for BTC only. *)
Definition network0 : Network :=
  {| fetchAsset := fun id =>
       Returned {| a_asset_id := id; a_chain_id := id; a_symbol := "?";
                   a_amount := "0" |};
     depositEntries := fun chain =>
       if bool_decide (chain = BTC)
       then Returned [{| destination := "bc1-deposit"; tag := None |}]
       else Returned [] |}.

Definition cashier : list string := ["cashier"].

(** The first leg of trace-X recorded, and the transfers [t2] and [t4]
    fetched in one batch: both are archived and both their listeners are
    waiting for the payment state. *)
Definition twoSecondLegs : World string :=
  shared (turns env0 (bothThenBoth (Start t2) (Start t4)) (idle worldLeg1)).

(** Nothing recorded yet, and the transfers [t1] and [t2] fetched in one
    batch. *)
Definition twoFirstLegs : World string :=
  shared (turns env0 (bothThenBoth (Start t1) (Start t2)) (idle (world0 []))).

Definition chainFee : Asset :=
  {| a_asset_id := ETH; a_chain_id := ETH; a_symbol := "ETH"; a_amount := "1" |}.

End Fixtures.

(** * Properties *)

Section Properties.

Context {SpotMemoDetails : Type} (env : Env SpotMemoDetails).

#[local] Existing Instances M_ret M_bind.

Local Abbreviation World := (World SpotMemoDetails).
Local Abbreviation M := (M SpotMemoDetails).

(** ** Frame rules *)

Section Keeps.

Context {X : Type} (f : World -> X).

Lemma keeps_ret {A : Type} (a : A) : keeps f (mret a : M A).
Proof. intros w. reflexivity. Qed.

Lemma keeps_throw {A : Type} (message : string) : keeps f (throw message : M A).
Proof. intros w. reflexivity. Qed.

Lemma keeps_liftResult {A : Type} (r : JsResult A) : keeps f (liftResult r : M A).
Proof. intros w. reflexivity. Qed.

Lemma keeps_bind {A B : Type} (m : M A) (k : A -> M B) :
  keeps f m -> (forall a, keeps f (k a)) -> keeps f (m ≫= k).
Proof.
  intros Hm Hk w. unfold mbind, M_bind, bind.
  specialize (Hm w). destruct (m w) as [[a | message] w1]; simpl in *.
  - rewrite Hk. exact Hm.
  - exact Hm.
Qed.

Lemma keeps_tryCatch {A : Type} (m : M A) (h : string -> M A) :
  keeps f m -> (forall message, keeps f (h message)) -> keeps f (tryCatch m h).
Proof.
  intros Hm Hh w. unfold tryCatch.
  specialize (Hm w). destruct (m w) as [[a | message] w1]; simpl in *.
  - exact Hm.
  - rewrite Hh. exact Hm.
Qed.

Lemma keeps_storeCall {A : Type} (op : StoreOp) (body : M A) :
  keeps f body -> keeps f (storeCall op body).
Proof.
  intros Hb w. unfold storeCall. destruct (storeFails w op); [reflexivity | apply Hb].
Qed.

Lemma keeps_mixinCall {A : Type} (c : MixinCall) (body : M A) :
  keeps f body -> keeps f (mixinCall c body).
Proof.
  intros Hb w. unfold mixinCall. destruct (mixinFails w c); [reflexivity | apply Hb].
Qed.

End Keeps.

Create HintDb keeps.

(** Decompose an action along its binds and branches; the leaves are closed
    by computation when the observed field is not the one they write. *)
Ltac keeps_step :=
  first
    [ solve [ auto 1 with keeps nocore ]
    | apply keeps_ret
    | apply keeps_throw
    | apply keeps_liftResult
    | apply keeps_bind; [ | intros ? ]
    | apply keeps_tryCatch; [ | intros ? ]
    | apply keeps_storeCall
    | apply keeps_mixinCall
    | match goal with
      | |- keeps _ (match ?x with _ => _ end) => destruct x
      | |- keeps _ (let '(_, _) := ?x in _) => destruct x
      end
    | (intros ?; reflexivity) ].

Ltac keeps_auto := repeat keeps_step.

Ltac unfold_mixin :=
  unfold refund, sendMixinTx, safeOutputs, ghostKey, verifyTransaction,
    sendTransactions, firstOutput, logger.

Lemma refund_keeps_strategyTables snapshot :
  keeps strategyTables (refund env snapshot).
Proof. unfold_mixin. keeps_auto. Qed.

Lemma refund_keeps_intakeState snapshot :
  keeps intakeState (refund env snapshot).
Proof. unfold_mixin. keeps_auto. Qed.

Lemma refund_keeps_surroundings snapshot :
  keeps surroundings (refund env snapshot).
Proof. unfold_mixin. keeps_auto. Qed.

#[local] Hint Resolve refund_keeps_strategyTables refund_keeps_intakeState
  refund_keeps_surroundings : keeps.

Ltac unfold_listener :=
  unfold listener, handleArbitrageCreate, handleMarketMakingCreate,
    findPaymentStateByIdRaw, resolvePair, getRFC3339Timestamp,
    createPaymentState, updatePaymentStateById, createArbitrage,
    createMarketMaking, logger.

Lemma listener_keeps_intakeState e : keeps intakeState (listener env e).
Proof.
  destruct e; unfold_listener; keeps_auto.
Qed.

Lemma listener_keeps_surroundings e : keeps surroundings (listener env e).
Proof.
  destruct e; unfold_listener; keeps_auto.
Qed.

Ltac unfold_intake :=
  unfold handleSnapshot, createSnapshot, dispatchMemo, emit,
    repo_checkSnapshotExist, repo_createSnapshot, logger.

Lemma handleSnapshot_keeps_strategyTables snapshot :
  keeps strategyTables (handleSnapshot env snapshot).
Proof. unfold_intake. keeps_auto. Qed.

Lemma handleSnapshot_keeps_surroundings snapshot :
  keeps surroundings (handleSnapshot env snapshot).
Proof. unfold_intake. keeps_auto. Qed.

Lemma handleSnapshot_keeps_ledger snapshot :
  keeps (fun w => (sentTransactions w, clock w)) (handleSnapshot env snapshot).
Proof. unfold_intake. keeps_auto. Qed.

(** ** One listener call, path by path *)

Lemma valid_test (a b t : string) :
  a = b ∨ a = t -> bool_decide (a ≠ b) && bool_decide (a ≠ t) = false.
Proof.
  intros [-> | ->].
  - rewrite bool_decide_eq_false_2; [reflexivity | intros H; apply H; reflexivity].
  - rewrite (bool_decide_eq_false_2 (t ≠ t)); [apply andb_false_r | intros H; apply H; reflexivity].
Qed.

Lemma foreign_test (a b t : string) :
  a ≠ b -> a ≠ t -> bool_decide (a ≠ b) && bool_decide (a ≠ t) = true.
Proof. intros Hb Ht. rewrite !bool_decide_eq_true_2; auto. Qed.

Lemma alter_found (f : PaymentState -> PaymentState) (i : string)
    (m : gmap string PaymentState) (x : PaymentState) :
  m !! i = Some x -> alter f i m = <[i := f x]> m.
Proof.
  intros Hx. apply map_eq. intros j.
  rewrite lookup_alter, lookup_insert.
  case_decide; subst; [rewrite Hx |]; reflexivity.
Qed.

Ltac unfold_monad :=
  unfold mbind, M_bind, bind, mret, M_ret, ret, throw, storeCall, mixinCall,
    liftResult, tryCatch.

Ltac run_listener :=
  unfold handleArbitrageCreate, handleMarketMakingCreate,
    findPaymentStateByIdRaw, resolvePair, getRFC3339Timestamp,
    createPaymentState, updatePaymentStateById, createArbitrage,
    createMarketMaking;
  unfold_monad; simpl.

Section ArbitrageSteps.

Variables (w : World) (details : ArbitrageMemoDetails) (snapshot : SafeSnapshot).
Variables (baseAssetID targetAssetID : string).
Hypothesis Hfind : storeFails w OpFindPaymentState = false.
Hypothesis Hpair :
  getAssetIDBySymbol env (arb_symbol details) = Some (baseAssetID, targetAssetID).

Lemma arbitrage_foreign :
  asset_id snapshot ≠ baseAssetID -> asset_id snapshot ≠ targetAssetID ->
  handleArbitrageCreate env (Some details) (Some snapshot) w = refund env snapshot w.
Proof.
  intros Hb Ht. run_listener. rewrite Hfind, Hpair. simpl.
  rewrite foreign_test by assumption. reflexivity.
Qed.

Lemma arbitrage_first_leg :
  asset_id snapshot = baseAssetID ∨ asset_id snapshot = targetAssetID ->
  paymentStates w !! arb_traceId details = None ->
  storeFails w OpCreatePaymentState = false ->
  handleArbitrageCreate env (Some details) (Some snapshot) w =
  (Returned tt,
   set_paymentStates
     (<[arb_traceId details :=
          firstLeg "arbitrage" (arb_traceId details) (arb_symbol details)
            snapshot (clock w)]> (paymentStates w))
     (set_clock (S (clock w)) w)).
Proof.
  intros Hv Hnone Hcreate. run_listener. rewrite Hfind, Hpair. simpl.
  rewrite valid_test by assumption. rewrite Hnone. simpl.
  rewrite Hcreate. reflexivity.
Qed.

Lemma arbitrage_second_leg paymentState :
  asset_id snapshot = baseAssetID ∨ asset_id snapshot = targetAssetID ->
  paymentStates w !! arb_traceId details = Some paymentState ->
  truthy (secondAssetId paymentState) = false ->
  storeFails w OpUpdatePaymentState = false ->
  storeFails w OpCreateArbitrage = false ->
  handleArbitrageCreate env (Some details) (Some snapshot) w =
  (Returned tt,
   set_arbitrageOrders
     (arbitrageOrders w ++
      [{| ao_orderId := arb_traceId details;
          ao_userId := opponent_id snapshot;
          ao_pair := arb_symbol details;
          ao_amountToTrade := "1";
          ao_minProfitability := "0.01";
          ao_exchangeAName := exchangeAName details;
          ao_exchangeBName := exchangeBName details;
          ao_balanceA := firstAssetAmount paymentState;
          ao_balanceB := amount snapshot;
          ao_state := "created";
          ao_createdAt := S (clock w) |}])
     (set_paymentStates
        (<[arb_traceId details :=
             applyLeg2 (secondLeg snapshot (clock w)) paymentState]>
           (paymentStates w))
        (set_clock (S (S (clock w))) w))).
Proof.
  intros Hv Hsome Hunset Hupdate Hcreate. run_listener. rewrite Hfind, Hpair. simpl.
  rewrite valid_test by assumption. rewrite Hsome, Hunset. simpl.
  rewrite Hupdate. simpl. rewrite Hcreate.
  rewrite (alter_found _ _ _ _ Hsome). reflexivity.
Qed.

Lemma arbitrage_complete paymentState :
  asset_id snapshot = baseAssetID ∨ asset_id snapshot = targetAssetID ->
  paymentStates w !! arb_traceId details = Some paymentState ->
  truthy (secondAssetId paymentState) = true ->
  handleArbitrageCreate env (Some details) (Some snapshot) w = (Returned tt, w).
Proof.
  intros Hv Hsome Hset. run_listener. rewrite Hfind, Hpair. simpl.
  rewrite valid_test by assumption. rewrite Hsome, Hset. reflexivity.
Qed.

End ArbitrageSteps.

Section MarketMakingSteps.

Variables (w : World) (details : MarketMakingMemoDetails) (snapshot : SafeSnapshot).
Variables (baseAssetID targetAssetID : string).
Hypothesis Hfind : storeFails w OpFindPaymentState = false.
Hypothesis Hpair :
  getAssetIDBySymbol env (mm_symbol details) = Some (baseAssetID, targetAssetID).

Lemma market_making_foreign :
  asset_id snapshot ≠ baseAssetID -> asset_id snapshot ≠ targetAssetID ->
  handleMarketMakingCreate env (Some details) (Some snapshot) w = refund env snapshot w.
Proof.
  intros Hb Ht. run_listener. rewrite Hfind, Hpair. simpl.
  rewrite foreign_test by assumption. reflexivity.
Qed.

Lemma market_making_first_leg :
  asset_id snapshot = baseAssetID ∨ asset_id snapshot = targetAssetID ->
  paymentStates w !! mm_traceId details = None ->
  storeFails w OpCreatePaymentState = false ->
  handleMarketMakingCreate env (Some details) (Some snapshot) w =
  (Returned tt,
   set_paymentStates
     (<[mm_traceId details :=
          firstLeg "market_making" (mm_traceId details) (mm_symbol details)
            snapshot (clock w)]> (paymentStates w))
     (set_clock (S (clock w)) w)).
Proof.
  intros Hv Hnone Hcreate. run_listener. rewrite Hfind, Hpair. simpl.
  rewrite valid_test by assumption. rewrite Hnone. simpl.
  rewrite Hcreate. reflexivity.
Qed.

Lemma market_making_second_leg paymentState :
  asset_id snapshot = baseAssetID ∨ asset_id snapshot = targetAssetID ->
  paymentStates w !! mm_traceId details = Some paymentState ->
  truthy (secondAssetId paymentState) = false ->
  storeFails w OpUpdatePaymentState = false ->
  storeFails w OpCreateMarketMaking = false ->
  handleMarketMakingCreate env (Some details) (Some snapshot) w =
  (Returned tt,
   set_marketMakingOrders
     (marketMakingOrders w ++
      [{| mo_orderId := mm_traceId details;
          mo_userId := opponent_id snapshot;
          mo_pair := mm_symbol details;
          mo_state := "created";
          mo_exchangeName := exchangeName details;
          mo_bidSpread := "0.1";
          mo_askSpread := "0.1";
          mo_orderAmount := "1";
          mo_orderRefreshTime := "15000";
          mo_numberOfLayers := "1";
          mo_priceSourceType := MID_PRICE;
          mo_amountChangePerLayer := "1";
          mo_amountChangeType := "percentage";
          mo_ceilingPrice := "0";
          mo_floorPrice := "0";
          mo_balanceA := firstAssetAmount paymentState;
          mo_balanceB := amount snapshot;
          mo_createdAt := S (clock w) |}])
     (set_paymentStates
        (<[mm_traceId details :=
             applyLeg2 (secondLeg snapshot (clock w)) paymentState]>
           (paymentStates w))
        (set_clock (S (S (clock w))) w))).
Proof.
  intros Hv Hsome Hunset Hupdate Hcreate. run_listener. rewrite Hfind, Hpair. simpl.
  rewrite valid_test by assumption. rewrite Hsome, Hunset. simpl.
  rewrite Hupdate. simpl. rewrite Hcreate.
  rewrite (alter_found _ _ _ _ Hsome). reflexivity.
Qed.

Lemma market_making_complete paymentState :
  asset_id snapshot = baseAssetID ∨ asset_id snapshot = targetAssetID ->
  paymentStates w !! mm_traceId details = Some paymentState ->
  truthy (secondAssetId paymentState) = true ->
  handleMarketMakingCreate env (Some details) (Some snapshot) w = (Returned tt, w).
Proof.
  intros Hv Hsome Hset. run_listener. rewrite Hfind, Hpair. simpl.
  rewrite valid_test by assumption. rewrite Hsome, Hset. reflexivity.
Qed.

End MarketMakingSteps.

(** ** Every path of a listener is one of the three table moves *)

Lemma arbitrage_legStep (w : World) details snapshot :
  legStep (arb_traceId details) snapshot w
    (handleArbitrageCreate env (Some details) (Some snapshot) w).2.
Proof.
  run_listener.
  destruct (storeFails w OpFindPaymentState); [left; reflexivity |].
  destruct (getAssetIDBySymbol env (arb_symbol details)) as [[b t] |];
    simpl; [| left; reflexivity].
  destruct (bool_decide (asset_id snapshot ≠ b) && bool_decide (asset_id snapshot ≠ t)).
  { left. apply refund_keeps_strategyTables. }
  destruct (paymentStates w !! arb_traceId details) as [ps |] eqn:Hps; simpl.
  - destruct (truthy (secondAssetId ps)) eqn:Hset; simpl; [left; reflexivity |].
    destruct (storeFails w OpUpdatePaymentState); [left; reflexivity |]. simpl.
    right; right. exists ps, (clock w).
    rewrite (alter_found _ _ _ _ Hps).
    destruct (storeFails w OpCreateArbitrage); simpl.
    + repeat split; auto.
    + repeat split; auto. right; left. eexists. repeat split; reflexivity.
  - destruct (storeFails w OpCreatePaymentState); [left; reflexivity |]. simpl.
    right; left. repeat split; auto. eexists. split; [| reflexivity]. reflexivity.
Qed.

Lemma market_making_legStep (w : World) details snapshot :
  legStep (mm_traceId details) snapshot w
    (handleMarketMakingCreate env (Some details) (Some snapshot) w).2.
Proof.
  run_listener.
  destruct (storeFails w OpFindPaymentState); [left; reflexivity |].
  destruct (getAssetIDBySymbol env (mm_symbol details)) as [[b t] |];
    simpl; [| left; reflexivity].
  destruct (bool_decide (asset_id snapshot ≠ b) && bool_decide (asset_id snapshot ≠ t)).
  { left. apply refund_keeps_strategyTables. }
  destruct (paymentStates w !! mm_traceId details) as [ps |] eqn:Hps; simpl.
  - destruct (truthy (secondAssetId ps)) eqn:Hset; simpl; [left; reflexivity |].
    destruct (storeFails w OpUpdatePaymentState); [left; reflexivity |]. simpl.
    right; right. exists ps, (clock w).
    rewrite (alter_found _ _ _ _ Hps).
    destruct (storeFails w OpCreateMarketMaking); simpl.
    + repeat split; auto.
    + repeat split; auto. right; right. eexists. repeat split; reflexivity.
  - destruct (storeFails w OpCreatePaymentState); [left; reflexivity |]. simpl.
    right; left. repeat split; auto. eexists. split; [| reflexivity]. reflexivity.
Qed.

(** ** The invariant *)

Lemma ordersFor_tables (w w' : World) trace :
  arbitrageOrders w' = arbitrageOrders w ->
  marketMakingOrders w' = marketMakingOrders w ->
  ordersFor trace w' = ordersFor trace w.
Proof. intros Ha Hm. unfold ordersFor. rewrite Ha, Hm. reflexivity. Qed.

Lemma ordersFor_arbitrage (w w' : World) trace o :
  arbitrageOrders w' = arbitrageOrders w ++ [o] ->
  marketMakingOrders w' = marketMakingOrders w ->
  ordersFor trace w' =
  ordersFor trace w + (if string_dec (ao_orderId o) trace then 1 else 0).
Proof.
  intros Ha Hm. unfold ordersFor. rewrite Ha, Hm.
  rewrite map_app, count_occ_app. simpl.
  destruct (string_dec (ao_orderId o) trace); lia.
Qed.

Lemma ordersFor_market_making (w w' : World) trace o :
  marketMakingOrders w' = marketMakingOrders w ++ [o] ->
  arbitrageOrders w' = arbitrageOrders w ->
  ordersFor trace w' =
  ordersFor trace w + (if string_dec (mo_orderId o) trace then 1 else 0).
Proof.
  intros Hm Ha. unfold ordersFor. rewrite Ha, Hm.
  rewrite map_app, count_occ_app. simpl.
  destruct (string_dec (mo_orderId o) trace); lia.
Qed.

Lemma truthy_named (snapshot : SafeSnapshot) :
  namedAsset snapshot -> truthy (Some (asset_id snapshot)) = true.
Proof.
  intros Hn. simpl. rewrite bool_decide_eq_false_2; [reflexivity | exact Hn].
Qed.

Lemma reconciled_unset (w : World) trace ps :
  reconciled w -> paymentStates w !! trace = Some ps ->
  truthy (secondAssetId ps) = false -> ordersFor trace w = 0.
Proof.
  intros Hr Hps Hunset. destruct (Hr trace) as [H0 | [_ [ps' [Hps' Hset]]]]; [exact H0 |].
  rewrite Hps in Hps'. injection Hps' as <-. congruence.
Qed.

Lemma reconciled_absent (w : World) trace :
  reconciled w -> paymentStates w !! trace = None -> ordersFor trace w = 0.
Proof.
  intros Hr Hps. destruct (Hr trace) as [H0 | [_ [ps' [Hps' _]]]]; [exact H0 |].
  congruence.
Qed.

Lemma legStep_reconciled (w w' : World) trace snapshot :
  reconciled w -> namedAsset snapshot -> legStep trace snapshot w w' ->
  reconciled w'.
Proof.
  intros Hr Hn [Hsame | [Hfirst | Hsecond]] other.
  - injection Hsame as Hp Ha Hm.
    rewrite (ordersFor_tables w w' other Ha Hm), Hp. apply Hr.
  - destruct Hfirst as (Hnone & (ps & Hps & Hp) & Ha & Hm).
    rewrite (ordersFor_tables w w' other Ha Hm), Hp.
    destruct (Hr other) as [H0 | [H1 [ps' [Hps' Hset]]]]; [left; exact H0 |].
    right. split; [exact H1 |]. exists ps'. split; [| exact Hset].
    rewrite lookup_insert_ne; [exact Hps' | congruence].
  - destruct Hsecond as (ps & now & Hps & Hunset & Hp & Horders).
    pose proof (reconciled_unset w trace ps Hr Hps Hunset) as Hzero.
    assert (Hfilled : paymentStates w' !! trace =
                      Some (applyLeg2 (secondLeg snapshot now) ps))
      by (rewrite Hp; apply lookup_insert_eq).
    assert (Hkept : other ≠ trace ->
                    paymentStates w' !! other = paymentStates w !! other)
      by (intros Hne; rewrite Hp; apply lookup_insert_ne; congruence).
    assert (Hcase : ordersFor other w' = ordersFor other w
                    ∨ (other = trace ∧ ordersFor other w' = 1)).
    { destruct Horders as [[Ha Hm] | [(o & Ho & Ha & Hm) | (o & Ho & Hm & Ha)]].
      - left. apply ordersFor_tables; assumption.
      - rewrite (ordersFor_arbitrage w w' other o Ha Hm).
        destruct (string_dec (ao_orderId o) other) as [He | Hne].
        + right. subst. split; [reflexivity |]. rewrite Hzero. reflexivity.
        + left. lia.
      - rewrite (ordersFor_market_making w w' other o Hm Ha).
        destruct (string_dec (mo_orderId o) other) as [He | Hne].
        + right. subst. split; [reflexivity |]. rewrite Hzero. reflexivity.
        + left. lia. }
    destruct Hcase as [Heq | [-> Hone]].
    + rewrite Heq.
      destruct (decide (other = trace)) as [-> | Hne].
      * left. exact Hzero.
      * rewrite (Hkept Hne). apply Hr.
    + right. split; [exact Hone |].
      eexists. split; [exact Hfilled |]. apply truthy_named, Hn.
Qed.

Lemma listener_reconciled (w : World) e :
  reconciled w -> namedAsset (snapshotOf e) -> reconciled (deliver env e w).
Proof.
  intros Hr Hn. destruct e as [d s | d s | d s]; unfold deliver; simpl.
  - exact Hr.
  - eapply legStep_reconciled; [exact Hr | exact Hn | apply arbitrage_legStep].
  - eapply legStep_reconciled; [exact Hr | exact Hn | apply market_making_legStep].
Qed.

Lemma reconciled_tables (w w' : World) :
  strategyTables w' = strategyTables w -> reconciled w -> reconciled w'.
Proof.
  intros Hsame Hr trace. injection Hsame as Hp Ha Hm.
  rewrite (ordersFor_tables w w' trace Ha Hm), Hp. apply Hr.
Qed.

Lemma handleSnapshot_emitted (w : World) snapshot :
  emitted (handleSnapshot env snapshot w).2 = emitted w
  ∨ ∃ e, snapshotOf e = snapshot
         ∧ emitted (handleSnapshot env snapshot w).2 = emitted w ++ [e].
Proof.
  unfold_intake. unfold_monad. simpl.
  destruct (storeFails w OpCheckSnapshotExist); [left; reflexivity |].
  destruct (existsb _ _); [left; reflexivity |].
  destruct (negb (truthy (memo snapshot))).
  { simpl. destruct (storeFails w OpCreateSnapshot); left; reflexivity. }
  destruct (String.length _ =? 0)%nat.
  { simpl. destruct (storeFails w OpCreateSnapshot); left; reflexivity. }
  repeat case_bool_decide;
    repeat match goal with
           | |- context [match ?d with Some _ => _ | None => _ end] => destruct d
           end;
    simpl; destruct (storeFails w OpCreateSnapshot); simpl;
    first [ left; reflexivity | right; eexists; split; [| reflexivity]; reflexivity ].
Qed.

(** What every reachable world satisfies. *)
Lemma step_invariant (st : Step) (w : World) :
  stepNamed st ->
  reconciled w ∧ Forall (fun e => namedAsset (snapshotOf e)) (emitted w) ->
  reconciled (step env st w)
  ∧ Forall (fun e => namedAsset (snapshotOf e)) (emitted (step env st w)).
Proof.
  intros Hst [Hr Hq]. destruct st as [snapshot | | sf mf outputs]; simpl.
  - split.
    + eapply reconciled_tables; [apply handleSnapshot_keeps_strategyTables | exact Hr].
    + destruct (handleSnapshot_emitted w snapshot) as [-> | (e & He & ->)];
        [exact Hq |].
      apply Forall_app. split; [exact Hq |].
      constructor; [rewrite He; exact Hst | constructor].
  - destruct (emitted w) as [| e rest] eqn:Hem; [split; [exact Hr | rewrite Hem; exact Hq] |].
    inversion Hq as [| ? ? He Hrest]; subst.
    split.
    + apply listener_reconciled; [| exact He].
      eapply reconciled_tables; [| exact Hr]. reflexivity.
    + pose proof (listener_keeps_intakeState e (set_emitted rest w)) as Hk.
      unfold deliver. injection Hk as _ Hk. rewrite Hk. exact Hrest.
  - split; [eapply reconciled_tables; [| exact Hr]; reflexivity | exact Hq].
Qed.

Lemma run_invariant (steps : list Step) (w : World) :
  Forall stepNamed steps ->
  reconciled w ∧ Forall (fun e => namedAsset (snapshotOf e)) (emitted w) ->
  reconciled (run env steps w)
  ∧ Forall (fun e => namedAsset (snapshotOf e)) (emitted (run env steps w)).
Proof.
  revert w. induction steps as [| st steps IH]; intros w Hs Hinv; [exact Hinv |].
  inversion Hs as [| ? ? Hst Hrest]; subst. simpl.
  apply IH; [exact Hrest |]. apply step_invariant; assumption.
Qed.

Lemma reconciled_at_most_one (w : World) trace :
  reconciled w -> ordersFor trace w <= 1.
Proof. intros Hr. destruct (Hr trace) as [-> | [-> _]]; lia. Qed.

(** ** Two legs in a row *)

Lemma arbitrage_two_legs (w : World) d1 d2 x y :
  storeHealthy w ->
  arb_traceId d1 = arb_traceId d2 ->
  validAsset env (arb_symbol d1) x -> validAsset env (arb_symbol d2) y ->
  paymentStates w !! arb_traceId d1 = None ->
  ∃ o ps,
    arbitrageOrders (arbitrageThen env d1 x d2 y w) = arbitrageOrders w ++ [o]
    ∧ marketMakingOrders (arbitrageThen env d1 x d2 y w) = marketMakingOrders w
    ∧ ao_orderId o = arb_traceId d1
    ∧ ao_balanceA o = amount x ∧ ao_balanceB o = amount y
    ∧ paymentStates (arbitrageThen env d1 x d2 y w) !! arb_traceId d1 = Some ps
    ∧ firstAssetId ps = asset_id x ∧ firstAssetAmount ps = amount x
    ∧ secondAssetId ps = Some (asset_id y)
    ∧ secondAssetAmount ps = Some (amount y).
Proof.
  intros Hh Ht (b1 & t1 & Hp1 & Hv1) (b2 & t2 & Hp2 & Hv2) Hnone.
  unfold arbitrageThen.
  rewrite (arbitrage_first_leg w d1 x b1 t1 (Hh _) Hp1 Hv1 Hnone (Hh _)).
  cbn [snd].
  match goal with |- context [handleArbitrageCreate _ _ _ ?w1] =>
    rewrite (arbitrage_second_leg w1 d2 y b2 t2 (Hh _) Hp2
               (firstLeg "arbitrage" (arb_traceId d1) (arb_symbol d1) x (clock w))
               Hv2 ltac:(simpl; rewrite <- Ht; apply lookup_insert_eq)
               eq_refl (Hh _) (Hh _))
  end.
  simpl. do 2 eexists. split; [reflexivity |].
  split; [reflexivity |]. split; [symmetry; exact Ht |].
  split; [reflexivity |]. split; [reflexivity |].
  split; [rewrite <- Ht, insert_insert_eq; apply lookup_insert_eq |].
  repeat split; reflexivity.
Qed.

Lemma market_making_two_legs (w : World) d1 d2 x y :
  storeHealthy w ->
  mm_traceId d1 = mm_traceId d2 ->
  validAsset env (mm_symbol d1) x -> validAsset env (mm_symbol d2) y ->
  paymentStates w !! mm_traceId d1 = None ->
  ∃ o ps,
    marketMakingOrders (marketMakingThen env d1 x d2 y w) = marketMakingOrders w ++ [o]
    ∧ arbitrageOrders (marketMakingThen env d1 x d2 y w) = arbitrageOrders w
    ∧ mo_orderId o = mm_traceId d1
    ∧ mo_balanceA o = amount x ∧ mo_balanceB o = amount y
    ∧ paymentStates (marketMakingThen env d1 x d2 y w) !! mm_traceId d1 = Some ps
    ∧ firstAssetId ps = asset_id x ∧ firstAssetAmount ps = amount x
    ∧ secondAssetId ps = Some (asset_id y)
    ∧ secondAssetAmount ps = Some (amount y).
Proof.
  intros Hh Ht (b1 & t1 & Hp1 & Hv1) (b2 & t2 & Hp2 & Hv2) Hnone.
  unfold marketMakingThen.
  rewrite (market_making_first_leg w d1 x b1 t1 (Hh _) Hp1 Hv1 Hnone (Hh _)).
  cbn [snd].
  match goal with |- context [handleMarketMakingCreate _ _ _ ?w1] =>
    rewrite (market_making_second_leg w1 d2 y b2 t2 (Hh _) Hp2
               (firstLeg "market_making" (mm_traceId d1) (mm_symbol d1) x (clock w))
               Hv2 ltac:(simpl; rewrite <- Ht; apply lookup_insert_eq)
               eq_refl (Hh _) (Hh _))
  end.
  simpl. do 2 eexists. split; [reflexivity |].
  split; [reflexivity |]. split; [symmetry; exact Ht |].
  split; [reflexivity |]. split; [reflexivity |].
  split; [rewrite <- Ht, insert_insert_eq; apply lookup_insert_eq |].
  repeat split; reflexivity.
Qed.

(** ** The reconciliation state machine *)

(** C2 (as amended).  A valid transfer (its asset is one side of the
    instruction's pair) with trace id T, the store answering.  When T has no
    payment state, the listener records one: order id T, the listener's
    type, the instruction's symbol, first asset, first amount and first
    snapshot id from the transfer, no second leg, and both timestamps equal
    to the clock reading at that moment (the transfer's [created_at] is not
    read); no order is created.  When T has a payment state without second
    asset, the listener keeps its first-leg fields and creation time, sets
    second asset, second amount and second snapshot id from the transfer and
    the update time from the clock, and appends one order of its own kind
    for T: state 'created', the transfer's sender, balanceA the recorded
    first amount, balanceB the transfer's amount. *)
Theorem leg_transitions (w : World) (snapshot : SafeSnapshot) :
  storeHealthy w ->
  let firstLegRecorded (kind trace sym : string) (w' : World) : Prop :=
    (∃ ps',
        paymentStates w' = <[trace := ps']> (paymentStates w)
        ∧ orderId ps' = trace ∧ type ps' = kind ∧ symbol ps' = sym
        ∧ firstAssetId ps' = asset_id snapshot
        ∧ firstAssetAmount ps' = amount snapshot
        ∧ firstSnapshotId ps' = snapshot_id snapshot
        ∧ createdAt ps' = clock w ∧ updatedAt ps' = clock w
        ∧ secondAssetId ps' = None ∧ secondAssetAmount ps' = None
        ∧ secondSnapshotId ps' = None)
    ∧ arbitrageOrders w' = arbitrageOrders w
    ∧ marketMakingOrders w' = marketMakingOrders w in
  let secondLegFilled (trace : string) (ps : PaymentState) (w' : World) : Prop :=
    ∃ ps',
      paymentStates w' = <[trace := ps']> (paymentStates w)
      ∧ orderId ps' = orderId ps ∧ type ps' = type ps ∧ symbol ps' = symbol ps
      ∧ firstAssetId ps' = firstAssetId ps
      ∧ firstAssetAmount ps' = firstAssetAmount ps
      ∧ firstSnapshotId ps' = firstSnapshotId ps
      ∧ createdAt ps' = createdAt ps
      ∧ secondAssetId ps' = Some (asset_id snapshot)
      ∧ secondAssetAmount ps' = Some (amount snapshot)
      ∧ secondSnapshotId ps' = Some (snapshot_id snapshot)
      ∧ updatedAt ps' = clock w in
  (∀ details,
      validAsset env (arb_symbol details) snapshot ->
      let r := handleArbitrageCreate env (Some details) (Some snapshot) w in
      (paymentStates w !! arb_traceId details = None ->
       r.1 = Returned tt
       ∧ firstLegRecorded "arbitrage" (arb_traceId details) (arb_symbol details) r.2)
      ∧ (∀ ps,
            paymentStates w !! arb_traceId details = Some ps ->
            truthy (secondAssetId ps) = false ->
            r.1 = Returned tt
            ∧ secondLegFilled (arb_traceId details) ps r.2
            ∧ marketMakingOrders r.2 = marketMakingOrders w
            ∧ ∃ o, arbitrageOrders r.2 = arbitrageOrders w ++ [o]
                   ∧ ao_orderId o = arb_traceId details
                   ∧ ao_userId o = opponent_id snapshot
                   ∧ ao_pair o = arb_symbol details
                   ∧ ao_state o = "created"
                   ∧ ao_balanceA o = firstAssetAmount ps
                   ∧ ao_balanceB o = amount snapshot))
  ∧ (∀ details,
        validAsset env (mm_symbol details) snapshot ->
        let r := handleMarketMakingCreate env (Some details) (Some snapshot) w in
        (paymentStates w !! mm_traceId details = None ->
         r.1 = Returned tt
         ∧ firstLegRecorded "market_making" (mm_traceId details) (mm_symbol details) r.2)
        ∧ (∀ ps,
              paymentStates w !! mm_traceId details = Some ps ->
              truthy (secondAssetId ps) = false ->
              r.1 = Returned tt
              ∧ secondLegFilled (mm_traceId details) ps r.2
              ∧ arbitrageOrders r.2 = arbitrageOrders w
              ∧ ∃ o, marketMakingOrders r.2 = marketMakingOrders w ++ [o]
                     ∧ mo_orderId o = mm_traceId details
                     ∧ mo_userId o = opponent_id snapshot
                     ∧ mo_pair o = mm_symbol details
                     ∧ mo_state o = "created"
                     ∧ mo_balanceA o = firstAssetAmount ps
                     ∧ mo_balanceB o = amount snapshot)).
Proof.
  intros Hh firstLegRecorded secondLegFilled.
  split; intros details (b & t & Hp & Hv) r; subst r; split.
  - intros Hnone.
    rewrite (arbitrage_first_leg w details snapshot b t (Hh _) Hp Hv Hnone (Hh _)).
    split; [reflexivity |]. split; [| split; reflexivity].
    eexists. split; [reflexivity |]. repeat split; reflexivity.
  - intros ps Hps Hunset.
    rewrite (arbitrage_second_leg w details snapshot b t (Hh _) Hp ps Hv Hps Hunset
               (Hh _) (Hh _)).
    split; [reflexivity |]. split; [| split; [reflexivity |]].
    + eexists. split; [reflexivity |]. repeat split; reflexivity.
    + eexists. repeat split; reflexivity.
  - intros Hnone.
    rewrite (market_making_first_leg w details snapshot b t (Hh _) Hp Hv Hnone (Hh _)).
    split; [reflexivity |]. split; [| split; reflexivity].
    eexists. split; [reflexivity |]. repeat split; reflexivity.
  - intros ps Hps Hunset.
    rewrite (market_making_second_leg w details snapshot b t (Hh _) Hp ps Hv Hps Hunset
               (Hh _) (Hh _)).
    split; [reflexivity |]. split; [| split; [reflexivity |]].
    + eexists. split; [reflexivity |]. repeat split; reflexivity.
    + eexists. repeat split; reflexivity.
Qed.

(** C6.  Two valid transfers with the same trace id, one in the base asset
    and one in the target asset of the pair, handled one after the other from
    a state without payment state for the trace id: whichever is handled
    first, the single order created has balanceA equal to the amount of the
    transfer recorded first (the payment state's firstAssetAmount) and
    balanceB equal to the amount of the transfer recorded second. *)
Theorem balances_follow_recording_order
    (w : World) (a b : SafeSnapshot) (baseAssetID targetAssetID : string) :
  storeHealthy w ->
  asset_id a = baseAssetID -> asset_id b = targetAssetID ->
  (∀ da db,
      arb_traceId da = arb_traceId db -> arb_symbol da = arb_symbol db ->
      getAssetIDBySymbol env (arb_symbol da) = Some (baseAssetID, targetAssetID) ->
      paymentStates w !! arb_traceId da = None ->
      (∃ o ps,
          arbitrageOrders (arbitrageThen env da a db b w) = arbitrageOrders w ++ [o]
          ∧ paymentStates (arbitrageThen env da a db b w) !! arb_traceId da = Some ps
          ∧ firstAssetAmount ps = amount a
          ∧ ao_balanceA o = amount a ∧ ao_balanceB o = amount b)
      ∧ (∃ o ps,
            arbitrageOrders (arbitrageThen env db b da a w) = arbitrageOrders w ++ [o]
            ∧ paymentStates (arbitrageThen env db b da a w) !! arb_traceId da = Some ps
            ∧ firstAssetAmount ps = amount b
            ∧ ao_balanceA o = amount b ∧ ao_balanceB o = amount a))
  ∧ (∀ da db,
        mm_traceId da = mm_traceId db -> mm_symbol da = mm_symbol db ->
        getAssetIDBySymbol env (mm_symbol da) = Some (baseAssetID, targetAssetID) ->
        paymentStates w !! mm_traceId da = None ->
        (∃ o ps,
            marketMakingOrders (marketMakingThen env da a db b w) =
              marketMakingOrders w ++ [o]
            ∧ paymentStates (marketMakingThen env da a db b w) !! mm_traceId da = Some ps
            ∧ firstAssetAmount ps = amount a
            ∧ mo_balanceA o = amount a ∧ mo_balanceB o = amount b)
        ∧ (∃ o ps,
              marketMakingOrders (marketMakingThen env db b da a w) =
                marketMakingOrders w ++ [o]
              ∧ paymentStates (marketMakingThen env db b da a w) !! mm_traceId da = Some ps
              ∧ firstAssetAmount ps = amount b
              ∧ mo_balanceA o = amount b ∧ mo_balanceB o = amount a)).
Proof.
  intros Hh Ha Hb. split; intros da db Ht Hs Hp Hnone.
  - assert (Hva : validAsset env (arb_symbol da) a)
      by (exists baseAssetID, targetAssetID; auto).
    assert (Hvb : validAsset env (arb_symbol db) b)
      by (rewrite <- Hs; exists baseAssetID, targetAssetID; auto).
    split.
    + destruct (arbitrage_two_legs w da db a b Hh Ht Hva Hvb Hnone)
        as (o & ps & Ho & _ & _ & HA & HB & Hps & _ & Hamt & _).
      exists o, ps. auto.
    + assert (Hnone' : paymentStates w !! arb_traceId db = None)
        by (rewrite <- Ht; exact Hnone).
      destruct (arbitrage_two_legs w db da b a Hh (eq_sym Ht) Hvb Hva Hnone')
        as (o & ps & Ho & _ & _ & HA & HB & Hps & _ & Hamt & _).
      exists o, ps. rewrite Ht. auto.
  - assert (Hva : validAsset env (mm_symbol da) a)
      by (exists baseAssetID, targetAssetID; auto).
    assert (Hvb : validAsset env (mm_symbol db) b)
      by (rewrite <- Hs; exists baseAssetID, targetAssetID; auto).
    split.
    + destruct (market_making_two_legs w da db a b Hh Ht Hva Hvb Hnone)
        as (o & ps & Ho & _ & _ & HA & HB & Hps & _ & Hamt & _).
      exists o, ps. auto.
    + assert (Hnone' : paymentStates w !! mm_traceId db = None)
        by (rewrite <- Ht; exact Hnone).
      destruct (market_making_two_legs w db da b a Hh (eq_sym Ht) Hvb Hva Hnone')
        as (o & ps & Ho & _ & _ & HA & HB & Hps & _ & Hamt & _).
      exists o, ps. rewrite Ht. auto.
Qed.

(** C10.  The listeners compare the transfer's asset with the two sides of
    the pair only, never with the first leg: for a payment state awaiting
    its second leg, a valid transfer in the very asset of the first leg
    fills the second leg with that same asset and creates an order whose
    balanceA is the first amount and balanceB the transfer's amount. *)
Theorem same_asset_fills_second_leg
    (w : World) (snapshot : SafeSnapshot) (ps : PaymentState) :
  storeHealthy w ->
  truthy (secondAssetId ps) = false ->
  asset_id snapshot = firstAssetId ps ->
  (∀ details,
      validAsset env (arb_symbol details) snapshot ->
      paymentStates w !! arb_traceId details = Some ps ->
      let w' := (handleArbitrageCreate env (Some details) (Some snapshot) w).2 in
      ∃ ps' o,
        paymentStates w' !! arb_traceId details = Some ps'
        ∧ firstAssetId ps' = firstAssetId ps
        ∧ secondAssetId ps' = Some (firstAssetId ps)
        ∧ arbitrageOrders w' = arbitrageOrders w ++ [o]
        ∧ ao_orderId o = arb_traceId details
        ∧ ao_balanceA o = firstAssetAmount ps
        ∧ ao_balanceB o = amount snapshot)
  ∧ (∀ details,
        validAsset env (mm_symbol details) snapshot ->
        paymentStates w !! mm_traceId details = Some ps ->
        let w' := (handleMarketMakingCreate env (Some details) (Some snapshot) w).2 in
        ∃ ps' o,
          paymentStates w' !! mm_traceId details = Some ps'
          ∧ firstAssetId ps' = firstAssetId ps
          ∧ secondAssetId ps' = Some (firstAssetId ps)
          ∧ marketMakingOrders w' = marketMakingOrders w ++ [o]
          ∧ mo_orderId o = mm_traceId details
          ∧ mo_balanceA o = firstAssetAmount ps
          ∧ mo_balanceB o = amount snapshot).
Proof.
  intros Hh Hunset Hsame. split; intros details (b & t & Hp & Hv) Hps w'; subst w'.
  - rewrite (arbitrage_second_leg w details snapshot b t (Hh _) Hp ps Hv Hps Hunset
               (Hh _) (Hh _)).
    simpl. do 2 eexists. split; [apply lookup_insert_eq |].
    simpl. rewrite Hsame. repeat split; reflexivity.
  - rewrite (market_making_second_leg w details snapshot b t (Hh _) Hp ps Hv Hps Hunset
               (Hh _) (Hh _)).
    simpl. do 2 eexists. split; [apply lookup_insert_eq |].
    simpl. rewrite Hsame. repeat split; reflexivity.
Qed.

(** ** Refunds *)

Lemma sendMixinTx_insufficient (w : World) opponent asset amt :
  mixinFails w CallSafeOutputs = false ->
  isLessThan (unspentBalance env asset w) (BigNumber env amt) = true ->
  sendMixinTx env opponent asset amt w =
  (Returned None, set_logs (logs w ++ [(LogError, "Insufficient fund")]) w).
Proof.
  intros Hcall Hless. unfold sendMixinTx, safeOutputs. unfold_monad.
  rewrite Hcall. unfold unspentBalance in Hless. rewrite Hless. reflexivity.
Qed.

Lemma refund_returns (w : World) snapshot : (refund env snapshot w).1 = Returned tt.
Proof.
  unfold refund, tryCatch.
  match goal with
  | |- context [match ?x with _ => _ end] => destruct x as [[[] | message] w1]
  end; reflexivity.
Qed.

(** The ghost-key requests are never built: the element read on a recipient
    gives [undefined]. *)
Lemma ghostKeyRequests_throws r rest i :
  ghostKeyRequests (r :: rest) i =
  Thrown "Cannot read properties of undefined (reading 'members')".
Proof. reflexivity. Qed.

(** Hence [sendMixinTx] as written never reaches [sendTransactions]. *)
Lemma sendMixinTx_keeps_sentTransactions opponent asset amt :
  keeps sentTransactions (sendMixinTx env opponent asset amt).
Proof.
  intros w. unfold sendMixinTx, safeOutputs, firstOutput, logger. unfold_monad.
  destruct (mixinFails w CallSafeOutputs); [reflexivity |].
  destruct (isLessThan _ _); [reflexivity |].
  destruct (getUnspentOutputsForRecipients _ _ _) as [[utxos change] | message];
    [| reflexivity].
  destruct (negb (isZero change) && negb (isNegative change)); [| reflexivity].
  destruct (filter _ _); reflexivity.
Qed.

Lemma refund_insufficient (w : World) snapshot :
  mixinFails w CallSafeOutputs = false ->
  isLessThan (unspentBalance env (asset_id snapshot) w)
             (BigNumber env (amount snapshot)) = true ->
  refund env snapshot w =
  (Returned tt, set_logs (logs w ++ [(LogError, "Insufficient fund")]) w).
Proof.
  intros Hcall Hless. unfold refund, tryCatch. unfold mbind at 1. unfold M_bind, bind.
  rewrite (sendMixinTx_insufficient w _ _ _ Hcall Hless). reflexivity.
Qed.

(** C9.  When the amount to refund exceeds the bot's unspent balance of the
    asset, [sendMixinTx] returns [undefined] without raising and without
    submitting a transaction; the only trace is the error log line
    'Insufficient fund'.  [refund] then returns as it always does: whatever
    happened inside, its caller gets the same result. *)
Theorem insufficient_balance_is_silent (w : World) (snapshot : SafeSnapshot) :
  mixinFails w CallSafeOutputs = false ->
  isLessThan (unspentBalance env (asset_id snapshot) w)
             (BigNumber env (amount snapshot)) = true ->
  sendMixinTx env (opponent_id snapshot) (asset_id snapshot) (amount snapshot) w =
    (Returned None, set_logs (logs w ++ [(LogError, "Insufficient fund")]) w)
  ∧ sentTransactions (refund env snapshot w).2 = sentTransactions w
  ∧ refund env snapshot w =
      (Returned tt, set_logs (logs w ++ [(LogError, "Insufficient fund")]) w)
  ∧ (∀ (w' : World) snapshot', (refund env snapshot' w').1 = Returned tt).
Proof.
  intros Hcall Hless.
  pose proof (refund_insufficient w snapshot Hcall Hless) as Hrefund.
  split; [apply sendMixinTx_insufficient; assumption |].
  split; [rewrite Hrefund; reflexivity |].
  split; [exact Hrefund |]. intros w' snapshot'. apply refund_returns.
Qed.

(** With the balance covering the amount, [sendMixinTx] gets as far as the
    ghost-key requests and throws there; [refund] logs the TypeError. *)
Lemma refund_funded (w : World) snapshot utxos change :
  mixinFails w CallSafeOutputs = false ->
  isLessThan (unspentBalance env (asset_id snapshot) w)
             (BigNumber env (amount snapshot)) = false ->
  filter (fun o => utxo_asset o = asset_id snapshot ∧ utxo_unspent o = true)
         (ledgerOutputs w) ≠ [] ->
  getUnspentOutputsForRecipients env
    (filter (fun o => utxo_asset o = asset_id snapshot ∧ utxo_unspent o = true)
            (ledgerOutputs w))
    [buildSafeTransactionRecipient [opponent_id snapshot] 1 (amount snapshot)] =
    Returned (utxos, change) ->
  refund env snapshot w =
  (Returned tt,
   set_logs
     (logs w ++
      [(LogError,
        "Failed to refund snapshot: Cannot read properties of undefined (reading 'members')")])
     w).
Proof.
  intros Hcall Hless Hsome Hselect.
  unfold refund, sendMixinTx, safeOutputs, firstOutput, logger. unfold_monad.
  rewrite Hcall. unfold unspentBalance in Hless. rewrite Hless, Hselect.
  destruct (negb (isZero change) && negb (isNegative change)); [| reflexivity].
  destruct (filter _ _); [contradiction | reflexivity].
Qed.

(** Whatever happens inside, [refund] leaves one error line in the log and
    nothing else. *)
Lemma refund_logs (w : World) snapshot :
  ∃ message,
    refund env snapshot w =
    (Returned tt, set_logs (logs w ++ [(LogError, message)]) w).
Proof.
  unfold refund, sendMixinTx, safeOutputs, firstOutput, logger. unfold_monad.
  destruct (mixinFails w CallSafeOutputs); [eexists; reflexivity |].
  destruct (isLessThan _ _); [eexists; reflexivity |].
  destruct (getUnspentOutputsForRecipients _ _ _) as [[utxos change] | message];
    [| eexists; reflexivity].
  destruct (negb (isZero change) && negb (isNegative change)); [| eexists; reflexivity].
  destruct (filter _ _); eexists; reflexivity.
Qed.

(** C3.  A transfer whose asset is on neither side of the instruction's
    pair, the payment-state lookup answering: the listener does nothing but
    [refund] the transfer, that is, ask [sendMixinTx] to pay the transfer's
    full amount of its asset to its sender; it returns normally, leaves the
    payment states alone and creates no order.  But the payment never
    happens: no transaction is submitted, and when the bot holds enough of
    the asset, [sendMixinTx] throws on [r[0].members] while it builds the
    ghost-key requests, which [refund] logs. *)
Theorem foreign_asset_refund_is_never_sent (w : World) (snapshot : SafeSnapshot) :
  storeFails w OpFindPaymentState = false ->
  let attempt : M unit :=
    tryCatch
      (sendMixinTx env (opponent_id snapshot) (asset_id snapshot) (amount snapshot)
         ≫= λ _, mret tt)
      (λ message, logger LogError ("Failed to refund snapshot: " +:+ message)) in
  let unspent :=
    filter (fun o => utxo_asset o = asset_id snapshot ∧ utxo_unspent o = true)
           (ledgerOutputs w) in
  let outcome (r : JsResult unit * World) : Prop :=
    r = attempt w
    ∧ r.1 = Returned tt
    ∧ paymentStates r.2 = paymentStates w
    ∧ arbitrageOrders r.2 = arbitrageOrders w
    ∧ marketMakingOrders r.2 = marketMakingOrders w
    ∧ sentTransactions r.2 = sentTransactions w
    ∧ ¬ refunded (opponent_id snapshot) (amount snapshot) w r.2
    ∧ (∀ utxos change,
          mixinFails w CallSafeOutputs = false ->
          isLessThan (unspentBalance env (asset_id snapshot) w)
                     (BigNumber env (amount snapshot)) = false ->
          unspent ≠ [] ->
          getUnspentOutputsForRecipients env unspent
            [buildSafeTransactionRecipient [opponent_id snapshot] 1 (amount snapshot)] =
            Returned (utxos, change) ->
          r.2 =
          set_logs
            (logs w ++
             [(LogError,
               "Failed to refund snapshot: Cannot read properties of undefined (reading 'members')")])
            w) in
  (∀ details,
      foreignAsset env (arb_symbol details) snapshot ->
      outcome (handleArbitrageCreate env (Some details) (Some snapshot) w))
  ∧ (∀ details,
        foreignAsset env (mm_symbol details) snapshot ->
        outcome (handleMarketMakingCreate env (Some details) (Some snapshot) w)).
Proof.
  intros Hfind attempt unspent outcome.
  assert (Hrefund : outcome (refund env snapshot w)).
  { unfold outcome. split; [reflexivity |]. split; [apply refund_returns |].
    pose proof (refund_keeps_strategyTables snapshot w) as Hk.
    injection Hk as Hp Ha Hm.
    assert (Hsent : sentTransactions (refund env snapshot w).2 = sentTransactions w).
    { destruct (refund_logs w snapshot) as [message ->]. reflexivity. }
    split; [exact Hp |]. split; [exact Ha |]. split; [exact Hm |].
    split; [exact Hsent |]. split.
    - intros (tx & Htx & _). rewrite Hsent in Htx.
      apply (f_equal (@length _)) in Htx. rewrite length_app in Htx. simpl in Htx. lia.
    - intros utxos change Hcall Hless Hsome Hselect.
      rewrite (refund_funded w snapshot utxos change Hcall Hless Hsome Hselect).
      reflexivity. }
  split; intros details (b & t & Hp & Hb & Ht).
  - rewrite (arbitrage_foreign w details snapshot b t Hfind Hp Hb Ht). exact Hrefund.
  - rewrite (market_making_foreign w details snapshot b t Hfind Hp Hb Ht). exact Hrefund.
Qed.

(** ** Intake of one transfer *)

Lemma substring_two c1 c2 rest :
  substring 0 2 (String c1 (String c2 rest)) = String c1 (String c2 EmptyString).
Proof. simpl. destruct rest; reflexivity. Qed.

Lemma dispatchMemo_spec (w : World) text snapshot :
  dispatchMemo env text snapshot w =
  (Returned tt,
   match spec_instruction env text snapshot with
   | Some e => set_emitted (emitted w ++ [e]) w
   | None => w
   end).
Proof.
  unfold dispatchMemo, spec_instruction, spec_kind.
  destruct text as [| c1 [| c2 rest]].
  - repeat (case_bool_decide; [discriminate |]). reflexivity.
  - simpl. repeat (case_bool_decide; [discriminate |]). reflexivity.
  - rewrite substring_two.
    repeat case_bool_decide; repeat case_decide; simplify_eq;
      try match goal with
          | |- context [decodeSpotMemo env ?t] => destruct (decodeSpotMemo env t)
          | |- context [decodeArbitrageMemo env ?t] => destruct (decodeArbitrageMemo env t)
          | |- context [decodeMarketMakingMemo env ?t] =>
              destruct (decodeMarketMakingMemo env t)
          end;
      reflexivity.
Qed.

Lemma markers_exist (l : list SafeSnapshot) id :
  existsb (fun s => bool_decide (snapshot_id s = id)) l =
  negb (count_occ string_dec (map snapshot_id l) id =? 0)%nat.
Proof.
  induction l as [| s l IH]; [reflexivity |]. simpl.
  destruct (string_dec (snapshot_id s) id) as [He | Hne].
  - rewrite bool_decide_eq_true_2 by exact He. reflexivity.
  - rewrite bool_decide_eq_false_2 by exact Hne. exact IH.
Qed.

Lemma markersFor_append (w w' : World) snapshot :
  snapshotsTable w' = snapshotsTable w ++ [snapshot] ->
  markersFor (snapshot_id snapshot) w' = S (markersFor (snapshot_id snapshot) w).
Proof.
  intros Ht. unfold markersFor. rewrite Ht, map_app, count_occ_app. simpl.
  destruct (string_dec _ _); [lia | congruence].
Qed.

(** An archived transfer is dropped at the dedup check. *)
Lemma handleSnapshot_seen (w : World) snapshot :
  storeFails w OpCheckSnapshotExist = false ->
  markersFor (snapshot_id snapshot) w ≠ 0 ->
  handleSnapshot env snapshot w = (Returned tt, w).
Proof.
  intros Hcheck Hseen. unfold handleSnapshot, repo_checkSnapshotExist.
  unfold_monad. rewrite Hcheck, markers_exist.
  unfold markersFor in Hseen.
  destruct (Nat.eqb_spec (count_occ string_dec (map snapshot_id (snapshotsTable w))
                            (snapshot_id snapshot)) 0); [contradiction | reflexivity].
Qed.

(** A transfer not yet archived: what [handleSnapshot] returns, archives,
    emits and logs. *)
Lemma handleSnapshot_fresh (w : World) snapshot :
  storeFails w OpCheckSnapshotExist = false ->
  markersFor (snapshot_id snapshot) w = 0 ->
  let r := handleSnapshot env snapshot w in
  r.1 = Returned tt
  ∧ snapshotsTable r.2 =
      (if storeFails w OpCreateSnapshot then snapshotsTable w
       else snapshotsTable w ++ [snapshot])
  ∧ emitted r.2 =
      match spec_decode env snapshot with
      | Some e => emitted w ++ [e]
      | None => emitted w
      end
  ∧ (storeFails w OpCreateSnapshot = true ->
     In (LogError, "createSnapshot()=> StoreError") (logs r.2)).
Proof.
  intros Hcheck Hfresh r.
  assert (Hr : r = handleSnapshot env snapshot w) by reflexivity. clearbody r.
  unfold handleSnapshot, repo_checkSnapshotExist in Hr. unfold mbind at 1 in Hr.
  unfold M_bind, bind, storeCall in Hr. rewrite Hcheck, markers_exist in Hr.
  unfold markersFor in Hfresh. rewrite Hfresh in Hr. simpl in Hr.
  unfold spec_decode.
  destruct (memo snapshot) as [[| c m] |]; simpl in Hr.
  - unfold createSnapshot, repo_createSnapshot, logger in Hr.
    unfold mbind, M_bind, bind, tryCatch, storeCall in Hr.
    destruct (storeFails w OpCreateSnapshot); subst r; simpl;
      repeat split; try reflexivity; intros; try discriminate;
      apply in_or_app; left; apply in_or_app; right; left; reflexivity.
  - unfold mbind, M_bind, bind in Hr. rewrite dispatchMemo_spec in Hr.
    unfold decodeMemo, createSnapshot, repo_createSnapshot, logger in Hr.
    unfold tryCatch, storeCall in Hr.
    destruct (spec_instruction _ _ _); simpl in Hr;
      destruct (storeFails w OpCreateSnapshot); subst r; simpl;
      repeat split; try reflexivity; intros; try discriminate;
      apply in_or_app; right; left; reflexivity.
  - unfold createSnapshot, repo_createSnapshot, logger in Hr.
    unfold mbind, M_bind, bind, tryCatch, storeCall in Hr.
    destruct (storeFails w OpCreateSnapshot); subst r; simpl;
      repeat split; try reflexivity; intros; try discriminate;
      apply in_or_app; left; apply in_or_app; right; left; reflexivity.
Qed.

(** ** Draining the event bus *)

Lemma set_emitted_same (w : World) : emitted w = [] -> set_emitted [] w = w.
Proof. destruct w. simpl. intros ->. reflexivity. Qed.

Lemma deliveries_keep (events : list (Event SpotMemoDetails)) (w : World) :
  intakeState (fold_left (fun w' e => deliver env e w') events w) = intakeState w
  ∧ surroundings (fold_left (fun w' e => deliver env e w') events w) = surroundings w.
Proof.
  revert w. induction events as [| e events IH]; intros w; [split; reflexivity |].
  simpl. destruct (IH (deliver env e w)) as [-> ->].
  split; [apply listener_keeps_intakeState | apply listener_keeps_surroundings].
Qed.

Lemma drain_keeps (w : World) :
  snapshotsTable (drain env w) = snapshotsTable w
  ∧ emitted (drain env w) = []
  ∧ surroundings (drain env w) = surroundings w.
Proof.
  unfold drain.
  destruct (deliveries_keep (emitted w) (set_emitted [] w)) as [Hi Hs].
  injection Hi as Ht He. repeat split; assumption.
Qed.

Lemma drain_idle (w : World) : emitted w = [] -> drain env w = w.
Proof. intros He. unfold drain. rewrite He. simpl. apply set_emitted_same, He. Qed.

Lemma processSnapshot_archive (w : World) snapshot :
  snapshotsTable (processSnapshot env snapshot w) =
    snapshotsTable (handleSnapshot env snapshot w).2
  ∧ emitted (processSnapshot env snapshot w) = []
  ∧ storeFails (processSnapshot env snapshot w) = storeFails w.
Proof.
  unfold processSnapshot.
  destruct (drain_keeps (handleSnapshot env snapshot w).2) as (Ht & He & Hs).
  pose proof (handleSnapshot_keeps_surroundings snapshot w) as Hk.
  rewrite <- Hs in Hk. injection Hk as Hk _ _.
  repeat split; assumption.
Qed.

(** ** Intake: idempotence, dispatch, store errors *)

(** C4.  With the archive reads and writes answering, once a transfer has
    been processed (its listeners run), handling it again stops at the dedup
    check: [handleSnapshot] returns with the world untouched, so processing
    twice gives the state of processing once; and the first processing of a
    transfer not yet archived appends exactly one archive row for it,
    whatever branch it took, which the second processing leaves at one. *)
Theorem reprocessing_is_a_no_op (w : World) (snapshot : SafeSnapshot) :
  storeFails w OpCheckSnapshotExist = false ->
  storeFails w OpCreateSnapshot = false ->
  let w1 := processSnapshot env snapshot w in
  handleSnapshot env snapshot w1 = (Returned tt, w1)
  ∧ processSnapshot env snapshot w1 = w1
  ∧ (markersFor (snapshot_id snapshot) w = 0 ->
     snapshotsTable w1 = snapshotsTable w ++ [snapshot]
     ∧ markersFor (snapshot_id snapshot) w1 = 1
     ∧ markersFor (snapshot_id snapshot) (processSnapshot env snapshot w1) = 1).
Proof.
  intros Hcheck Hcreate w1.
  destruct (processSnapshot_archive w snapshot) as (Ht & He & Hs). fold w1 in Ht, He, Hs.
  assert (Hfresh : markersFor (snapshot_id snapshot) w = 0 ->
                   snapshotsTable w1 = snapshotsTable w ++ [snapshot]).
  { intros Hzero.
    destruct (handleSnapshot_fresh w snapshot Hcheck Hzero) as (_ & Hrow & _).
    rewrite Hcreate in Hrow. rewrite Ht. exact Hrow. }
  assert (Hseen : markersFor (snapshot_id snapshot) w1 ≠ 0).
  { destruct (Nat.eq_dec (markersFor (snapshot_id snapshot) w) 0) as [Hzero | Hpos].
    - rewrite (markersFor_append w w1 snapshot (Hfresh Hzero)). lia.
    - unfold markersFor. rewrite Ht.
      rewrite (handleSnapshot_seen w snapshot Hcheck Hpos). exact Hpos. }
  assert (Hagain : handleSnapshot env snapshot w1 = (Returned tt, w1)).
  { apply handleSnapshot_seen; [rewrite Hs; exact Hcheck | exact Hseen]. }
  assert (Hsame : processSnapshot env snapshot w1 = w1).
  { unfold processSnapshot. rewrite Hagain. apply drain_idle, He. }
  split; [exact Hagain |]. split; [exact Hsame |].
  intros Hzero. split; [exact (Hfresh Hzero) |].
  rewrite Hsame. split; rewrite (markersFor_append w w1 snapshot (Hfresh Hzero)), Hzero;
    reflexivity.
Qed.

(** [handleSnapshot] is its dedup read followed by the rest. *)
Lemma handleSnapshot_cut (snapshot : SafeSnapshot) :
  handleSnapshot env snapshot =
  (seen ← repo_checkSnapshotExist (snapshot_id snapshot);
   afterCheckSnapshotExist env snapshot seen).
Proof. reflexivity. Qed.

(** What follows a dedup read that answered "not archived": the world it
    leaves, field by field. *)
Lemma afterCheckSnapshotExist_fresh (w : World) snapshot :
  afterCheckSnapshotExist env snapshot false w =
  (Returned tt,
   let w1 := match spec_decode env snapshot with
             | Some e => set_emitted (emitted w ++ [e]) w
             | None => w
             end in
   let w2 := if storeFails w OpCreateSnapshot
             then set_logs (logs w1 ++ [(LogError, "createSnapshot()=> StoreError")]) w1
             else set_snapshotsTable (snapshotsTable w1 ++ [snapshot]) w1 in
   if truthy (memo snapshot) then w2
   else set_logs (logs w2 ++ [(LogWarn, "snapshot no memo, return")]) w2).
Proof.
  unfold afterCheckSnapshotExist, spec_decode.
  destruct (memo snapshot) as [[| c m] |]; simpl.
  - unfold createSnapshot, repo_createSnapshot, logger. unfold_monad.
    destruct (storeFails w OpCreateSnapshot); reflexivity.
  - unfold mbind, M_bind, bind. rewrite dispatchMemo_spec.
    unfold decodeMemo, createSnapshot, repo_createSnapshot, logger.
    unfold tryCatch, storeCall.
    destruct (spec_instruction _ _ _); simpl;
      destruct (storeFails w OpCreateSnapshot); reflexivity.
  - unfold createSnapshot, repo_createSnapshot, logger. unfold_monad.
    destruct (storeFails w OpCreateSnapshot); reflexivity.
Qed.

Lemma handleSnapshot_unseen (w : World) snapshot :
  storeFails w OpCheckSnapshotExist = false ->
  markersFor (snapshot_id snapshot) w = 0 ->
  handleSnapshot env snapshot w = afterCheckSnapshotExist env snapshot false w.
Proof.
  intros Hcheck Hfresh. rewrite handleSnapshot_cut.
  unfold repo_checkSnapshotExist. unfold mbind at 1. unfold M_bind, bind, storeCall.
  rewrite Hcheck, markers_exist. unfold markersFor in Hfresh. rewrite Hfresh.
  reflexivity.
Qed.

(** C5.  [handleSnapshot] on a transfer not yet archived, the archive
    answering: the memo is hex-decoded, the result base64-decoded, and the
    first two characters of the text select the kind (SP, AR, MM); the
    event emitted is exactly the instruction the specification reads in the
    memo.  An absent or empty memo, another prefix or a failed payload
    parse give no instruction, and then the transfer is archived and nothing
    else happens: the world afterwards is the world before with the archive
    row added (and, for an absent or empty memo, the warning logged).  In
    particular no refund was asked for, since every call of [refund] leaves
    an error line in the log; no event is emitted, no transaction sent, no
    payment state or order touched, also after the event bus has been
    drained. *)
Theorem memo_dispatch (w : World) (snapshot : SafeSnapshot) :
  storeFails w OpCheckSnapshotExist = false ->
  storeFails w OpCreateSnapshot = false ->
  markersFor (snapshot_id snapshot) w = 0 ->
  let r := handleSnapshot env snapshot w in
  let archived := set_snapshotsTable (snapshotsTable w ++ [snapshot]) w in
  r.1 = Returned tt
  ∧ snapshotsTable r.2 = snapshotsTable w ++ [snapshot]
  ∧ strategyTables r.2 = strategyTables w
  ∧ sentTransactions r.2 = sentTransactions w
  ∧ logs r.2 =
      logs w ++ (if truthy (memo snapshot) then []
                 else [(LogWarn, "snapshot no memo, return")])
  ∧ (∀ (w' : World) snapshot',
        ∃ message, logs (refund env snapshot' w').2 = logs w' ++ [(LogError, message)])
  ∧ (∀ m, memo snapshot = Some m -> m ≠ "" ->
          spec_decode env snapshot =
          spec_instruction env (base64ToUtf8 env (hexToUtf8 env m)) snapshot)
  ∧ match spec_decode env snapshot with
    | Some e => emitted r.2 = emitted w ++ [e]
    | None =>
        r.2 = (if truthy (memo snapshot) then archived
               else set_logs (logs archived ++ [(LogWarn, "snapshot no memo, return")])
                      archived)
        ∧ emitted r.2 = emitted w
        ∧ (emitted w = [] -> processSnapshot env snapshot w = r.2)
    end.
Proof.
  intros Hcheck Hcreate Hfresh r archived.
  destruct (handleSnapshot_fresh w snapshot Hcheck Hfresh) as (Hret & Hrow & Hem & _).
  fold r in Hret, Hrow, Hem. rewrite Hcreate in Hrow.
  pose proof (handleSnapshot_keeps_ledger snapshot w) as Hl. fold r in Hl.
  injection Hl as Hsent _.
  assert (Hr : r = afterCheckSnapshotExist env snapshot false w)
    by (apply handleSnapshot_unseen; assumption).
  rewrite afterCheckSnapshotExist_fresh, Hcreate in Hr.
  split; [exact Hret |]. split; [exact Hrow |].
  split; [apply handleSnapshot_keeps_strategyTables |]. split; [exact Hsent |].
  split.
  { rewrite Hr. simpl.
    destruct (spec_decode env snapshot); destruct (truthy (memo snapshot)); simpl;
      rewrite ?app_nil_r; reflexivity. }
  split.
  { intros w' snapshot'. destruct (refund_logs w' snapshot') as [message ->].
    exists message. reflexivity. }
  split.
  - intros m Hm Hne. unfold spec_decode. rewrite Hm.
    destruct m; [contradiction | reflexivity].
  - destruct (spec_decode env snapshot); [exact Hem |].
    split; [rewrite Hr; reflexivity |].
    split; [exact Hem |]. intros Hidle. unfold processSnapshot. fold r.
    apply drain_idle. rewrite Hem. exact Hidle.
Qed.

(** C7 (as amended).  A store error raised while writing the dedup marker
    is caught inside [createSnapshot] and logged as an error; it does not
    propagate: [handleSnapshot] returns normally, no row is written and the
    transfer stays eligible for reprocessing.  A store error raised while
    writing the payment state makes the listener's call reject before any
    order is created; [handleSnapshot] does not wait for the listener, and
    the transfer is archived whatever the listener's store calls do. *)
Theorem store_errors (w : World) (snapshot : SafeSnapshot) :
  storeFails w OpCheckSnapshotExist = false ->
  markersFor (snapshot_id snapshot) w = 0 ->
  (storeFails w OpCreateSnapshot = true ->
   let r := handleSnapshot env snapshot w in
   r.1 = Returned tt
   ∧ snapshotsTable r.2 = snapshotsTable w
   ∧ markersFor (snapshot_id snapshot) r.2 = 0
   ∧ In (LogError, "createSnapshot()=> StoreError") (logs r.2))
  ∧ (storeFails w OpCreateSnapshot = false ->
     snapshotsTable (processSnapshot env snapshot w) = snapshotsTable w ++ [snapshot])
  ∧ (∀ details,
        validAsset env (arb_symbol details) snapshot ->
        storeFails w OpFindPaymentState = false ->
        let r := handleArbitrageCreate env (Some details) (Some snapshot) w in
        (paymentStates w !! arb_traceId details = None ->
         storeFails w OpCreatePaymentState = true ->
         r.1 = Thrown "StoreError" ∧ strategyTables r.2 = strategyTables w)
        ∧ (∀ ps, paymentStates w !! arb_traceId details = Some ps ->
                 truthy (secondAssetId ps) = false ->
                 storeFails w OpUpdatePaymentState = true ->
                 r.1 = Thrown "StoreError" ∧ strategyTables r.2 = strategyTables w))
  ∧ (∀ details,
        validAsset env (mm_symbol details) snapshot ->
        storeFails w OpFindPaymentState = false ->
        let r := handleMarketMakingCreate env (Some details) (Some snapshot) w in
        (paymentStates w !! mm_traceId details = None ->
         storeFails w OpCreatePaymentState = true ->
         r.1 = Thrown "StoreError" ∧ strategyTables r.2 = strategyTables w)
        ∧ (∀ ps, paymentStates w !! mm_traceId details = Some ps ->
                 truthy (secondAssetId ps) = false ->
                 storeFails w OpUpdatePaymentState = true ->
                 r.1 = Thrown "StoreError" ∧ strategyTables r.2 = strategyTables w)).
Proof.
  intros Hcheck Hfresh.
  destruct (handleSnapshot_fresh w snapshot Hcheck Hfresh) as (Hret & Hrow & _ & Hlog).
  split; [| split; [| split]].
  - intros Hfail r. fold r in Hret, Hrow, Hlog. rewrite Hfail in Hrow.
    split; [exact Hret |]. split; [exact Hrow |].
    split; [unfold markersFor; rewrite Hrow; exact Hfresh | exact (Hlog Hfail)].
  - intros Hok. rewrite Hok in Hrow.
    destruct (processSnapshot_archive w snapshot) as (-> & _). exact Hrow.
  - intros details (b & t & Hp & Hv) Hfind r. subst r. split.
    + intros Hnone Hfail. run_listener. rewrite Hfind, Hp. simpl.
      rewrite valid_test by assumption. rewrite Hnone. simpl. rewrite Hfail.
      split; reflexivity.
    + intros ps Hps Hunset Hfail. run_listener. rewrite Hfind, Hp. simpl.
      rewrite valid_test by assumption. rewrite Hps, Hunset. simpl. rewrite Hfail.
      split; reflexivity.
  - intros details (b & t & Hp & Hv) Hfind r. subst r. split.
    + intros Hnone Hfail. run_listener. rewrite Hfind, Hp. simpl.
      rewrite valid_test by assumption. rewrite Hnone. simpl. rewrite Hfail.
      split; reflexivity.
    + intros ps Hps Hunset Hfail. run_listener. rewrite Hfind, Hp. simpl.
      rewrite valid_test by assumption. rewrite Hps, Hunset. simpl. rewrite Hfail.
      split; reflexivity.
Qed.

(** ** The poller *)

(** C8 (as amended).  With the cron enabled, every tick runs a poll cycle,
    whatever is still in flight from earlier cycles: the cycle starts the
    handling of each fetched transfer and finishes without waiting for any
    of them, so they join the handlings already in flight; nothing is
    skipped and nothing is queued.  With the cron disabled a tick does
    nothing. *)
Theorem every_tick_starts_a_cycle (sch : Scheduler SpotMemoDetails) :
  (enableCron env = true ->
   (∀ snapshots,
       let sch' := handleSnapshots env (Returned (Some snapshots)) sch in
       inFlight sch' = inFlight sch ++ map (fun s => (cycles sch, s)) snapshots
       ∧ world sch' = world sch
       ∧ cycles sch' = S (cycles sch))
   ∧ (∀ batches,
         length (inFlight (ticks env batches sch)) =
           length (inFlight sch) + length (concat batches)
         ∧ cycles (ticks env batches sch) = cycles sch + length batches
         ∧ world (ticks env batches sch) = world sch))
  ∧ (enableCron env = false ->
     ∀ feed, handleSnapshots env feed sch = sch).
Proof.
  split; [intros Hcron; split |].
  - intros snapshots. unfold handleSnapshots. rewrite Hcron.
    repeat split; reflexivity.
  - intros batches. revert sch.
    induction batches as [| batch batches IH]; intros sch.
    + simpl. repeat split; lia.
    + simpl. destruct (IH (handleSnapshots env (Returned (Some batch)) sch))
        as (Hlen & Hcycles & Hworld).
      unfold ticks in Hlen, Hcycles, Hworld |- *.
      rewrite Hlen, Hcycles, Hworld. unfold handleSnapshots. rewrite Hcron. simpl.
      rewrite !length_app, length_map. repeat split; lia.
  - intros Hcron feed. unfold handleSnapshots. rewrite Hcron. reflexivity.
Qed.

End Properties.

(** * The properties at work on the concrete environment *)

Import Demo.

Lemma world0_healthy outputs : storeHealthy (world0 outputs).
Proof. intros op. reflexivity. Defined.

Lemma worldLeg1_healthy : storeHealthy worldLeg1.
Proof. intros op. vm_compute. reflexivity. Defined.

Lemma valid_BTC (s : SafeSnapshot) : asset_id s = BTC -> validAsset env0 "BTC/USDT" s.
Proof. intros H. exists BTC, USDT. split; [reflexivity | left; exact H]. Defined.

Lemma valid_USDT (s : SafeSnapshot) : asset_id s = USDT -> validAsset env0 "BTC/USDT" s.
Proof. intros H. exists BTC, USDT. split; [reflexivity | right; exact H]. Defined.

Lemma foreign_ETH (s : SafeSnapshot) : asset_id s = ETH -> foreignAsset env0 "BTC/USDT" s.
Proof.
  intros H. exists BTC, USDT. split; [reflexivity |].
  rewrite H. split; discriminate.
Defined.

(** The first leg of trace-X in BTC, then the second leg in USDT. *)
Lemma leg_transitions_witness :
  (∃ ps',
      paymentStates (handleArbitrageCreate env0 (Some detailsX) (Some t1) (world0 [])).2 =
        <["trace-X" := ps']> ∅
      ∧ type ps' = "arbitrage"
      ∧ firstAssetId ps' = BTC ∧ firstAssetAmount ps' = "0.1"
      ∧ firstSnapshotId ps' = "1"
      ∧ createdAt ps' = 0 ∧ updatedAt ps' = 0
      ∧ secondAssetId ps' = None)
  ∧ (∃ ps' o,
        paymentStates (handleArbitrageCreate env0 (Some detailsX) (Some t2) worldLeg1).2 =
          <["trace-X" := ps']> (paymentStates worldLeg1)
        ∧ firstAssetId ps' = BTC ∧ firstAssetAmount ps' = "0.1"
        ∧ createdAt ps' = 0
        ∧ secondAssetId ps' = Some USDT
        ∧ secondAssetAmount ps' = Some "2500"
        ∧ secondSnapshotId ps' = Some "2"
        ∧ updatedAt ps' = 1
        ∧ arbitrageOrders
            (handleArbitrageCreate env0 (Some detailsX) (Some t2) worldLeg1).2 = [o]
        ∧ ao_state o = "created"
        ∧ ao_balanceA o = "0.1" ∧ ao_balanceB o = "2500").
Proof.
  split.
  - destruct (proj1 (proj1 (leg_transitions env0 (world0 []) t1 (world0_healthy []))
                       detailsX (valid_BTC t1 eq_refl)) eq_refl)
      as (_ & (ps' & Hp & _ & Hty & _ & Hfa & Hfm & Hfs & Hc & Hu & Hsa & _) & _).
    exists ps'. repeat split; assumption.
  - destruct (proj2 (proj1 (leg_transitions env0 worldLeg1 t2 worldLeg1_healthy)
                       detailsX (valid_USDT t2 eq_refl))
                (firstLeg "arbitrage" "trace-X" "BTC/USDT" t1 0)
                ltac:(vm_compute; reflexivity) eq_refl)
      as (_ & (ps' & Hp & _ & _ & _ & Hfa & Hfm & _ & Hc & Hsa & Hsm & Hss & Hu)
          & _ & o & Ho & _ & _ & _ & Hstate & HA & HB).
    exists ps', o. repeat split; assumption.
Defined.

(** C2, as stated, fails in its timestamps: they are not taken from the
    transfer.  The same transfer recorded at clock 7 and at clock 9 gets the
    timestamps 7 and 9, so no timestamp is determined by the transfer; and a
    transfer that differs in [created_at] only is recorded identically. *)
Lemma leg_timestamps_come_from_the_clock :
  let recorded (now : Timestamp) (s : SafeSnapshot) :=
    paymentStates
      (handleArbitrageCreate env0 (Some detailsX) (Some s)
         (set_clock now (world0 []))).2 !! "trace-X" in
  let redated :=
    {| snapshot_id := "1"; opponent_id := sender; asset_id := BTC; amount := "0.1";
       memo := Some memoAR; created_at := "2031-12-31T23:59:59Z" |} in
  (¬ ∃ stamp : Timestamp, ∀ now, createdAt <$> recorded now t1 = Some stamp)
  ∧ createdAt <$> recorded 7 t1 = Some 7
  ∧ updatedAt <$> recorded 7 t1 = Some 7
  ∧ createdAt <$> recorded 9 t1 = Some 9
  ∧ updatedAt <$> recorded 9 t1 = Some 9
  ∧ created_at redated ≠ created_at t1
  ∧ recorded 7 redated = recorded 7 t1.
Proof.
  split.
  - intros (stamp & Hstamp).
    pose proof (Hstamp 7) as H7. pose proof (Hstamp 9) as H9.
    vm_compute in H7, H9. congruence.
  - repeat split; try (vm_compute; reflexivity). discriminate.
Qed.

(** BTC then USDT, and USDT then BTC, for trace-X. *)
Lemma balances_follow_recording_order_witness :
  (∃ o, arbitrageOrders (arbitrageThen env0 detailsX t1 detailsX t2 (world0 [])) = [o]
        ∧ ao_balanceA o = "0.1" ∧ ao_balanceB o = "2500")
  ∧ (∃ o, arbitrageOrders (arbitrageThen env0 detailsX t2 detailsX t1 (world0 [])) = [o]
          ∧ ao_balanceA o = "2500" ∧ ao_balanceB o = "0.1").
Proof.
  destruct (proj1 (balances_follow_recording_order env0 (world0 []) t1 t2 BTC USDT
                     (world0_healthy []) eq_refl eq_refl)
              detailsX detailsX eq_refl eq_refl eq_refl eq_refl)
    as [(o & ps & Ho & _ & _ & HA & HB) (o' & ps' & Ho' & _ & _ & HA' & HB')].
  split; [exists o | exists o']; repeat split; assumption.
Defined.

(** A second BTC transfer for trace-X after a first BTC transfer. *)
Lemma same_asset_fills_second_leg_witness :
  ∃ ps' o,
    paymentStates (handleArbitrageCreate env0 (Some detailsX) (Some t4) worldLeg1).2
      !! "trace-X" = Some ps'
    ∧ firstAssetId ps' = BTC ∧ secondAssetId ps' = Some BTC
    ∧ arbitrageOrders (handleArbitrageCreate env0 (Some detailsX) (Some t4) worldLeg1).2
      = [o]
    ∧ ao_balanceA o = "0.1" ∧ ao_balanceB o = "0.2".
Proof.
  destruct (proj1 (same_asset_fills_second_leg env0 worldLeg1 t4
                     (firstLeg "arbitrage" "trace-X" "BTC/USDT" t1 0)
                     worldLeg1_healthy eq_refl eq_refl)
              detailsX (valid_BTC t4 eq_refl) ltac:(vm_compute; reflexivity))
    as (ps' & o & Hps & Hf & Hs & Ho & _ & HA & HB).
  exists ps', o. repeat split; assumption.
Defined.

(** ETH sent for BTC/USDT while the bot holds 3 ETH and owes 5. *)
Lemma insufficient_balance_is_silent_witness :
  refund env0 t3 (world0 [output ETH "3"]) =
  (Returned tt,
   set_logs [(LogError, "Insufficient fund")] (world0 [output ETH "3"])).
Proof.
  exact (proj1 (proj2 (proj2 (insufficient_balance_is_silent env0
                                (world0 [output ETH "3"]) t3 eq_refl eq_refl)))).
Defined.

(** ETH sent for BTC/USDT while the bot holds exactly the 5 ETH it owes: the
    sender gets nothing, and the log tells why. *)
Lemma foreign_asset_refund_is_never_sent_witness :
  let r := handleArbitrageCreate env0 (Some detailsX) (Some t3) (world0 [output ETH "5"]) in
  r.1 = Returned tt
  ∧ paymentStates r.2 = ∅ ∧ arbitrageOrders r.2 = []
  ∧ sentTransactions r.2 = []
  ∧ ¬ refunded sender "5" (world0 [output ETH "5"]) r.2
  ∧ logs r.2 =
      [(LogError,
        "Failed to refund snapshot: Cannot read properties of undefined (reading 'members')")].
Proof.
  destruct (proj1 (foreign_asset_refund_is_never_sent env0 (world0 [output ETH "5"]) t3
                     eq_refl)
              detailsX (foreign_ETH t3 eq_refl))
    as (_ & Hret & Hp & Ha & _ & Hsent & Hnot & Hfunded).
  split; [exact Hret |]. split; [exact Hp |]. split; [exact Ha |].
  split; [exact Hsent |]. split; [exact Hnot |].
  rewrite (Hfunded [output ETH "5"] bn_zero eq_refl eq_refl ltac:(discriminate) eq_refl).
  reflexivity.
Defined.

(** The first leg of trace-X processed twice. *)
Lemma reprocessing_is_a_no_op_witness :
  handleSnapshot env0 t1 worldLeg1 = (Returned tt, worldLeg1)
  ∧ processSnapshot env0 t1 worldLeg1 = worldLeg1
  ∧ snapshotsTable worldLeg1 = [t1]
  ∧ markersFor "1" (processSnapshot env0 t1 worldLeg1) = 1.
Proof.
  destruct (reprocessing_is_a_no_op env0 (world0 []) t1 eq_refl eq_refl)
    as (Hagain & Hsame & Hfresh).
  destruct (Hfresh eq_refl) as (Hrow & _ & Hone).
  repeat split; assumption.
Defined.

(** An arbitrage memo, a memo with an unknown prefix, and no memo at all. *)
Lemma memo_dispatch_witness :
  emitted (handleSnapshot env0 t1 (world0 [])).2 = [ArbitrageCreate detailsX t1]
  ∧ (let unknown := transfer "8" BTC "1" (Some memoXX) in
     (handleSnapshot env0 unknown (world0 [])).2 =
       set_snapshotsTable [unknown] (world0 [])
     ∧ logs (handleSnapshot env0 unknown (world0 [])).2 = []
     ∧ processSnapshot env0 unknown (world0 []) =
         (handleSnapshot env0 unknown (world0 [])).2)
  ∧ snapshotsTable (processSnapshot env0 bare (world0 [])) = [bare]
  ∧ logs (handleSnapshot env0 bare (world0 [])).2 =
      [(LogWarn, "snapshot no memo, return")].
Proof.
  split; [| split; [| split]].
  - exact (proj2 (proj2 (proj2 (proj2 (proj2 (proj2 (proj2
             (memo_dispatch env0 (world0 []) t1 eq_refl eq_refl eq_refl)))))))).
  - destruct (memo_dispatch env0 (world0 []) (transfer "8" BTC "1" (Some memoXX))
                eq_refl eq_refl eq_refl)
      as (_ & _ & _ & _ & Hlogs & _ & _ & Hworld & _ & Hidle).
    split; [exact Hworld |]. split; [exact Hlogs | exact (Hidle eq_refl)].
  - destruct (memo_dispatch env0 (world0 []) bare eq_refl eq_refl eq_refl)
      as (_ & Hrow & _ & _ & _ & _ & _ & _ & _ & Hidle).
    rewrite (Hidle eq_refl). exact Hrow.
  - exact (proj1 (proj2 (proj2 (proj2 (proj2
             (memo_dispatch env0 (world0 []) bare eq_refl eq_refl eq_refl)))))).
Defined.

(** The archive write rejecting; then the payment-state write rejecting. *)
Lemma store_errors_witness :
  (let r := handleSnapshot env0 t1 (worldFailing OpCreateSnapshot) in
   r.1 = Returned tt ∧ snapshotsTable r.2 = []
   ∧ In (LogError, "createSnapshot()=> StoreError") (logs r.2))
  ∧ (let r := handleArbitrageCreate env0 (Some detailsX) (Some t1)
                (worldFailing OpCreatePaymentState) in
     r.1 = Thrown "StoreError" ∧ paymentStates r.2 = ∅)
  ∧ snapshotsTable (processSnapshot env0 t1 (worldFailing OpCreatePaymentState)) = [t1].
Proof.
  split; [| split].
  - destruct (proj1 (store_errors env0 (worldFailing OpCreateSnapshot) t1
                       eq_refl eq_refl) eq_refl)
      as (Hret & Hrow & _ & Hlog).
    repeat split; assumption.
  - destruct (proj1 (proj1 (proj2 (proj2 (store_errors env0
                       (worldFailing OpCreatePaymentState) t1 eq_refl eq_refl)))
                       detailsX (valid_BTC t1 eq_refl) eq_refl) eq_refl eq_refl)
      as (Hret & Hsame).
    split; [exact Hret |]. exact (f_equal (fun t => t.1.1) Hsame).
  - exact (proj1 (proj2 (store_errors env0 (worldFailing OpCreatePaymentState) t1
                           eq_refl eq_refl)) eq_refl).
Defined.

(** C7, as stated, fails.  The archive write rejects and [handleSnapshot]
    does not: nothing propagates.  The payment-state write rejects and the
    transfer is archived all the same: it is dropped at the dedup check from
    then on, with no payment state recorded. *)
Lemma store_error_not_propagated :
  storeFails (worldFailing OpCreateSnapshot) OpCreateSnapshot = true
  ∧ (¬ ∃ message,
        (handleSnapshot env0 t1 (worldFailing OpCreateSnapshot)).1 = Thrown message)
  ∧ (let w := processSnapshot env0 t1 (worldFailing OpCreatePaymentState) in
     markersFor (snapshot_id t1) w = 1
     ∧ paymentStates w = ∅
     ∧ handleSnapshot env0 t1 w = (Returned tt, w)).
Proof.
  split; [reflexivity |]. split.
  - intros (message & Hthrown). vm_compute in Hthrown. discriminate Hthrown.
  - repeat split; vm_compute; reflexivity.
Qed.

(** One tick with a transfer to handle; three ticks in a row. *)
Lemma every_tick_starts_a_cycle_witness :
  inFlight (handleSnapshots env0 (Returned (Some [t1; t2])) scheduler0) =
    [(0, t1); (0, t2)]
  ∧ length (inFlight (ticks env0 [[t1]; [t1; t2]; [t1; t2; t4]] scheduler0)) = 6.
Proof.
  destruct (proj1 (every_tick_starts_a_cycle env0 scheduler0) eq_refl)
    as (Hone & Hmany).
  split.
  - exact (proj1 (Hone [t1; t2])).
  - exact (proj1 (Hmany [[t1]; [t1; t2]; [t1; t2; t4]])).
Defined.

(** C8, as stated, fails.  When the first cycle has finished, the handling it
    started is still in flight; the next tick is not skipped: it starts the
    handling of the same transfer a second time, next to the first. *)
Lemma poll_cycles_overlap :
  let sch1 := handleSnapshots env0 (Returned (Some [t1])) scheduler0 in
  let sch2 := handleSnapshots env0 (Returned (Some [t1])) sch1 in
  inFlight sch1 = [(0, t1)]
  ∧ world sch1 = world scheduler0
  ∧ sch2 ≠ sch1
  ∧ inFlight sch2 = [(0, t1); (1, t1)].
Proof.
  repeat split; try reflexivity.
  intros Heq. apply (f_equal (fun sch => length (inFlight sch))) in Heq.
  vm_compute in Heq. discriminate Heq.
Qed.

(** ** Further runs of the concrete environment *)

(** The two legs of the market-making order trace-Y. *)
Example market_making_pair :
  let w := processSnapshot env0 m2 (processSnapshot env0 m1 (world0 [])) in
  map (fun o => (mo_orderId o, mo_balanceA o, mo_balanceB o, mo_state o))
      (marketMakingOrders w) = [("trace-Y", "0.3", "900", "created")]
  ∧ arbitrageOrders w = []
  ∧ map snapshot_id (snapshotsTable w) = ["5"; "6"].
Proof. repeat split; vm_compute; reflexivity. Qed.

(** A spot memo reaches the event bus; an arbitrage memo whose payload does
    not parse is archived and nothing more. *)
Example spot_and_broken_memos :
  emitted (handleSnapshot env0 (transfer "9" BTC "1" (Some memoSP)) (world0 [])).2 =
    [SpotCreate "okx BTC/USDT" (transfer "9" BTC "1" (Some memoSP))]
  ∧ spec_decode env0 (transfer "10" BTC "1" (Some memoARbroken)) = None
  ∧ map snapshot_id
      (snapshotsTable
         (processSnapshot env0 (transfer "10" BTC "1" (Some memoARbroken)) (world0 [])))
    = ["10"].
Proof. repeat split; vm_compute; reflexivity. Qed.

(** * Further properties of the pipeline *)

Ltac eval_monad :=
  unfold mbind, M_bind, bind, mret, M_ret, ret, throw, storeCall, mixinCall,
    liftResult, tryCatch.

Ltac eval_listener :=
  unfold handleArbitrageCreate, handleMarketMakingCreate,
    findPaymentStateByIdRaw, resolvePair, getRFC3339Timestamp,
    createPaymentState, updatePaymentStateById, createArbitrage,
    createMarketMaking;
  eval_monad; simpl.

Section RunProperties.

Context {SpotMemoDetails : Type} (env : Env SpotMemoDetails).

#[local] Existing Instances M_ret M_bind.

Local Abbreviation World := (World SpotMemoDetails).
Local Abbreviation M := (M SpotMemoDetails).

(** ** One step of a run *)

Lemma deliver_legStep (w : World) (e : Event SpotMemoDetails) :
  strategyTables (deliver env e w) = strategyTables w
  ∨ ∃ trace, legStep trace (snapshotOf e) w (deliver env e w).
Proof.
  destruct e as [d s | d s | d s]; unfold deliver; simpl.
  - left. reflexivity.
  - right. exists (arb_traceId d). apply arbitrage_legStep.
  - right. exists (mm_traceId d). apply market_making_legStep.
Qed.

(** The tables before and after any step, seen through [legStep]. *)
Lemma step_tables (st : Step) (w : World) :
  strategyTables (step env st w) = strategyTables w
  ∨ ∃ trace snapshot, legStep trace snapshot w (step env st w).
Proof.
  destruct st as [snapshot | | sf mf outputs]; simpl.
  - left. apply handleSnapshot_keeps_strategyTables.
  - destruct (emitted w) as [| e rest]; [left; reflexivity |].
    destruct (deliver_legStep (set_emitted rest w) e) as [Hsame | [trace Hstep]].
    + left. exact Hsame.
    + right. exists trace, (snapshotOf e). exact Hstep.
  - left. reflexivity.
Qed.

Lemma handleSnapshot_archive (w : World) snapshot :
  snapshotsTable (handleSnapshot env snapshot w).2 = snapshotsTable w
  ∨ snapshotsTable (handleSnapshot env snapshot w).2 = snapshotsTable w ++ [snapshot].
Proof.
  destruct (storeFails w OpCheckSnapshotExist) eqn:Hcheck.
  - left. unfold handleSnapshot, repo_checkSnapshotExist. eval_monad.
    rewrite Hcheck. reflexivity.
  - destruct (Nat.eq_dec (markersFor (snapshot_id snapshot) w) 0) as [Hfresh | Hseen].
    + destruct (handleSnapshot_fresh env w snapshot Hcheck Hfresh) as (_ & Hrow & _).
      destruct (storeFails w OpCreateSnapshot); [left | right]; exact Hrow.
    + left. rewrite (handleSnapshot_seen env w snapshot Hcheck Hseen). reflexivity.
Qed.

Lemma step_archive (st : Step) (w : World) :
  snapshotsTable w `prefix_of` snapshotsTable (step env st w).
Proof.
  destruct st as [snapshot | | sf mf outputs]; simpl.
  - destruct (handleSnapshot_archive w snapshot) as [-> | ->].
    + reflexivity.
    + apply prefix_app_r. reflexivity.
  - destruct (emitted w) as [| e rest]; [reflexivity |].
    pose proof (listener_keeps_intakeState env e (set_emitted rest w)) as Hk.
    injection Hk as Hk _. unfold deliver. rewrite Hk. reflexivity.
  - reflexivity.
Qed.

Lemma legStep_orders (w w' : World) trace snapshot :
  legStep trace snapshot w w' ->
  arbitrageOrders w `prefix_of` arbitrageOrders w'
  ∧ marketMakingOrders w `prefix_of` marketMakingOrders w'.
Proof.
  intros [Hsame | [Hfirst | Hsecond]].
  - injection Hsame as _ -> ->. split; reflexivity.
  - destruct Hfirst as (_ & _ & -> & ->). split; reflexivity.
  - destruct Hsecond as (ps & now & _ & _ & _ & Horders).
    destruct Horders as [[-> ->] | [(o & _ & -> & ->) | (o & _ & -> & ->)]];
      split; try reflexivity; apply prefix_app_r; reflexivity.
Qed.

Lemma step_orders (st : Step) (w : World) :
  arbitrageOrders w `prefix_of` arbitrageOrders (step env st w)
  ∧ marketMakingOrders w `prefix_of` marketMakingOrders (step env st w).
Proof.
  destruct (step_tables st w) as [Hsame | (trace & snapshot & Hstep)].
  - injection Hsame as _ -> ->. split; reflexivity.
  - eapply legStep_orders. exact Hstep.
Qed.

(** X4.  Rows are never removed.  Along every run the archive and the two
    order tables only grow at the end: what was there stays, in place and
    unchanged. *)
Theorem rows_only_appended (steps : list Step) (w : World) :
  snapshotsTable w `prefix_of` snapshotsTable (run env steps w)
  ∧ arbitrageOrders w `prefix_of` arbitrageOrders (run env steps w)
  ∧ marketMakingOrders w `prefix_of` marketMakingOrders (run env steps w).
Proof.
  revert w. induction steps as [| st steps IH]; intros w; [repeat split; reflexivity |].
  simpl. destruct (IH (step env st w)) as (Hs & Ha & Hm).
  destruct (step_orders st w) as [Ha0 Hm0].
  repeat split; etrans; eauto using step_archive.
Qed.

(** ** Payment states along a run *)

Lemma legStep_lookup (w w' : World) trace snapshot other ps :
  legStep trace snapshot w w' ->
  paymentStates w !! other = Some ps ->
  ∃ ps', paymentStates w' !! other = Some ps'
         ∧ firstLegOf ps' = firstLegOf ps
         ∧ (truthy (secondAssetId ps) = true -> ps' = ps).
Proof.
  intros [Hsame | [Hfirst | Hsecond]] Hps.
  - injection Hsame as -> _ _. exists ps. auto.
  - destruct Hfirst as (Hnone & (ps1 & _ & ->) & _).
    exists ps. rewrite lookup_insert_ne by congruence. auto.
  - destruct Hsecond as (ps0 & now & Hps0 & Hunset & -> & _).
    destruct (decide (trace = other)) as [-> | Hne].
    + rewrite Hps in Hps0. injection Hps0 as <-.
      eexists. rewrite lookup_insert_eq. split; [reflexivity |].
      split; [reflexivity | congruence].
    + exists ps. rewrite lookup_insert_ne by exact Hne. auto.
Qed.

Lemma step_lookup (st : Step) (w : World) other ps :
  paymentStates w !! other = Some ps ->
  ∃ ps', paymentStates (step env st w) !! other = Some ps'
         ∧ firstLegOf ps' = firstLegOf ps
         ∧ (truthy (secondAssetId ps) = true -> ps' = ps).
Proof.
  intros Hps. destruct (step_tables st w) as [Hsame | (trace & snapshot & Hstep)].
  - injection Hsame as -> _ _. exists ps. auto.
  - eapply legStep_lookup; eassumption.
Qed.

(** Handlers run one at a time keep the first leg of a payment state. *)
Lemma run_keeps_first_leg (steps : list Step) (w : World) trace ps :
  paymentStates w !! trace = Some ps ->
  ∃ ps', paymentStates (run env steps w) !! trace = Some ps'
         ∧ firstLegOf ps' = firstLegOf ps.
Proof.
  revert w ps. induction steps as [| st steps IH]; intros w ps Hps.
  - exists ps. auto.
  - simpl. destruct (step_lookup st w trace ps Hps) as (ps1 & Hps1 & Hleg & _).
    destruct (IH _ _ Hps1) as (ps' & Hps' & Hleg').
    exists ps'. split; [exact Hps' | congruence].
Qed.

(** Handlers run one at a time leave a complete payment state alone. *)
Lemma run_keeps_complete_state (steps : list Step) (w : World) trace ps :
  paymentStates w !! trace = Some ps ->
  truthy (secondAssetId ps) = true ->
  paymentStates (run env steps w) !! trace = Some ps.
Proof.
  revert w. induction steps as [| st steps IH]; intros w Hps Hset; [exact Hps |].
  simpl. destruct (step_lookup st w trace ps Hps) as (ps1 & Hps1 & _ & Hsame).
  rewrite (Hsame Hset) in Hps1. apply IH; assumption.
Qed.

(** ** Isolation between trace ids *)

Lemma legStep_isolated (w w' : World) trace snapshot other :
  legStep trace snapshot w w' -> other ≠ trace ->
  paymentStates w' !! other = paymentStates w !! other
  ∧ ordersFor other w' = ordersFor other w.
Proof.
  intros [Hsame | [Hfirst | Hsecond]] Hne.
  - injection Hsame as Hp Ha Hm. rewrite Hp.
    split; [reflexivity | apply ordersFor_tables; assumption].
  - destruct Hfirst as (_ & (ps & _ & ->) & Ha & Hm).
    rewrite lookup_insert_ne by congruence.
    split; [reflexivity | apply ordersFor_tables; assumption].
  - destruct Hsecond as (ps & now & _ & _ & -> & Horders).
    rewrite lookup_insert_ne by congruence. split; [reflexivity |].
    destruct Horders as [[Ha Hm] | [(o & Ho & Ha & Hm) | (o & Ho & Hm & Ha)]].
    + apply ordersFor_tables; assumption.
    + rewrite (ordersFor_arbitrage w w' other o Ha Hm).
      destruct (string_dec (ao_orderId o) other); [congruence | lia].
    + rewrite (ordersFor_market_making w w' other o Hm Ha).
      destruct (string_dec (mo_orderId o) other); [congruence | lia].
Qed.

(** X7.  A listener call only touches its own trace id.  Whatever path it
    takes, a call for trace id T leaves the payment state and the number of
    orders of every other trace id as they were. *)
Theorem listener_touches_one_trace (w : World) (snapshot : SafeSnapshot) other :
  (∀ details,
      other ≠ arb_traceId details ->
      let w' := (handleArbitrageCreate env (Some details) (Some snapshot) w).2 in
      paymentStates w' !! other = paymentStates w !! other
      ∧ ordersFor other w' = ordersFor other w)
  ∧ (∀ details,
        other ≠ mm_traceId details ->
        let w' := (handleMarketMakingCreate env (Some details) (Some snapshot) w).2 in
        paymentStates w' !! other = paymentStates w !! other
        ∧ ordersFor other w' = ordersFor other w).
Proof.
  split; intros details Hne w'.
  - eapply legStep_isolated; [apply arbitrage_legStep | exact Hne].
  - eapply legStep_isolated; [apply market_making_legStep | exact Hne].
Qed.

(** ** Transactions *)

Lemma refund_keeps_sentTransactions snapshot :
  keeps sentTransactions (refund env snapshot).
Proof.
  unfold refund. apply keeps_tryCatch.
  - apply keeps_bind; [apply sendMixinTx_keeps_sentTransactions |].
    intros ?. apply keeps_ret.
  - intros message w. reflexivity.
Qed.

Lemma listener_keeps_sentTransactions e :
  keeps sentTransactions (listener env e).
Proof.
  destruct e as [d s | d s | d s]; unfold listener;
    unfold handleArbitrageCreate, handleMarketMakingCreate,
      findPaymentStateByIdRaw, resolvePair, getRFC3339Timestamp,
      createPaymentState, updatePaymentStateById, createArbitrage,
      createMarketMaking, logger;
    repeat first
      [ apply refund_keeps_sentTransactions
      | apply keeps_ret
      | apply keeps_throw
      | apply keeps_bind; [ | intros ? ]
      | apply keeps_storeCall
      | match goal with
        | |- keeps _ (match ?x with _ => _ end) => destruct x
        end
      | (intros ?; reflexivity) ].
Qed.

Lemma step_keeps_sentTransactions (st : Step) (w : World) :
  sentTransactions (step env st w) = sentTransactions w.
Proof.
  destruct st as [snapshot | | sf mf outputs]; simpl.
  - pose proof (handleSnapshot_keeps_ledger env snapshot w) as Hk.
    injection Hk as Hk _. exact Hk.
  - destruct (emitted w) as [| e rest]; [reflexivity |].
    unfold deliver. rewrite listener_keeps_sentTransactions. reflexivity.
  - reflexivity.
Qed.

(** X11.  No transaction is ever submitted.  [sendMixinTx] either returns
    [undefined] (insufficient balance) or throws: with enough balance it
    reads [r[0].members] on a recipient object, which throws before
    [ghostKey] is called.  So [sendMixinTx] never returns a submitted
    transaction, and no run of the pipeline, refunds included, adds anything
    to the submitted transactions. *)
Theorem nothing_is_ever_submitted :
  (∀ (w : World) opponent asset amt,
      ((sendMixinTx env opponent asset amt w).1 = Returned None
       ∨ ∃ message, (sendMixinTx env opponent asset amt w).1 = Thrown message)
      ∧ sentTransactions (sendMixinTx env opponent asset amt w).2 = sentTransactions w)
  ∧ (∀ (steps : list Step) (w : World),
        sentTransactions (run env steps w) = sentTransactions w).
Proof.
  split.
  - intros w opponent asset amt.
    split; [| apply sendMixinTx_keeps_sentTransactions].
    unfold sendMixinTx, safeOutputs, firstOutput, logger. eval_monad.
    destruct (mixinFails w CallSafeOutputs); [right; eexists; reflexivity |].
    destruct (isLessThan _ _); [left; reflexivity |].
    destruct (getUnspentOutputsForRecipients _ _ _) as [[utxos change] | message];
      [| right; eexists; reflexivity].
    destruct (negb (isZero change) && negb (isNegative change));
      [| right; eexists; reflexivity].
    destruct (filter _ _); right; eexists; reflexivity.
  - intros steps. induction steps as [| st steps IH]; intros w; [reflexivity |].
    simpl. rewrite IH. apply step_keeps_sentTransactions.
Qed.

(** ** Orders and the audit trail *)

Lemma arbitrage_legMove (w : World) details snapshot :
  legMove (arb_traceId details) snapshot w
    (handleArbitrageCreate env (Some details) (Some snapshot) w).2.
Proof.
  eval_listener.
  destruct (storeFails w OpFindPaymentState); [left; reflexivity |].
  destruct (getAssetIDBySymbol env (arb_symbol details)) as [[b t] |];
    simpl; [| left; reflexivity].
  destruct (bool_decide (asset_id snapshot ≠ b) && bool_decide (asset_id snapshot ≠ t)).
  { left. apply refund_keeps_strategyTables. }
  destruct (paymentStates w !! arb_traceId details) as [ps |] eqn:Hps; simpl.
  - destruct (truthy (secondAssetId ps)) eqn:Hset; simpl; [left; reflexivity |].
    destruct (storeFails w OpUpdatePaymentState); [left; reflexivity |]. simpl.
    right; right. exists ps, (clock w).
    rewrite (alter_found _ _ _ _ Hps).
    destruct (storeFails w OpCreateArbitrage); simpl.
    + repeat split; auto.
    + repeat split; auto. right; left. eexists. repeat split; reflexivity.
  - destruct (storeFails w OpCreatePaymentState); [left; reflexivity |]. simpl.
    right; left. repeat split; auto. eexists. split; [| reflexivity]. reflexivity.
Qed.

Lemma market_making_legMove (w : World) details snapshot :
  legMove (mm_traceId details) snapshot w
    (handleMarketMakingCreate env (Some details) (Some snapshot) w).2.
Proof.
  eval_listener.
  destruct (storeFails w OpFindPaymentState); [left; reflexivity |].
  destruct (getAssetIDBySymbol env (mm_symbol details)) as [[b t] |];
    simpl; [| left; reflexivity].
  destruct (bool_decide (asset_id snapshot ≠ b) && bool_decide (asset_id snapshot ≠ t)).
  { left. apply refund_keeps_strategyTables. }
  destruct (paymentStates w !! mm_traceId details) as [ps |] eqn:Hps; simpl.
  - destruct (truthy (secondAssetId ps)) eqn:Hset; simpl; [left; reflexivity |].
    destruct (storeFails w OpUpdatePaymentState); [left; reflexivity |]. simpl.
    right; right. exists ps, (clock w).
    rewrite (alter_found _ _ _ _ Hps).
    destruct (storeFails w OpCreateMarketMaking); simpl.
    + repeat split; auto.
    + repeat split; auto. right; right. eexists. repeat split; reflexivity.
  - destruct (storeFails w OpCreatePaymentState); [left; reflexivity |]. simpl.
    right; left. repeat split; auto. eexists. split; [| reflexivity]. reflexivity.
Qed.

Lemma backed_kept (w w' : World) trace snapshot other balanceA balanceB :
  legMove trace snapshot w w' ->
  backed other balanceA balanceB w -> backed other balanceA balanceB w'.
Proof.
  intros Hmove (ps & Hps & Hset & HA & HB). exists ps.
  split; [| auto].
  destruct Hmove as [Hsame | [Hfirst | Hsecond]].
  - injection Hsame as -> _ _. exact Hps.
  - destruct Hfirst as (Hnone & (ps1 & _ & ->) & _).
    rewrite lookup_insert_ne by congruence. exact Hps.
  - destruct Hsecond as (ps0 & now & Hps0 & Hunset & -> & _).
    rewrite lookup_insert_ne; [exact Hps | congruence].
Qed.

Lemma legMove_ordersBacked (w w' : World) trace snapshot :
  namedAsset snapshot -> legMove trace snapshot w w' ->
  ordersBacked w -> ordersBacked w'.
Proof.
  intros Hn Hmove [Harb Hmm].
  assert (Hold : ∀ other a b, backed other a b w -> backed other a b w')
    by (intros; eapply backed_kept; eassumption).
  assert (Hnew : ∀ ps now, paymentStates w !! trace = Some ps ->
            paymentStates w' =
              <[trace := applyLeg2 (secondLeg snapshot now) ps]> (paymentStates w) ->
            backed trace (firstAssetAmount ps) (amount snapshot) w').
  { intros ps now Hps Hp. eexists. split; [rewrite Hp; apply lookup_insert_eq |].
    split; [apply truthy_named, Hn |]. split; reflexivity. }
  destruct Hmove as [Hsame | [Hfirst | Hsecond]].
  - injection Hsame as _ Ha Hm. split; intros o Ho.
    + rewrite Ha in Ho. auto.
    + rewrite Hm in Ho. auto.
  - destruct Hfirst as (_ & _ & Ha & Hm). split; intros o Ho.
    + rewrite Ha in Ho. auto.
    + rewrite Hm in Ho. auto.
  - destruct Hsecond as (ps & now & Hps & Hunset & Hp & Horders).
    destruct Horders
      as [[Ha Hm] | [(o1 & Hid & HA & HB & Ha & Hm) | (o1 & Hid & HA & HB & Hm & Ha)]];
      split; intros o Ho.
    + rewrite Ha in Ho. auto.
    + rewrite Hm in Ho. auto.
    + rewrite Ha in Ho. apply in_app_or in Ho as [Ho | [<- | []]]; [auto |].
      rewrite Hid, HA, HB. eapply Hnew; eassumption.
    + rewrite Hm in Ho. auto.
    + rewrite Ha in Ho. auto.
    + rewrite Hm in Ho. apply in_app_or in Ho as [Ho | [<- | []]]; [auto |].
      rewrite Hid, HA, HB. eapply Hnew; eassumption.
Qed.

Lemma step_ordersBacked (st : Step) (w : World) :
  stepNamed st ->
  ordersBacked w ∧ Forall (fun e => namedAsset (snapshotOf e)) (emitted w) ->
  ordersBacked (step env st w)
  ∧ Forall (fun e => namedAsset (snapshotOf e)) (emitted (step env st w)).
Proof.
  intros Hst [Hb Hq].
  assert (Hsame : ∀ w' : World, strategyTables w' = strategyTables w -> ordersBacked w').
  { intros w' Heq. injection Heq as Hp Ha Hm. destruct Hb as [Harb Hmm].
    split; intros o Ho; [rewrite Ha in Ho; destruct (Harb o Ho) as (ps & ?)
                        | rewrite Hm in Ho; destruct (Hmm o Ho) as (ps & ?)];
      exists ps; rewrite Hp; assumption. }
  destruct st as [snapshot | | sf mf outputs]; simpl.
  - split; [apply Hsame, handleSnapshot_keeps_strategyTables |].
    destruct (handleSnapshot_emitted env w snapshot) as [-> | (e & He & ->)];
      [exact Hq |].
    apply Forall_app. split; [exact Hq |].
    constructor; [rewrite He; exact Hst | constructor].
  - destruct (emitted w) as [| e rest] eqn:Hem; [split; [exact Hb | rewrite Hem; exact Hq] |].
    inversion Hq as [| ? ? He Hrest]; subst.
    split.
    + assert (Hb0 : ordersBacked (set_emitted rest w)) by (apply Hsame; reflexivity).
      destruct e as [d s | d s | d s]; unfold deliver; simpl.
      * exact Hb0.
      * eapply legMove_ordersBacked; [exact He | apply arbitrage_legMove | exact Hb0].
      * eapply legMove_ordersBacked; [exact He | apply market_making_legMove | exact Hb0].
    + pose proof (listener_keeps_intakeState env e (set_emitted rest w)) as Hk.
      unfold deliver. injection Hk as _ Hk. rewrite Hk. exact Hrest.
  - split; [apply Hsame; reflexivity | exact Hq].
Qed.

(** Handlers run one at a time keep every order backed by its payment
    state. *)
Lemma run_ordersBacked (steps : list Step) (w : World) :
  arbitrageOrders w = [] -> marketMakingOrders w = [] -> emitted w = [] ->
  Forall stepNamed steps ->
  ordersBacked (run env steps w).
Proof.
  intros Ha Hm He Hsteps.
  assert (Hinv : ordersBacked w ∧ Forall (fun e => namedAsset (snapshotOf e)) (emitted w)).
  { split; [split; intros o Ho; [rewrite Ha in Ho | rewrite Hm in Ho]; destruct Ho |].
    rewrite He. constructor. }
  clear Ha Hm He. revert w Hinv.
  induction Hsteps as [| st steps Hst Hrest IH]; intros w Hinv; [apply Hinv |].
  simpl. apply IH. apply step_ordersBacked; assumption.
Qed.

(** ** The dedup check *)

(** X2.  [handleSnapshot] rejects exactly when the dedup read rejects, and
    then it has done nothing.  Whatever the memo, the other store calls and
    the ledger do, every other call returns normally. *)
Theorem only_the_dedup_read_rejects (w : World) (snapshot : SafeSnapshot) :
  (storeFails w OpCheckSnapshotExist = true ->
   handleSnapshot env snapshot w = (Thrown "StoreError", w))
  ∧ (storeFails w OpCheckSnapshotExist = false ->
     (handleSnapshot env snapshot w).1 = Returned tt).
Proof.
  split; intros Hcheck.
  - unfold handleSnapshot, repo_checkSnapshotExist. eval_monad.
    rewrite Hcheck. reflexivity.
  - destruct (Nat.eq_dec (markersFor (snapshot_id snapshot) w) 0) as [Hfresh | Hseen].
    + apply (handleSnapshot_fresh env w snapshot Hcheck Hfresh).
    + rewrite (handleSnapshot_seen env w snapshot Hcheck Hseen). reflexivity.
Qed.

Lemma handleSnapshot_markers (w : World) snapshot id :
  markersFor id w ≠ 0 -> markersFor id (handleSnapshot env snapshot w).2 ≠ 0.
Proof.
  intros Hseen. unfold markersFor in *.
  destruct (handleSnapshot_archive w snapshot) as [-> | ->]; [exact Hseen |].
  rewrite map_app, count_occ_app. lia.
Qed.

Lemma handleSnapshot_archived (w : World) snapshot :
  storeFails w OpCheckSnapshotExist = false ->
  storeFails w OpCreateSnapshot = false ->
  markersFor (snapshot_id snapshot) (handleSnapshot env snapshot w).2 ≠ 0.
Proof.
  intros Hcheck Hcreate.
  destruct (Nat.eq_dec (markersFor (snapshot_id snapshot) w) 0) as [Hfresh | Hseen].
  - destruct (handleSnapshot_fresh env w snapshot Hcheck Hfresh) as (_ & Hrow & _).
    rewrite Hcreate in Hrow.
    rewrite (markersFor_append w _ snapshot Hrow). lia.
  - apply handleSnapshot_markers, Hseen.
Qed.

Lemma handleSnapshot_storeFails (w : World) snapshot :
  storeFails (handleSnapshot env snapshot w).2 = storeFails w.
Proof.
  pose proof (handleSnapshot_keeps_surroundings env snapshot w) as Hk.
  injection Hk as Hk _ _. exact Hk.
Qed.

Lemma intakeAll_cons (w : World) snapshot batch :
  intakeAll env (snapshot :: batch) w =
  intakeAll env batch (handleSnapshot env snapshot w).2.
Proof. reflexivity. Qed.

Lemma intakeAll_storeFails (batch : list SafeSnapshot) (w : World) :
  storeFails (intakeAll env batch w) = storeFails w.
Proof.
  revert w. induction batch as [| s batch IH]; intros w; [reflexivity |].
  rewrite intakeAll_cons, IH. apply handleSnapshot_storeFails.
Qed.

Lemma intakeAll_markers (batch : list SafeSnapshot) (w : World) id :
  markersFor id w ≠ 0 -> markersFor id (intakeAll env batch w) ≠ 0.
Proof.
  revert w. induction batch as [| s batch IH]; intros w Hseen; [exact Hseen |].
  rewrite intakeAll_cons. apply IH, handleSnapshot_markers, Hseen.
Qed.

Lemma intakeAll_archived (batch : list SafeSnapshot) (w : World) :
  storeFails w OpCheckSnapshotExist = false ->
  storeFails w OpCreateSnapshot = false ->
  Forall (fun s => markersFor (snapshot_id s) (intakeAll env batch w) ≠ 0) batch.
Proof.
  revert w. induction batch as [| s batch IH]; intros w Hcheck Hcreate; [constructor |].
  rewrite intakeAll_cons. constructor.
  - apply intakeAll_markers, handleSnapshot_archived; assumption.
  - apply IH; rewrite handleSnapshot_storeFails; assumption.
Qed.

Lemma intakeAll_seen (batch : list SafeSnapshot) (w : World) :
  storeFails w OpCheckSnapshotExist = false ->
  Forall (fun s => markersFor (snapshot_id s) w ≠ 0) batch ->
  intakeAll env batch w = w.
Proof.
  intros Hcheck Hall. induction Hall as [| s batch Hs Hrest IH]; [reflexivity |].
  rewrite intakeAll_cons, (handleSnapshot_seen env w s Hcheck Hs). exact IH.
Qed.

(** X1.  Fetching the same batch again changes nothing.  With the archive
    reads and writes answering, taking in a batch, then any transfers of
    that batch once more (as the poller does on every tick, the ledger
    returning transfers already seen), gives the world of taking the batch
    in once: no second event, payment-state change, order or archive row. *)
Theorem refetched_batch_is_a_no_op (batch again : list SafeSnapshot) (w : World) :
  storeFails w OpCheckSnapshotExist = false ->
  storeFails w OpCreateSnapshot = false ->
  again ⊆ batch ->
  intakeAll env (batch ++ again) w = intakeAll env batch w.
Proof.
  intros Hcheck Hcreate Hsub.
  unfold intakeAll at 1. rewrite map_app. unfold run. rewrite fold_left_app.
  fold (run env (map Intake batch) w). fold (intakeAll env batch w).
  fold (run env (map Intake again) (intakeAll env batch w)).
  fold (intakeAll env again (intakeAll env batch w)).
  apply intakeAll_seen; [rewrite intakeAll_storeFails; exact Hcheck |].
  pose proof (intakeAll_archived batch w Hcheck Hcreate) as Hall.
  rewrite Forall_forall in Hall |- *. intros s Hs. apply Hall, Hsub, Hs.
Qed.

Lemma handleSnapshot_appends_fresh (w : World) snapshot :
  snapshotsTable (handleSnapshot env snapshot w).2 = snapshotsTable w
  ∨ (markersFor (snapshot_id snapshot) w = 0
     ∧ snapshotsTable (handleSnapshot env snapshot w).2 = snapshotsTable w ++ [snapshot]).
Proof.
  destruct (storeFails w OpCheckSnapshotExist) eqn:Hcheck.
  - left. unfold handleSnapshot, repo_checkSnapshotExist. eval_monad.
    rewrite Hcheck. reflexivity.
  - destruct (Nat.eq_dec (markersFor (snapshot_id snapshot) w) 0) as [Hfresh | Hseen].
    + destruct (handleSnapshot_fresh env w snapshot Hcheck Hfresh) as (_ & Hrow & _).
      destruct (storeFails w OpCreateSnapshot); [left | right; split; [exact Hfresh |]];
        exact Hrow.
    + left. rewrite (handleSnapshot_seen env w snapshot Hcheck Hseen). reflexivity.
Qed.

(** Handlers run one at a time archive no transfer twice. *)
Lemma run_markers_unique (steps : list Step) (w : World) :
  (∀ id, markersFor id w <= 1) ->
  ∀ id, markersFor id (run env steps w) <= 1.
Proof.
  revert w. induction steps as [| st steps IH]; intros w Hu; [exact Hu |].
  simpl. apply IH. clear IH. intros id.
  destruct st as [snapshot | | sf mf outputs]; simpl.
  - unfold markersFor.
    destruct (handleSnapshot_appends_fresh w snapshot) as [-> | [Hfresh ->]];
      [apply Hu |].
    rewrite map_app, count_occ_app. simpl.
    destruct (string_dec (snapshot_id snapshot) id) as [<- | Hne].
    + unfold markersFor in Hfresh. rewrite Hfresh. reflexivity.
    + specialize (Hu id). unfold markersFor in Hu. lia.
  - destruct (emitted w) as [| e rest]; [apply Hu |].
    pose proof (listener_keeps_intakeState env e (set_emitted rest w)) as Hk.
    injection Hk as Hk _. unfold deliver, markersFor. rewrite Hk. apply Hu.
  - apply Hu.
Qed.

(** ** A transfer that could not be archived *)

Lemma drain_one (w : World) (e : Event SpotMemoDetails) :
  emitted w = [e] -> drain env w = deliver env e (set_emitted [] w).
Proof. intros He. unfold drain. rewrite He. reflexivity. Qed.

(** X10.  A transfer that could not be archived funds both legs.  When the
    archive write rejects (and the other store calls answer), a valid
    arbitrage transfer processed twice is recorded first as leg 1 and then
    as leg 2 of its own trace id: one order is created whose balanceA and
    balanceB are both the amount of that single transfer, and the transfer
    is still not archived. *)
Theorem unarchived_transfer_fills_both_legs
    (w : World) (snapshot : SafeSnapshot) (details : ArbitrageMemoDetails) :
  storeFails w OpCreateSnapshot = true ->
  (∀ op, op ≠ OpCreateSnapshot -> storeFails w op = false) ->
  markersFor (snapshot_id snapshot) w = 0 ->
  emitted w = [] ->
  spec_decode env snapshot = Some (ArbitrageCreate details snapshot) ->
  validAsset env (arb_symbol details) snapshot ->
  paymentStates w !! arb_traceId details = None ->
  let w2 := processSnapshot env snapshot (processSnapshot env snapshot w) in
  snapshotsTable w2 = snapshotsTable w
  ∧ ∃ o ps,
      arbitrageOrders w2 = arbitrageOrders w ++ [o]
      ∧ ao_orderId o = arb_traceId details
      ∧ ao_balanceA o = amount snapshot ∧ ao_balanceB o = amount snapshot
      ∧ paymentStates w2 !! arb_traceId details = Some ps
      ∧ firstSnapshotId ps = snapshot_id snapshot
      ∧ secondSnapshotId ps = Some (snapshot_id snapshot).
Proof.
  intros Hfail Hok Hfresh Hidle Hmemo (b & t & Hp & Hv) Hnone w2. subst w2.
  assert (Hpass : ∀ v : World,
            storeFails v = storeFails w -> markersFor (snapshot_id snapshot) v = 0 ->
            emitted v = [] ->
            ∃ v', processSnapshot env snapshot v =
                    (handleArbitrageCreate env (Some details) (Some snapshot) v').2
                  ∧ storeFails v' = storeFails w
                  ∧ strategyTables v' = strategyTables v
                  ∧ snapshotsTable v' = snapshotsTable v
                  ∧ emitted v' = []).
  { intros v Hs Hm He.
    assert (Hcheck : storeFails v OpCheckSnapshotExist = false)
      by (rewrite Hs; apply Hok; discriminate).
    destruct (handleSnapshot_fresh env v snapshot Hcheck Hm) as (_ & Hrow & Hem & _).
    rewrite Hs, Hfail in Hrow. rewrite Hmemo, He in Hem. simpl in Hem.
    exists (set_emitted [] (handleSnapshot env snapshot v).2).
    split; [unfold processSnapshot; rewrite (drain_one _ _ Hem); reflexivity |].
    split; [simpl; rewrite handleSnapshot_storeFails; exact Hs |].
    split; [apply (handleSnapshot_keeps_strategyTables env snapshot v) |].
    split; [exact Hrow | reflexivity]. }
  destruct (Hpass w eq_refl Hfresh Hidle) as (v1 & -> & Hs1 & Ht1 & Hrow1 & He1).
  injection Ht1 as Hp1 Ha1 Hm1.
  assert (Hh1 : ∀ op, op ≠ OpCreateSnapshot -> storeFails v1 op = false)
    by (intros op Hop; rewrite Hs1; apply Hok, Hop).
  rewrite (arbitrage_first_leg env v1 details snapshot b t
             (Hh1 OpFindPaymentState ltac:(discriminate)) Hp Hv
             ltac:(rewrite Hp1; exact Hnone)
             (Hh1 OpCreatePaymentState ltac:(discriminate))).
  cbn [snd].
  match goal with |- context [processSnapshot env snapshot ?v] => set (w1 := v) end.
  destruct (Hpass w1 Hs1) as (v2 & -> & Hs2 & Ht2 & Hrow2 & He2).
  { unfold markersFor, w1. simpl. rewrite Hrow1. exact Hfresh. }
  { unfold w1. simpl. exact He1. }
  injection Ht2 as Hp2 Ha2 Hm2.
  assert (Hh2 : ∀ op, op ≠ OpCreateSnapshot -> storeFails v2 op = false)
    by (intros op Hop; rewrite Hs2; apply Hok, Hop).
  rewrite (arbitrage_second_leg env v2 details snapshot b t
             (Hh2 OpFindPaymentState ltac:(discriminate)) Hp
             (firstLeg "arbitrage" (arb_traceId details) (arb_symbol details)
                snapshot (clock v1))
             Hv ltac:(rewrite Hp2; unfold w1; simpl; apply lookup_insert_eq)
             eq_refl (Hh2 OpUpdatePaymentState ltac:(discriminate))
             (Hh2 OpCreateArbitrage ltac:(discriminate))).
  simpl. split; [rewrite Hrow2; unfold w1; simpl; exact Hrow1 |].
  do 2 eexists. split; [rewrite Ha2; unfold w1; simpl; rewrite Ha1; reflexivity |].
  split; [reflexivity |]. split; [reflexivity |]. split; [reflexivity |].
  split; [apply lookup_insert_eq |]. split; reflexivity.
Qed.

(** ** Legs of different kinds *)

(** X9.  The second leg is checked against its own instruction only.  A
    payment state opened by an arbitrage instruction and awaiting its second
    leg is completed by a market-making instruction that carries the same
    trace id: a market-making order is created (no arbitrage order), for the
    pair and the sender of the second transfer, while the payment state keeps
    the type 'arbitrage' and the symbol of the first instruction. *)
Theorem market_making_completes_arbitrage_state
    (w : World) (first second : SafeSnapshot)
    (arb : ArbitrageMemoDetails) (mm : MarketMakingMemoDetails) :
  storeHealthy w ->
  mm_traceId mm = arb_traceId arb ->
  validAsset env (arb_symbol arb) first ->
  validAsset env (mm_symbol mm) second ->
  paymentStates w !! arb_traceId arb = None ->
  let w2 :=
    (handleMarketMakingCreate env (Some mm) (Some second)
       (handleArbitrageCreate env (Some arb) (Some first) w).2).2 in
  arbitrageOrders w2 = arbitrageOrders w
  ∧ ∃ o ps,
      marketMakingOrders w2 = marketMakingOrders w ++ [o]
      ∧ mo_orderId o = arb_traceId arb
      ∧ mo_pair o = mm_symbol mm
      ∧ mo_userId o = opponent_id second
      ∧ mo_balanceA o = amount first ∧ mo_balanceB o = amount second
      ∧ paymentStates w2 !! arb_traceId arb = Some ps
      ∧ type ps = "arbitrage" ∧ symbol ps = arb_symbol arb.
Proof.
  intros Hh Ht (b1 & t1 & Hp1 & Hv1) (b2 & t2 & Hp2 & Hv2) Hnone w2. subst w2.
  rewrite (arbitrage_first_leg env w arb first b1 t1 (Hh _) Hp1 Hv1 Hnone (Hh _)).
  cbn [snd].
  match goal with |- context [handleMarketMakingCreate _ _ _ ?w1] =>
    rewrite (market_making_second_leg env w1 mm second b2 t2 (Hh _) Hp2
               (firstLeg "arbitrage" (arb_traceId arb) (arb_symbol arb) first (clock w))
               Hv2 ltac:(simpl; rewrite Ht; apply lookup_insert_eq)
               eq_refl (Hh _) (Hh _))
  end.
  simpl. split; [reflexivity |]. do 2 eexists.
  split; [reflexivity |]. split; [exact Ht |].
  split; [reflexivity |]. split; [reflexivity |].
  split; [reflexivity |]. split; [reflexivity |].
  split; [rewrite Ht; apply lookup_insert_eq |]. split; reflexivity.
Qed.

End RunProperties.

(** * Handlers that overlap *)

Section OverlapProperties.

Context {SpotMemoDetails : Type} (env : Env SpotMemoDetails).

#[local] Existing Instances M_ret M_bind.

Local Abbreviation World := (World SpotMemoDetails).
Local Abbreviation Event := (Event SpotMemoDetails).
Local Abbreviation Running := (Running SpotMemoDetails).

Ltac eval_resume :=
  unfold arbitrageAfterFind, marketMakingAfterFind, resolvePair,
    getRFC3339Timestamp, createPaymentState, updatePaymentStateById,
    createArbitrage, createMarketMaking;
  eval_monad; simpl.

(** ** The cuts are the handlers *)

Lemma handleArbitrageCreate_cut details snapshot :
  handleArbitrageCreate env (Some details) (Some snapshot) =
  (paymentState ← findPaymentStateByIdRaw (arb_traceId details);
   arbitrageAfterFind env details snapshot paymentState).
Proof. reflexivity. Qed.

Lemma handleMarketMakingCreate_cut details snapshot :
  handleMarketMakingCreate env (Some details) (Some snapshot) =
  (paymentState ← findPaymentStateByIdRaw (mm_traceId details);
   marketMakingAfterFind env details snapshot paymentState).
Proof. reflexivity. Qed.

Lemma listener_cut (e : Event) (w : World) :
  listener env e w =
  (paymentState ← findFor e; resume env (AtFind e paymentState)) w.
Proof. destruct e; reflexivity. Qed.

(** ** Runs without overlap *)

(** Resuming each handler right after its read is the step of [run]. *)
Lemma serial_step (st : Step) (w : World) :
  turns env (serial st) (idle w) = idle (step env st w).
Proof.
  destruct st as [snapshot | | sf mf outputs]; unfold turns, idle; simpl.
  - rewrite handleSnapshot_cut. unfold mbind, M_bind, bind.
    destruct (repo_checkSnapshotExist (snapshot_id snapshot) w) as [[seen | message] w1];
      reflexivity.
  - destruct (emitted w) as [| e rest]; [reflexivity |].
    unfold deliver. rewrite listener_cut. unfold mbind, M_bind, bind.
    destruct (findFor e (set_emitted rest w)) as [[paymentState | message] w1];
      reflexivity.
  - reflexivity.
Qed.

Lemma oneByOne_run (steps : list Step) (w : World) :
  turns env (oneByOne steps) (idle w) = idle (run env steps w).
Proof.
  revert w. induction steps as [| st steps IH]; intros w; [reflexivity |].
  unfold oneByOne. simpl. unfold turns. rewrite fold_left_app.
  fold (turns env (serial st) (idle w)). rewrite serial_step. apply IH.
Qed.

(** ** What a resumed listener does *)

Section ArbitrageResumes.

Variables (w : World) (details : ArbitrageMemoDetails) (snapshot : SafeSnapshot).
Variables (baseAssetID targetAssetID : string).
Hypothesis Hpair :
  getAssetIDBySymbol env (arb_symbol details) = Some (baseAssetID, targetAssetID).
Hypothesis Hvalid :
  asset_id snapshot = baseAssetID ∨ asset_id snapshot = targetAssetID.

Lemma arbitrageAfterFind_first :
  storeFails w OpCreatePaymentState = false ->
  arbitrageAfterFind env details snapshot None w =
  (Returned tt,
   set_paymentStates
     (<[arb_traceId details :=
          firstLeg "arbitrage" (arb_traceId details) (arb_symbol details)
            snapshot (clock w)]> (paymentStates w))
     (set_clock (S (clock w)) w)).
Proof.
  intros Hcreate. eval_resume. rewrite Hpair. simpl.
  rewrite valid_test by assumption. simpl. rewrite Hcreate. reflexivity.
Qed.

(** The state passed in is the one read before the [await]; the update
    lands on whatever the table holds by now. *)
Lemma arbitrageAfterFind_second paymentState :
  truthy (secondAssetId paymentState) = false ->
  storeFails w OpUpdatePaymentState = false ->
  storeFails w OpCreateArbitrage = false ->
  arbitrageAfterFind env details snapshot (Some paymentState) w =
  (Returned tt,
   set_arbitrageOrders
     (arbitrageOrders w ++
      [{| ao_orderId := arb_traceId details;
          ao_userId := opponent_id snapshot;
          ao_pair := arb_symbol details;
          ao_amountToTrade := "1";
          ao_minProfitability := "0.01";
          ao_exchangeAName := exchangeAName details;
          ao_exchangeBName := exchangeBName details;
          ao_balanceA := firstAssetAmount paymentState;
          ao_balanceB := amount snapshot;
          ao_state := "created";
          ao_createdAt := S (clock w) |}])
     (set_paymentStates
        (alter (applyLeg2 (secondLeg snapshot (clock w))) (arb_traceId details)
           (paymentStates w))
        (set_clock (S (S (clock w))) w))).
Proof.
  intros Hunset Hupdate Hcreate. eval_resume. rewrite Hpair. simpl.
  rewrite valid_test by assumption. rewrite Hunset. simpl.
  rewrite Hupdate. simpl. rewrite Hcreate. reflexivity.
Qed.

Lemma arbitrageAfterFind_complete paymentState :
  truthy (secondAssetId paymentState) = true ->
  arbitrageAfterFind env details snapshot (Some paymentState) w = (Returned tt, w).
Proof.
  intros Hset. eval_resume. rewrite Hpair. simpl.
  rewrite valid_test by assumption. rewrite Hset. reflexivity.
Qed.

End ArbitrageResumes.

Lemma marketMakingAfterFind_complete (w : World) details snapshot paymentState :
  validAsset env (mm_symbol details) snapshot ->
  truthy (secondAssetId paymentState) = true ->
  marketMakingAfterFind env details snapshot (Some paymentState) w = (Returned tt, w).
Proof.
  intros (b & t & Hp & Hv) Hset. eval_resume. rewrite Hp. simpl.
  rewrite valid_test by assumption. rewrite Hset. reflexivity.
Qed.

(** An order is appended only by a listener that read a payment state
    without second asset, and that listener has then written the second leg
    to the row of the trace id. *)
Lemma arbitrageAfterFind_orders (w : World) details snapshot found :
  let w' := (arbitrageAfterFind env details snapshot found w).2 in
  arbitrageOrders w' ≠ arbitrageOrders w
  ∨ marketMakingOrders w' ≠ marketMakingOrders w ->
  ∃ ps, found = Some ps ∧ truthy (secondAssetId ps) = false
        ∧ paymentStates w' =
            alter (applyLeg2 (secondLeg snapshot (clock w))) (arb_traceId details)
              (paymentStates w).
Proof.
  intros w' Hchanged.
  destruct found as [ps |];
    [destruct (truthy (secondAssetId ps)) eqn:Hset |];
    [exfalso | exists ps; split; [reflexivity |]; split; [exact Hset |] | exfalso];
    subst w'; revert Hchanged; eval_resume;
    (destruct (getAssetIDBySymbol env (arb_symbol details)) as [[b t] |]; simpl;
     [| intros [H | H]; exfalso; apply H; reflexivity]);
    (destruct (bool_decide (asset_id snapshot ≠ b) && bool_decide (asset_id snapshot ≠ t));
     [pose proof (refund_keeps_strategyTables env snapshot w) as Hk;
      injection Hk as _ Ha Hm; intros [H | H]; exfalso; apply H; assumption |]).
  - rewrite Hset. simpl. intros [H | H]; apply H; reflexivity.
  - rewrite Hset. simpl.
    destruct (storeFails w OpUpdatePaymentState); simpl;
      [intros [H | H]; exfalso; apply H; reflexivity |].
    destruct (storeFails w OpCreateArbitrage); simpl; reflexivity.
  - destruct (storeFails w OpCreatePaymentState); simpl;
      intros [H | H]; apply H; reflexivity.
Qed.

Lemma marketMakingAfterFind_orders (w : World) details snapshot found :
  let w' := (marketMakingAfterFind env details snapshot found w).2 in
  arbitrageOrders w' ≠ arbitrageOrders w
  ∨ marketMakingOrders w' ≠ marketMakingOrders w ->
  ∃ ps, found = Some ps ∧ truthy (secondAssetId ps) = false
        ∧ paymentStates w' =
            alter (applyLeg2 (secondLeg snapshot (clock w))) (mm_traceId details)
              (paymentStates w).
Proof.
  intros w' Hchanged.
  destruct found as [ps |];
    [destruct (truthy (secondAssetId ps)) eqn:Hset |];
    [exfalso | exists ps; split; [reflexivity |]; split; [exact Hset |] | exfalso];
    subst w'; revert Hchanged; eval_resume;
    (destruct (getAssetIDBySymbol env (mm_symbol details)) as [[b t] |]; simpl;
     [| intros [H | H]; exfalso; apply H; reflexivity]);
    (destruct (bool_decide (asset_id snapshot ≠ b) && bool_decide (asset_id snapshot ≠ t));
     [pose proof (refund_keeps_strategyTables env snapshot w) as Hk;
      injection Hk as _ Ha Hm; intros [H | H]; exfalso; apply H; assumption |]).
  - rewrite Hset. simpl. intros [H | H]; apply H; reflexivity.
  - rewrite Hset. simpl.
    destruct (storeFails w OpUpdatePaymentState); simpl;
      [intros [H | H]; exfalso; apply H; reflexivity |].
    destruct (storeFails w OpCreateMarketMaking); simpl; reflexivity.
  - destruct (storeFails w OpCreatePaymentState); simpl;
      intros [H | H]; apply H; reflexivity.
Qed.

(** ** Single turns *)

Lemma turns_cons (t : Turn) (ts : list Turn) (r : Running) :
  turns env (t :: ts) r = turns env ts (turn env t r).
Proof. reflexivity. Qed.

Lemma turn_start (r : Running) snapshot :
  storeFails (shared r) OpCheckSnapshotExist = false ->
  markersFor (snapshot_id snapshot) (shared r) = 0 ->
  turn env (Start snapshot) r =
  {| shared := shared r; suspended := suspended r ++ [AtCheck snapshot false] |}.
Proof.
  intros Hcheck Hfresh. simpl. unfold repo_checkSnapshotExist, storeCall.
  rewrite Hcheck, markers_exist. unfold markersFor in Hfresh. rewrite Hfresh.
  reflexivity.
Qed.

Lemma turn_listen_arbitrage (r : Running) details snapshot rest :
  storeFails (shared r) OpFindPaymentState = false ->
  emitted (shared r) = ArbitrageCreate details snapshot :: rest ->
  turn env Listen r =
  {| shared := set_emitted rest (shared r);
     suspended :=
       suspended r ++
       [AtFind (ArbitrageCreate details snapshot)
          (paymentStates (shared r) !! arb_traceId details)] |}.
Proof.
  intros Hfind He. simpl. rewrite He. simpl.
  unfold findPaymentStateByIdRaw, storeCall. simpl. rewrite Hfind. reflexivity.
Qed.

(** ** Two listeners that both read before either writes *)

Section TwoListeners.

Variables (w : World) (d1 d2 : ArbitrageMemoDetails) (s1 s2 : SafeSnapshot).
Hypothesis Hhealthy : storeHealthy w.
Hypothesis Htrace : arb_traceId d2 = arb_traceId d1.
Hypothesis Hvalid1 : validAsset env (arb_symbol d1) s1.
Hypothesis Hvalid2 : validAsset env (arb_symbol d2) s2.
Hypothesis Hqueue : emitted w = [ArbitrageCreate d1 s1; ArbitrageCreate d2 s2].

Lemma both_listen :
  turns env [Listen; Listen] (idle w) =
  {| shared := set_emitted [] w;
     suspended :=
       [AtFind (ArbitrageCreate d1 s1) (paymentStates w !! arb_traceId d1);
        AtFind (ArbitrageCreate d2 s2) (paymentStates w !! arb_traceId d1)] |}.
Proof.
  rewrite turns_cons.
  rewrite (turn_listen_arbitrage (idle w) d1 s1 [ArbitrageCreate d2 s2]
             (Hhealthy _) Hqueue).
  rewrite turns_cons.
  match goal with
  | |- context [turn env Listen ?r] =>
      rewrite (turn_listen_arbitrage r d2 s2 [] (Hhealthy OpFindPaymentState) eq_refl)
  end.
  simpl. rewrite Htrace. reflexivity.
Qed.

(** Both find the payment state awaiting its second leg: each fills the
    second leg and appends an order; the row keeps what the later one
    wrote. *)
Lemma overlapping_second_legs (ps : PaymentState) :
  paymentStates w !! arb_traceId d1 = Some ps ->
  truthy (secondAssetId ps) = false ->
  let r1 := turns env [Listen; Listen; Resume 0] (idle w) in
  let r2 := turns env (bothThenBoth Listen Listen) (idle w) in
  r2 = turn env (Resume 0) r1
  ∧ suspended r2 = []
  ∧ paymentStates (shared r1) !! arb_traceId d1 =
      Some (applyLeg2 (secondLeg s1 (clock w)) ps)
  ∧ paymentStates (shared r2) !! arb_traceId d1 =
      Some (applyLeg2 (secondLeg s2 (S (S (clock w))))
              (applyLeg2 (secondLeg s1 (clock w)) ps))
  ∧ marketMakingOrders (shared r2) = marketMakingOrders w
  ∧ ∃ o1 o2,
      arbitrageOrders (shared r2) = arbitrageOrders w ++ [o1; o2]
      ∧ ao_orderId o1 = arb_traceId d1 ∧ ao_orderId o2 = arb_traceId d1
      ∧ ao_balanceA o1 = firstAssetAmount ps ∧ ao_balanceB o1 = amount s1
      ∧ ao_balanceA o2 = firstAssetAmount ps ∧ ao_balanceB o2 = amount s2.
Proof.
  intros Hps Hunset r1 r2.
  destruct Hvalid1 as (b1 & t1 & Hp1 & Hv1). destruct Hvalid2 as (b2 & t2 & Hp2 & Hv2).
  assert (H1 : r1 = turn env (Resume 0) (turns env [Listen; Listen] (idle w)))
    by reflexivity.
  assert (H2 : r2 = turn env (Resume 0) r1) by reflexivity.
  rewrite both_listen, Hps in H1. simpl in H1.
  match type of H1 with
  | context [arbitrageAfterFind env d1 s1 (Some ps) ?w0] =>
      rewrite (arbitrageAfterFind_second w0 d1 s1 b1 t1 Hp1 Hv1 ps Hunset
                 (Hhealthy OpUpdatePaymentState) (Hhealthy OpCreateArbitrage)) in H1
  end.
  simpl in H1.
  split; [exact H2 |].
  rewrite H1 in H2. simpl in H2.
  match type of H2 with
  | context [arbitrageAfterFind env d2 s2 (Some ps) ?w0] =>
      rewrite (arbitrageAfterFind_second w0 d2 s2 b2 t2 Hp2 Hv2 ps Hunset
                 (Hhealthy OpUpdatePaymentState) (Hhealthy OpCreateArbitrage)) in H2
  end.
  simpl in H2. rewrite H2, H1. simpl.
  split; [reflexivity |].
  split; [rewrite lookup_alter_eq, Hps; reflexivity |].
  split; [rewrite Htrace, !lookup_alter_eq, Hps; reflexivity |].
  split; [reflexivity |].
  do 2 eexists. split; [rewrite <- app_assoc; reflexivity |].
  repeat split; try reflexivity. exact Htrace.
Qed.

(** Both find no payment state: each records a first leg, the later one
    replaces the earlier, and no order is created. *)
Lemma overlapping_first_legs :
  paymentStates w !! arb_traceId d1 = None ->
  let r := turns env (bothThenBoth Listen Listen) (idle w) in
  suspended r = []
  ∧ paymentStates (shared r) !! arb_traceId d1 =
      Some (firstLeg "arbitrage" (arb_traceId d1) (arb_symbol d2) s2 (S (clock w)))
  ∧ arbitrageOrders (shared r) = arbitrageOrders w
  ∧ marketMakingOrders (shared r) = marketMakingOrders w.
Proof.
  intros Hnone r.
  destruct Hvalid1 as (b1 & t1 & Hp1 & Hv1). destruct Hvalid2 as (b2 & t2 & Hp2 & Hv2).
  assert (Hr : r = turn env (Resume 0)
                     (turn env (Resume 0) (turns env [Listen; Listen] (idle w))))
    by reflexivity.
  rewrite both_listen, Hnone in Hr. simpl in Hr.
  match type of Hr with
  | context [arbitrageAfterFind env d1 s1 None ?w0] =>
      rewrite (arbitrageAfterFind_first w0 d1 s1 b1 t1 Hp1 Hv1
                 (Hhealthy OpCreatePaymentState)) in Hr
  end.
  simpl in Hr.
  match type of Hr with
  | context [arbitrageAfterFind env d2 s2 None ?w0] =>
      rewrite (arbitrageAfterFind_first w0 d2 s2 b2 t2 Hp2 Hv2
                 (Hhealthy OpCreatePaymentState)) in Hr
  end.
  simpl in Hr. rewrite Hr. simpl.
  split; [reflexivity |].
  split; [rewrite Htrace; apply lookup_insert_eq |].
  split; reflexivity.
Qed.

End TwoListeners.

(** ** The same transfer handled twice at once *)

Lemma overlapping_intakes (w : World) snapshot :
  storeFails w OpCheckSnapshotExist = false ->
  storeFails w OpCreateSnapshot = false ->
  markersFor (snapshot_id snapshot) w = 0 ->
  let r := turns env (bothThenBoth (Start snapshot) (Start snapshot)) (idle w) in
  suspended r = []
  ∧ snapshotsTable (shared r) = snapshotsTable w ++ [snapshot; snapshot]
  ∧ emitted (shared r) =
      emitted w ++ match spec_decode env snapshot with
                   | Some e => [e; e]
                   | None => []
                   end.
Proof.
  intros Hcheck Hcreate Hfresh r.
  assert (Hr : r = idle (afterCheckSnapshotExist env snapshot false
                           (afterCheckSnapshotExist env snapshot false w).2).2).
  { unfold r, bothThenBoth. rewrite !turns_cons.
    rewrite (turn_start (idle w) snapshot Hcheck Hfresh).
    match goal with
    | |- context [turn env (Start snapshot) ?r0] =>
        rewrite (turn_start r0 snapshot Hcheck Hfresh)
    end.
    reflexivity. }
  rewrite !afterCheckSnapshotExist_fresh in Hr. rewrite Hr.
  destruct (spec_decode env snapshot); destruct (truthy (memo snapshot)); simpl;
    rewrite ?Hcreate; simpl; rewrite ?Hcreate; simpl;
    rewrite <- ?app_assoc, ?app_nil_r; repeat split; reflexivity.
Qed.

(** ** Orders per trace id *)

(** C1 (as amended).  What a listener does with an order depends on the
    payment state it read before its [await]: it appends an order only if
    that state lacked the second asset, and then it writes the second leg
    to the row of the trace id; a listener for a valid transfer that read a
    state with the second asset set changes nothing at all, whenever it
    resumes.  Hence, in every run in which the handlers follow one another
    (each resumed right after its read), from empty tables and with
    transfers naming their asset, no trace id ever has more than one
    strategy order.  Nothing serialises the listeners, though: two of them
    that both read the payment state awaiting its second leg each append an
    order for the trace id. *)
Theorem at_most_one_order_without_overlap :
  (∀ (w : World) details snapshot found,
      let w' := (arbitrageAfterFind env details snapshot found w).2 in
      arbitrageOrders w' ≠ arbitrageOrders w
      ∨ marketMakingOrders w' ≠ marketMakingOrders w ->
      ∃ ps, found = Some ps ∧ truthy (secondAssetId ps) = false
            ∧ ∀ row, paymentStates w !! arb_traceId details = Some row ->
                     ∃ row', paymentStates w' !! arb_traceId details = Some row'
                             ∧ secondAssetId row' = Some (asset_id snapshot))
  ∧ (∀ (w : World) details snapshot found,
        let w' := (marketMakingAfterFind env details snapshot found w).2 in
        arbitrageOrders w' ≠ arbitrageOrders w
        ∨ marketMakingOrders w' ≠ marketMakingOrders w ->
        ∃ ps, found = Some ps ∧ truthy (secondAssetId ps) = false
              ∧ ∀ row, paymentStates w !! mm_traceId details = Some row ->
                       ∃ row', paymentStates w' !! mm_traceId details = Some row'
                               ∧ secondAssetId row' = Some (asset_id snapshot))
  ∧ (∀ (w : World) details snapshot ps,
        validAsset env (arb_symbol details) snapshot ->
        paymentStates w !! arb_traceId details = Some ps ->
        truthy (secondAssetId ps) = true ->
        (handleArbitrageCreate env (Some details) (Some snapshot) w).2 = w
        ∧ ∀ later : World,
            (arbitrageAfterFind env details snapshot
               (paymentStates w !! arb_traceId details) later).2 = later)
  ∧ (∀ (w : World) details snapshot ps,
        validAsset env (mm_symbol details) snapshot ->
        paymentStates w !! mm_traceId details = Some ps ->
        truthy (secondAssetId ps) = true ->
        (handleMarketMakingCreate env (Some details) (Some snapshot) w).2 = w
        ∧ ∀ later : World,
            (marketMakingAfterFind env details snapshot
               (paymentStates w !! mm_traceId details) later).2 = later)
  ∧ (∀ (steps : list Step) (w : World) trace,
        paymentStates w = ∅ -> arbitrageOrders w = [] ->
        marketMakingOrders w = [] -> emitted w = [] ->
        Forall stepNamed steps ->
        ordersFor trace (shared (turns env (oneByOne steps) (idle w))) <= 1)
  ∧ (∀ (w : World) d1 s1 d2 s2 ps,
        storeHealthy w ->
        arb_traceId d2 = arb_traceId d1 ->
        validAsset env (arb_symbol d1) s1 ->
        validAsset env (arb_symbol d2) s2 ->
        emitted w = [ArbitrageCreate d1 s1; ArbitrageCreate d2 s2] ->
        paymentStates w !! arb_traceId d1 = Some ps ->
        truthy (secondAssetId ps) = false ->
        ordersFor (arb_traceId d1)
          (shared (turns env (bothThenBoth Listen Listen) (idle w))) =
        ordersFor (arb_traceId d1) w + 2).
Proof.
  split; [| split; [| split; [| split; [| split]]]].
  - intros w details snapshot found w' Hchanged.
    destruct (arbitrageAfterFind_orders w details snapshot found Hchanged)
      as (ps & Hfound & Hunset & Hrows).
    exists ps. split; [exact Hfound |]. split; [exact Hunset |].
    intros row Hrow. fold w' in Hrows. rewrite Hrows, lookup_alter_eq, Hrow.
    eexists. split; reflexivity.
  - intros w details snapshot found w' Hchanged.
    destruct (marketMakingAfterFind_orders w details snapshot found Hchanged)
      as (ps & Hfound & Hunset & Hrows).
    exists ps. split; [exact Hfound |]. split; [exact Hunset |].
    intros row Hrow. fold w' in Hrows. rewrite Hrows, lookup_alter_eq, Hrow.
    eexists. split; reflexivity.
  - intros w details snapshot ps Hvalid Hps Hset. split.
    + destruct Hvalid as (b & t & Hp & Hv).
      destruct (storeFails w OpFindPaymentState) eqn:Hfind.
      * eval_listener. rewrite Hfind. reflexivity.
      * rewrite (arbitrage_complete env w details snapshot b t Hfind Hp ps Hv Hps Hset).
        reflexivity.
    + intros later. rewrite Hps. destruct Hvalid as (b & t & Hp & Hv).
      rewrite (arbitrageAfterFind_complete later details snapshot b t Hp Hv ps Hset).
      reflexivity.
  - intros w details snapshot ps Hvalid Hps Hset. split.
    + destruct Hvalid as (b & t & Hp & Hv).
      destruct (storeFails w OpFindPaymentState) eqn:Hfind.
      * eval_listener. rewrite Hfind. reflexivity.
      * rewrite (market_making_complete env w details snapshot b t Hfind Hp ps Hv Hps
                   Hset).
        reflexivity.
    + intros later. rewrite Hps.
      rewrite (marketMakingAfterFind_complete later details snapshot ps Hvalid Hset).
      reflexivity.
  - intros steps w trace Hp Ha Hm He Hsteps. rewrite oneByOne_run. simpl.
    apply reconciled_at_most_one.
    apply (run_invariant env steps w Hsteps). split.
    + intros other. left. unfold ordersFor. rewrite Ha, Hm. reflexivity.
    + rewrite He. constructor.
  - intros w d1 s1 d2 s2 ps Hh Ht Hv1 Hv2 Hq Hps Hunset.
    destruct (overlapping_second_legs w d1 d2 s1 s2 Hh Ht Hv1 Hv2 Hq ps Hps Hunset)
      as (_ & _ & _ & _ & Hmm & o1 & o2 & Harb & Hid1 & Hid2 & _).
    unfold ordersFor. rewrite Harb, Hmm, map_app, count_occ_app. simpl.
    rewrite Hid1, Hid2. destruct (string_dec _ _); [lia | contradiction].
Qed.

(** ** The archive *)

(** X3.  A transfer is archived once as long as its handlings do not
    overlap.  In every run in which the handlers follow one another, an
    archive with at most one row per transfer id keeps at most one row per
    transfer id.  But the dedup read and the archive write are two separate
    awaits: when [handleSnapshot] is started twice for a transfer not yet
    archived before either call goes on, both pass the dedup check, and the
    transfer gets two archive rows and its instruction is emitted twice. *)
Theorem archive_rows_unique_without_overlap :
  (∀ (steps : list Step) (w : World),
      (∀ id, markersFor id w <= 1) ->
      ∀ id, markersFor id (shared (turns env (oneByOne steps) (idle w))) <= 1)
  ∧ (∀ (w : World) snapshot,
        storeFails w OpCheckSnapshotExist = false ->
        storeFails w OpCreateSnapshot = false ->
        markersFor (snapshot_id snapshot) w = 0 ->
        let r := turns env (bothThenBoth (Start snapshot) (Start snapshot)) (idle w) in
        suspended r = []
        ∧ snapshotsTable (shared r) = snapshotsTable w ++ [snapshot; snapshot]
        ∧ markersFor (snapshot_id snapshot) (shared r) = 2
        ∧ emitted (shared r) =
            emitted w ++ match spec_decode env snapshot with
                         | Some e => [e; e]
                         | None => []
                         end).
Proof.
  split.
  - intros steps w Hu id. rewrite oneByOne_run. simpl.
    apply run_markers_unique, Hu.
  - intros w snapshot Hcheck Hcreate Hfresh r.
    destruct (overlapping_intakes w snapshot Hcheck Hcreate Hfresh)
      as (Hdone & Hrows & Hevents).
    fold r in Hdone, Hrows, Hevents.
    split; [exact Hdone |]. split; [exact Hrows |]. split; [| exact Hevents].
    unfold markersFor in *. rewrite Hrows, map_app, count_occ_app, Hfresh. simpl.
    destruct (string_dec _ _); [reflexivity | contradiction].
Qed.

(** ** Payment states *)

(** X5.  The first leg of a payment state stays as long as the listeners do
    not overlap.  In every run in which the handlers follow one another, a
    trace id that has a payment state keeps one with the same order id,
    type, symbol, first asset, first amount, first snapshot id and creation
    time.  But two arbitrage listeners for one trace id that both read "no
    payment state" each record a first leg: the row ends up holding the
    later transfer as first leg, the earlier one is lost, and no order is
    created although two legs arrived. *)
Theorem first_leg_kept_without_overlap :
  (∀ (steps : list Step) (w : World) trace ps,
      paymentStates w !! trace = Some ps ->
      ∃ ps', paymentStates (shared (turns env (oneByOne steps) (idle w))) !! trace
               = Some ps'
             ∧ firstLegOf ps' = firstLegOf ps)
  ∧ (∀ (w : World) d1 s1 d2 s2,
        storeHealthy w ->
        arb_traceId d2 = arb_traceId d1 ->
        validAsset env (arb_symbol d1) s1 ->
        validAsset env (arb_symbol d2) s2 ->
        emitted w = [ArbitrageCreate d1 s1; ArbitrageCreate d2 s2] ->
        paymentStates w !! arb_traceId d1 = None ->
        let r := turns env (bothThenBoth Listen Listen) (idle w) in
        suspended r = []
        ∧ (∃ ps', paymentStates (shared r) !! arb_traceId d1 = Some ps'
                  ∧ firstAssetId ps' = asset_id s2
                  ∧ firstAssetAmount ps' = amount s2
                  ∧ firstSnapshotId ps' = snapshot_id s2
                  ∧ secondAssetId ps' = None)
        ∧ arbitrageOrders (shared r) = arbitrageOrders w
        ∧ marketMakingOrders (shared r) = marketMakingOrders w).
Proof.
  split.
  - intros steps w trace ps Hps. rewrite oneByOne_run. simpl.
    apply (run_keeps_first_leg env steps w trace ps Hps).
  - intros w d1 s1 d2 s2 Hh Ht Hv1 Hv2 Hq Hnone r.
    destruct (overlapping_first_legs w d1 d2 s1 s2 Hh Ht Hv1 Hv2 Hq Hnone)
      as (Hdone & Hrow & Ha & Hm).
    fold r in Hdone, Hrow, Ha, Hm.
    split; [exact Hdone |]. split; [| split; assumption].
    eexists. split; [exact Hrow |]. repeat split; reflexivity.
Qed.

(** X6.  A complete payment state stays as it is as long as the listeners
    do not overlap.  In every run in which the handlers follow one another,
    once the second asset of a trace id is set no field of its payment
    state changes.  But a listener that read the state before it was
    completed still writes its own second leg afterwards: of two arbitrage
    listeners that both read the state awaiting its second leg, the first to
    resume completes it with its transfer, and the second overwrites second
    asset, second amount and second snapshot id with those of its own. *)
Theorem complete_state_frozen_without_overlap :
  (∀ (steps : list Step) (w : World) trace ps,
      paymentStates w !! trace = Some ps ->
      truthy (secondAssetId ps) = true ->
      paymentStates (shared (turns env (oneByOne steps) (idle w))) !! trace = Some ps)
  ∧ (∀ (w : World) d1 s1 d2 s2 ps,
        storeHealthy w ->
        arb_traceId d2 = arb_traceId d1 ->
        validAsset env (arb_symbol d1) s1 ->
        validAsset env (arb_symbol d2) s2 ->
        namedAsset s1 ->
        emitted w = [ArbitrageCreate d1 s1; ArbitrageCreate d2 s2] ->
        paymentStates w !! arb_traceId d1 = Some ps ->
        truthy (secondAssetId ps) = false ->
        let r1 := turns env [Listen; Listen; Resume 0] (idle w) in
        let r2 := turn env (Resume 0) r1 in
        ∃ ps1 ps2,
          paymentStates (shared r1) !! arb_traceId d1 = Some ps1
          ∧ truthy (secondAssetId ps1) = true
          ∧ secondAssetId ps1 = Some (asset_id s1)
          ∧ secondAssetAmount ps1 = Some (amount s1)
          ∧ secondSnapshotId ps1 = Some (snapshot_id s1)
          ∧ paymentStates (shared r2) !! arb_traceId d1 = Some ps2
          ∧ secondAssetId ps2 = Some (asset_id s2)
          ∧ secondAssetAmount ps2 = Some (amount s2)
          ∧ secondSnapshotId ps2 = Some (snapshot_id s2)).
Proof.
  split.
  - intros steps w trace ps Hps Hset. rewrite oneByOne_run. simpl.
    apply (run_keeps_complete_state env steps w trace ps Hps Hset).
  - intros w d1 s1 d2 s2 ps Hh Ht Hv1 Hv2 Hn Hq Hps Hunset r1 r2.
    destruct (overlapping_second_legs w d1 d2 s1 s2 Hh Ht Hv1 Hv2 Hq ps Hps Hunset)
      as (Hlast & _ & Hrow1 & Hrow2 & _).
    fold r1 in Hlast, Hrow1. fold r2 in Hlast. rewrite Hlast in Hrow2.
    do 2 eexists. split; [exact Hrow1 |].
    split; [apply truthy_named, Hn |].
    split; [reflexivity |]. split; [reflexivity |]. split; [reflexivity |].
    split; [exact Hrow2 |]. repeat split; reflexivity.
Qed.

(** X8.  Orders match their payment state as long as the listeners do not
    overlap.  In every run in which the handlers follow one another, from no
    order and no pending event and with transfers naming their asset, each
    order has a payment state for its order id whose second leg is set,
    whose first amount is the order's balanceA and whose second amount is
    the order's balanceB.  But when two arbitrage listeners both read the
    state awaiting its second leg, two orders are appended, with the
    amounts of the one and of the other transfer as balanceB, while the
    payment state holds the second amount of the later one only: if the
    amounts differ, the earlier order has no payment state that matches
    it. *)
Theorem orders_backed_without_overlap :
  (∀ (steps : list Step) (w : World),
      arbitrageOrders w = [] -> marketMakingOrders w = [] -> emitted w = [] ->
      Forall stepNamed steps ->
      ordersBacked (shared (turns env (oneByOne steps) (idle w))))
  ∧ (∀ (w : World) d1 s1 d2 s2 ps,
        storeHealthy w ->
        arb_traceId d2 = arb_traceId d1 ->
        validAsset env (arb_symbol d1) s1 ->
        validAsset env (arb_symbol d2) s2 ->
        emitted w = [ArbitrageCreate d1 s1; ArbitrageCreate d2 s2] ->
        paymentStates w !! arb_traceId d1 = Some ps ->
        truthy (secondAssetId ps) = false ->
        let r := turns env (bothThenBoth Listen Listen) (idle w) in
        (∃ o1 o2 ps2,
            arbitrageOrders (shared r) = arbitrageOrders w ++ [o1; o2]
            ∧ ao_orderId o1 = arb_traceId d1 ∧ ao_orderId o2 = arb_traceId d1
            ∧ ao_balanceA o1 = firstAssetAmount ps ∧ ao_balanceB o1 = amount s1
            ∧ ao_balanceA o2 = firstAssetAmount ps ∧ ao_balanceB o2 = amount s2
            ∧ paymentStates (shared r) !! arb_traceId d1 = Some ps2
            ∧ firstAssetAmount ps2 = firstAssetAmount ps
            ∧ secondAssetAmount ps2 = Some (amount s2))
        ∧ (amount s1 ≠ amount s2 -> ¬ ordersBacked (shared r))).
Proof.
  split.
  - intros steps w Ha Hm He Hsteps. rewrite oneByOne_run. simpl.
    apply (run_ordersBacked env steps w Ha Hm He Hsteps).
  - intros w d1 s1 d2 s2 ps Hh Ht Hv1 Hv2 Hq Hps Hunset r.
    destruct (overlapping_second_legs w d1 d2 s1 s2 Hh Ht Hv1 Hv2 Hq ps Hps Hunset)
      as (_ & _ & _ & Hrow & _ & o1 & o2 & Harb & Hid1 & Hid2 & HA1 & HB1 & HA2 & HB2).
    fold r in Hrow, Harb.
    split.
    + exists o1, o2. eexists. split; [exact Harb |].
      repeat (split; [assumption |]). split; [exact Hrow |]. split; reflexivity.
    + intros Hdiffer [Hbacked _].
      destruct (Hbacked o1) as (row & Hlookup & _ & _ & Hsecond).
      { rewrite Harb. apply in_or_app. right. left. reflexivity. }
      rewrite Hid1, Hrow in Hlookup. injection Hlookup as <-.
      rewrite HB1 in Hsecond. simpl in Hsecond. congruence.
Qed.

End OverlapProperties.

(** * Balances, deposits and withdrawals *)

Section BalanceProperties.

Context {SpotMemoDetails : Type} (env : Env SpotMemoDetails).

#[local] Existing Instances M_ret M_bind.

Local Abbreviation World := (World SpotMemoDetails).
Local Abbreviation M := (M SpotMemoDetails).

(** ** Grouping the outputs by asset *)

(** The group of an asset after the outputs [l] have been added to [acc]. *)
Lemma group_fold (l : list SafeUtxoOutput)
    (acc : gmap string (list SafeUtxoOutput)) asset :
  fold_left
    (fun acc output =>
       let assetId := utxo_asset output in
       let acc' :=
         match acc !! assetId with
         | Some _ => acc
         | None => <[assetId := []]> acc
         end in
       alter (fun group => group ++ [output]) assetId acc')
    l acc !! asset =
  match acc !! asset, ofAsset asset l with
  | None, [] => None
  | found, more => Some (default [] found ++ more)
  end.
Proof.
  revert acc. induction l as [| o l IH]; intros acc.
  - simpl. destruct (acc !! asset) as [group |]; [| reflexivity].
    simpl. rewrite app_nil_r. reflexivity.
  - cbn [fold_left]. rewrite IH. clear IH. unfold ofAsset.
    rewrite filter_cons. cbn zeta.
    destruct (decide (utxo_asset o = asset)) as [Heq | Hne].
    + rewrite Heq, lookup_alter, decide_True by reflexivity.
      destruct (acc !! asset) as [group |] eqn:Hacc.
      * rewrite Hacc. simpl. rewrite <- app_assoc. reflexivity.
      * rewrite lookup_insert_eq. simpl. reflexivity.
    + rewrite lookup_alter, decide_False by exact Hne.
      destruct (acc !! utxo_asset o) as [group |] eqn:Hacc.
      * reflexivity.
      * rewrite lookup_insert_ne by exact Hne. reflexivity.
Qed.

Lemma groupByAssetId_lookup (outputs : list SafeUtxoOutput) asset :
  groupByAssetId outputs !! asset =
  match ofAsset asset outputs with
  | [] => None
  | group => Some group
  end.
Proof.
  unfold groupByAssetId. rewrite group_fold, lookup_empty.
  destruct (ofAsset asset outputs); reflexivity.
Qed.

Lemma entries_fold {A B : Type} (g : A -> B) (l : list (string * A))
    (acc : gmap string B) key :
  NoDup (l.*1) ->
  fold_left (fun acc entry => <[entry.1 := g entry.2]> acc) l acc !! key =
  match list_find (fun entry => entry.1 = key) l with
  | Some (_, entry) => Some (g entry.2)
  | None => acc !! key
  end.
Proof.
  revert acc. induction l as [| [k v] l IH]; intros acc Hnd; [reflexivity |].
  rewrite fmap_cons in Hnd. apply NoDup_cons in Hnd as [Hk Hnd].
  cbn [fold_left]. rewrite (IH _ Hnd). clear IH. simpl.
  destruct (decide (k = key)) as [-> | Hne].
  - simpl. destruct (list_find _ l) as [[i entry] |] eqn:Hfind.
    + apply list_find_Some in Hfind as (Hi & He & _).
      exfalso. apply Hk. rewrite <- He.
      apply list_elem_of_fmap. exists entry. split; [reflexivity |].
      eapply list_elem_of_lookup_2, Hi.
    + apply lookup_insert_eq.
  - simpl. destruct (list_find _ l) as [[i entry] |]; simpl; [reflexivity |].
    apply lookup_insert_ne, Hne.
Qed.

Lemma assetBalances_lookup (grouped : gmap string (list SafeUtxoOutput)) asset :
  assetBalances env grouped !! asset =
  (fun group => bnToString env (getTotalBalanceFromOutputs env group))
    <$> grouped !! asset.
Proof.
  unfold assetBalances.
  rewrite (entries_fold (fun group => bnToString env (getTotalBalanceFromOutputs env group)))
    by apply NoDup_fst_map_to_list.
  rewrite lookup_empty.
  destruct (list_find _ _) as [[i [k group]] |] eqn:Hfind.
  - apply list_find_Some in Hfind as (Hi & He & _). simpl in He. subst k.
    apply list_elem_of_lookup_2, elem_of_map_to_list in Hi. rewrite Hi. reflexivity.
  - destruct (grouped !! asset) as [group |] eqn:Hg; [| reflexivity].
    exfalso. apply elem_of_map_to_list in Hg.
    eapply list_find_None in Hfind. rewrite Forall_forall in Hfind.
    apply (Hfind _ Hg). reflexivity.
Qed.

(** X12.  [getAllAssetBalances] reports, per asset, the printed total of
    exactly the returned outputs of that asset.  An asset has an entry if
    and only if at least one returned output carries it, and the entry is
    [getTotalBalanceFromOutputs] of those outputs, in the order returned,
    printed; the world is not changed.  When the outputs call rejects, the
    error is logged and thrown again. *)
Theorem asset_balances_group_by_asset (w : World) :
  (mixinFails w CallSafeOutputs = false ->
   ∃ balances,
     getAllAssetBalances env w = (Returned balances, w)
     ∧ ∀ asset,
         balances !! asset =
         match ofAsset asset (ledgerOutputs w) with
         | [] => None
         | group =>
             Some (bnToString env (getTotalBalanceFromOutputs env group))
         end)
  ∧ (mixinFails w CallSafeOutputs = true ->
     getAllAssetBalances env w =
     (Thrown "MixinError",
      set_logs (logs w ++ [(LogError, "Error fetching asset balances: MixinError")]) w)).
Proof.
  split; intros Hcall.
  - eexists. split.
    + unfold getAllAssetBalances, allOutputs, logger. eval_monad.
      rewrite Hcall. reflexivity.
    + intros asset. rewrite assetBalances_lookup, groupByAssetId_lookup.
      destruct (ofAsset asset (ledgerOutputs w)); reflexivity.
  - unfold getAllAssetBalances, allOutputs, logger. eval_monad.
    rewrite Hcall. reflexivity.
Qed.

(** ** The balance check *)

Lemma getAssetBalance_value (w : World) asset :
  getAssetBalance env asset w =
  if mixinFails w CallSafeOutputs then
    (Returned "0",
     set_logs (logs w ++ [(LogError, "Mixin getAssetBalance() => MixinError")]) w)
  else (Returned (bnToString env (unspentBalance env asset w)), w).
Proof.
  unfold getAssetBalance, safeAssetBalance, safeOutputs, logger, unspentBalance.
  eval_monad. destruct (mixinFails w CallSafeOutputs); reflexivity.
Qed.

Lemma checkMixinBalanceEnough_value (w : World) asset amt :
  (checkMixinBalanceEnough env asset amt w).1 =
  Returned
    (negb (isLessThan
             (BigNumber env
                (if mixinFails w CallSafeOutputs then "0"
                 else bnToString env (unspentBalance env asset w)))
             (BigNumber env amt))).
Proof.
  unfold checkMixinBalanceEnough. unfold tryCatch at 1. unfold mbind at 1.
  unfold M_bind, bind. rewrite getAssetBalance_value.
  destruct (mixinFails w CallSafeOutputs);
    match goal with |- context [isLessThan ?a ?b] => destruct (isLessThan a b) end;
    reflexivity.
Qed.

(** X13.  [checkMixinBalanceEnough] never rejects, and an amount that is not
    a number always passes.  In every world the call returns a boolean; when
    bignumber.js reads the amount as NaN the answer is [true], whatever the
    balance and even when the balance could not be fetched; when the balance
    could not be fetched it is taken to be '0'. *)
Theorem balance_check_edges (w : World) (asset amt : string) :
  (∃ enough, (checkMixinBalanceEnough env asset amt w).1 = Returned enough)
  ∧ (BigNumber env amt = None ->
     (checkMixinBalanceEnough env asset amt w).1 = Returned true)
  ∧ (mixinFails w CallSafeOutputs = true ->
     (checkMixinBalanceEnough env asset amt w).1 =
     Returned (negb (isLessThan (BigNumber env "0") (BigNumber env amt)))).
Proof.
  rewrite checkMixinBalanceEnough_value. split; [eexists; reflexivity |]. split.
  - intros ->. destruct (BigNumber env _); reflexivity.
  - intros ->. reflexivity.
Qed.


(** ** Deposit address *)

(** X15.  [depositAddress] never rejects.  It returns an address exactly
    when both network calls answer and there is at least one deposit entry,
    and then it is the destination and tag of the first entry, with the
    world untouched; when the asset lookup rejects, the entries lookup
    rejects, or the entries are empty, it returns [undefined] and logs one
    error. *)
Theorem deposit_address_never_rejects (net : Network) (asset : string) (w : World) :
  ∃ result,
    (depositAddress net asset w).1 = Returned result
    ∧ (∀ a, result = Some a <->
            ∃ fetched first rest,
              fetchAsset net asset = Returned fetched
              ∧ depositEntries net (a_chain_id fetched) = Returned (first :: rest)
              ∧ a = {| da_address := destination first; da_memo := tag first |})
    ∧ (result = None ->
       ∃ message,
         (depositAddress net asset w).2 =
         set_logs
           (logs w ++ [(LogError, "Failed to get deposit address: " +:+ message)]) w)
    ∧ (result ≠ None -> (depositAddress net asset w).2 = w).
Proof.
  unfold depositAddress, logger. eval_monad.
  destruct (fetchAsset net asset) as [fetched | message] eqn:Hfa.
  - destruct (depositEntries net (a_chain_id fetched)) as [[| first rest] | message]
      eqn:Hde.
    + exists None. split; [reflexivity |]. split; [| split].
      * intros a. split; [discriminate |]. intros (f & x & r & Hf & He & _).
        injection Hf as Hf. subst f. rewrite Hde in He. discriminate He.
      * intros _. eexists. reflexivity.
      * intros Hne. contradiction.
    + eexists. split; [reflexivity |]. split; [| split].
      * intros a. split.
        -- intros [= <-]. exists fetched, first, rest. auto.
        -- intros (f & x & r & Hf & He & ->). injection Hf as Hf. subst f.
           rewrite Hde in He. injection He as <- _. reflexivity.
      * discriminate.
      * intros _. reflexivity.
    + exists None. split; [reflexivity |]. split; [| split].
      * intros a. split; [discriminate |]. intros (f & x & r & Hf & He & _).
        injection Hf as Hf. subst f. rewrite Hde in He. discriminate He.
      * intros _. eexists. reflexivity.
      * intros Hne. contradiction.
  - exists None. split; [reflexivity |]. split; [| split].
    + intros a. split; [discriminate |]. intros (f & x & r & Hf & _). discriminate Hf.
    + intros _. eexists. reflexivity.
    + intros Hne. contradiction.
Qed.

(** ** Ghost keys of a withdrawal *)

Lemma ghost_requests_lookup (ms : list SafeTransactionRecipient) (base j : nat) :
  imap (fun i r => {| gk_receivers := members r; gk_index := i + base |}) ms !! j =
  (fun r => {| gk_receivers := members r; gk_index := j + base |}) <$> ms !! j.
Proof.
  revert base j. induction ms as [| m ms IH]; intros base j; [reflexivity |].
  rewrite imap_cons. destruct j as [| j]; [reflexivity |]. simpl.
  transitivity
    (imap (fun i r => {| gk_receivers := members r; gk_index := i + S base |}) ms !! j).
  - f_equal. apply imap_ext. intros i r _. simpl. f_equal. lia.
  - rewrite IH. destruct (ms !! j); simpl; [do 2 f_equal; lia | reflexivity].
Qed.

Lemma withMembers_tail (first : SafeWithdrawalRecipient)
    (ms : list SafeTransactionRecipient) :
  withMembers (inl first :: map inr ms) = ms.
Proof.
  unfold withMembers. simpl. induction ms as [| m ms IH]; [reflexivity |].
  simpl. rewrite IH. reflexivity.
Qed.

Lemma pushChange_shape (first : SafeWithdrawalRecipient)
    (ms : list SafeTransactionRecipient) outputs change recipients :
  pushChange env (inl first :: map inr ms) outputs change = Returned recipients ->
  ∃ ms', recipients = inl first :: map inr ms'.
Proof.
  unfold pushChange.
  destruct (negb (isZero change) && negb (isNegative change)).
  - destruct outputs as [| o rest]; [discriminate |].
    intros [= <-]. eexists (ms ++ [_]). rewrite map_app. reflexivity.
  - intros [= <-]. exists ms. reflexivity.
Qed.

(** X16.  The ghost keys of a withdrawal line up with its outputs.  For the
    recipients built in either branch of [withdrawal] (fee in the chain
    asset, or fee in the withdrawn asset), with or without change, the array
    [[undefined, ...ghosts]] has one slot per recipient: slot 0, the
    withdrawal output, has no ghost key, and the slot of every Mixin
    recipient holds the request for that recipient's members with that
    recipient's own index. *)
Theorem withdrawal_ghost_keys_line_up
    (amt dest : string) (cashier : list string) (fee : Asset)
    (outputs : list SafeUtxoOutput) (change : BN)
    (recipients : list (WithdrawalOutput)) :
  chainFeeRecipients env amt dest outputs change = Returned recipients
  ∨ assetFeeRecipients env amt dest cashier fee outputs change = Returned recipients ->
  length (ghostSlots recipients) = length recipients
  ∧ recipients !! 0 = Some (inl {| w_amount := amt; w_destination := dest |})
  ∧ ghostSlots recipients !! 0 = Some None
  ∧ ∀ j r,
      recipients !! j = Some (inr r) ->
      ghostSlots recipients !! j =
      Some (Some {| gk_receivers := members r; gk_index := j |}).
Proof.
  intros Hbuilt.
  assert (Hshape : ∃ ms, recipients =
            inl {| w_amount := amt; w_destination := dest |} :: map inr ms).
  { destruct Hbuilt as [Hb | Hb].
    - apply (pushChange_shape _ [] _ _ _ Hb).
    - apply (pushChange_shape _ [_] _ _ _ Hb). }
  destruct Hshape as [ms ->]. unfold ghostSlots, withdrawalGhostRequests.
  rewrite withMembers_tail.
  split; [simpl; rewrite !length_map, length_imap; reflexivity |].
  split; [reflexivity |]. split; [reflexivity |].
  intros [| j] r Hr; [discriminate |]. simpl in Hr |- *.
  rewrite list_lookup_fmap in Hr. rewrite list_lookup_fmap.
  rewrite (ghost_requests_lookup ms 1 j).
  destruct (ms !! j) as [m |]; [| discriminate].
  injection Hr as <-. simpl. do 3 f_equal. lia.
Qed.

End BalanceProperties.

(** * The further properties on the concrete environment *)

Import Fixtures.

Lemma refetched_batch_is_a_no_op_witness :
  intakeAll env0 ([t1; t2; bare] ++ [t2; t1]) (world0 []) =
  intakeAll env0 [t1; t2; bare] (world0 []).
Proof.
  apply (refetched_batch_is_a_no_op env0 [t1; t2; bare] [t2; t1] (world0 [])
           eq_refl eq_refl).
  intros s Hs. apply list_elem_of_In in Hs. apply list_elem_of_In.
  simpl in Hs |- *. tauto.
Defined.

Lemma only_the_dedup_read_rejects_witness :
  handleSnapshot env0 t1 (worldFailing OpCheckSnapshotExist) =
    (Thrown "StoreError", worldFailing OpCheckSnapshotExist)
  ∧ (handleSnapshot env0 t3 (worldFailing OpCreatePaymentState)).1 = Returned tt.
Proof.
  split.
  - exact (proj1 (only_the_dedup_read_rejects env0
                    (worldFailing OpCheckSnapshotExist) t1) eq_refl).
  - exact (proj2 (only_the_dedup_read_rejects env0
                    (worldFailing OpCreatePaymentState) t3) eq_refl).
Defined.

Lemma listener_touches_one_trace_witness :
  let w' := (handleMarketMakingCreate env0 (Some detailsY) (Some m1) worldLeg2).2 in
  paymentStates w' !! "trace-X" = paymentStates worldLeg2 !! "trace-X"
  ∧ ordersFor "trace-X" w' = ordersFor "trace-X" worldLeg2.
Proof.
  apply (proj2 (listener_touches_one_trace env0 worldLeg2 m1 "trace-X") detailsY).
  discriminate.
Defined.

Lemma market_making_completes_arbitrage_state_witness :
  let w2 :=
    (handleMarketMakingCreate env0 (Some detailsXmm) (Some t2)
       (handleArbitrageCreate env0 (Some detailsX) (Some t1) (world0 [])).2).2 in
  arbitrageOrders w2 = []
  ∧ ∃ o ps,
      marketMakingOrders w2 = [o]
      ∧ mo_balanceA o = "0.1" ∧ mo_balanceB o = "2500"
      ∧ paymentStates w2 !! "trace-X" = Some ps
      ∧ type ps = "arbitrage".
Proof.
  destruct (market_making_completes_arbitrage_state env0 (world0 []) t1 t2
              detailsX detailsXmm (world0_healthy []) eq_refl
              (valid_BTC t1 eq_refl) (valid_USDT t2 eq_refl) eq_refl)
    as (Harb & o & ps & Ho & _ & _ & _ & HA & HB & Hps & Htype & _).
  split; [exact Harb |]. exists o, ps. repeat split; assumption.
Defined.

Lemma unarchived_transfer_fills_both_legs_witness :
  let w2 := processSnapshot env0 t1
              (processSnapshot env0 t1 (worldFailing OpCreateSnapshot)) in
  snapshotsTable w2 = []
  ∧ ∃ o, arbitrageOrders w2 = [o]
         ∧ ao_balanceA o = "0.1" ∧ ao_balanceB o = "0.1".
Proof.
  destruct (unarchived_transfer_fills_both_legs env0 (worldFailing OpCreateSnapshot)
              t1 detailsX eq_refl
              ltac:(intros [] Hop; try reflexivity; contradiction)
              eq_refl eq_refl eq_refl (valid_BTC t1 eq_refl) eq_refl)
    as (Hrows & o & ps & Ho & _ & HA & HB & _).
  split; [exact Hrows |]. exists o. repeat split; assumption.
Defined.

Lemma asset_balances_group_by_asset_witness :
  ∃ balances,
    getAllAssetBalances env1 mixedLedger = (Returned balances, mixedLedger)
    ∧ balances !! BTC = Some "3" ∧ balances !! ETH = Some "3"
    ∧ balances !! USDT = None.
Proof.
  destruct (proj1 (asset_balances_group_by_asset env1 mixedLedger) eq_refl)
    as (balances & Hrun & Hlookup).
  exists balances. split; [exact Hrun |].
  split; [| split].
  - exact (Hlookup BTC).
  - exact (Hlookup ETH).
  - exact (Hlookup USDT).
Defined.

Lemma balance_check_edges_witness :
  (checkMixinBalanceEnough env1 ETH "five" mixedLedger).1 = Returned true
  ∧ (checkMixinBalanceEnough env1 ETH "2" offlineLedger).1 = Returned false.
Proof.
  split.
  - exact (proj1 (proj2 (balance_check_edges env1 mixedLedger ETH "five")) eq_refl).
  - exact (proj2 (proj2 (balance_check_edges env1 offlineLedger ETH "2")) eq_refl).
Defined.


Lemma withdrawal_ghost_keys_line_up_witness :
  ∃ recipients,
    assetFeeRecipients env1 "2" "0xdestination" cashier chainFee
      [output ETH "5"] (Some 2%Q) = Returned recipients
    ∧ length (ghostSlots recipients) = length recipients
    ∧ ghostSlots recipients !! 1 =
        Some (Some {| gk_receivers := ["cashier"]; gk_index := 1 |})
    ∧ ghostSlots recipients !! 2 =
        Some (Some {| gk_receivers := ["bot"]; gk_index := 2 |}).
Proof.
  eexists. split; [reflexivity |].
  match goal with |- length (ghostSlots ?rs) = _ ∧ _ =>
    destruct (withdrawal_ghost_keys_line_up env1 "2" "0xdestination" cashier chainFee
                [output ETH "5"] (Some 2%Q) rs (or_intror eq_refl))
      as (Hlen & _ & _ & Hslots)
  end.
  split; [exact Hlen |]. split.
  - exact (Hslots 1 _ eq_refl).
  - exact (Hslots 2 _ eq_refl).
Defined.

Lemma deposit_address_never_rejects_witness :
  (∃ result,
     (depositAddress network0 BTC (world0 [])).1 = Returned result
     ∧ result = Some {| da_address := "bc1-deposit"; da_memo := None |}
     ∧ (depositAddress network0 BTC (world0 [])).2 = world0 [])
  ∧ (∃ result message,
       (depositAddress network0 ETH (world0 [])).1 = Returned result
       ∧ result = None
       ∧ logs (depositAddress network0 ETH (world0 [])).2 =
           [(LogError, "Failed to get deposit address: " +:+ message)]).
Proof.
  split.
  - destruct (deposit_address_never_rejects network0 BTC (world0 []))
      as (result & Hret & Hiff & _ & Hkeep).
    assert (Hres : result = Some {| da_address := "bc1-deposit"; da_memo := None |}).
    { apply Hiff. do 3 eexists. repeat split; reflexivity. }
    exists result. split; [exact Hret |]. split; [exact Hres |].
    apply Hkeep. rewrite Hres. discriminate.
  - destruct (deposit_address_never_rejects network0 ETH (world0 []))
      as (result & Hret & Hiff & Hlog & _).
    assert (Hres : result = None).
    { destruct result as [a |]; [| reflexivity].
      destruct (proj1 (Hiff a) eq_refl) as (f & x & r & Hf & He & _).
      injection Hf as Hf. subst f. vm_compute in He. discriminate He. }
    destruct (Hlog Hres) as [message Hw].
    exists result, message. split; [exact Hret |]. split; [exact Hres |].
    rewrite Hw. reflexivity.
Defined.

(** ** Runs with and without overlap *)

Lemma twoSecondLegs_healthy : storeHealthy twoSecondLegs.
Proof. intros op. vm_compute. reflexivity. Defined.

Lemma twoFirstLegs_healthy : storeHealthy twoFirstLegs.
Proof. intros op. vm_compute. reflexivity. Defined.

(** Three transfers for trace-X handled one after the other: one order.
    The second legs [t2] and [t4] with their listeners overlapping: two. *)
Lemma at_most_one_order_without_overlap_witness :
  ordersFor "trace-X"
    (shared (turns env0
               (oneByOne [Intake t1; Deliver; Intake t2; Deliver; Intake t4; Deliver])
               (idle (world0 [])))) <= 1
  ∧ (handleArbitrageCreate env0 (Some detailsX) (Some t4) worldLeg2).2 = worldLeg2
  ∧ ordersFor "trace-X"
      (shared (turns env0 (bothThenBoth Listen Listen) (idle twoSecondLegs))) = 2.
Proof.
  pose proof (at_most_one_order_without_overlap env0)
    as (_ & _ & Hdone & _ & Hrun & Hboth).
  split; [| split].
  - apply Hrun; try reflexivity.
    repeat constructor; discriminate.
  - apply (Hdone worldLeg2 detailsX t4
             (applyLeg2 (secondLeg t2 1) (firstLeg "arbitrage" "trace-X" "BTC/USDT" t1 0))).
    + apply valid_BTC. reflexivity.
    + vm_compute. reflexivity.
    + reflexivity.
  - exact (Hboth twoSecondLegs detailsX t2 detailsX t4
             (firstLeg "arbitrage" "trace-X" "BTC/USDT" t1 0)
             twoSecondLegs_healthy eq_refl (valid_USDT t2 eq_refl)
             (valid_BTC t4 eq_refl) ltac:(vm_compute; reflexivity)
             ltac:(vm_compute; reflexivity) eq_refl).
Defined.

(** C1, as stated, fails.  The first leg of trace-X is recorded; the
    poller then fetches the second legs [t2] and [t4] in one batch.  The
    [forEach] starts both handlers, both archive their transfer and emit
    their instruction, both listeners read the payment state awaiting its
    second leg, and each creates an order for trace-X. *)
Lemma overlapping_listeners_create_two_orders :
  let sch :=
    handleSnapshots env0 (Returned (Some [t2; t4]))
      {| world := worldLeg1; inFlight := []; cycles := 1 |} in
  let r :=
    turns env0
      (started sch ++ [Resume 0; Resume 0; Listen; Listen; Resume 0; Resume 0])
      (idle (world sch)) in
  started sch = [Start t2; Start t4]
  ∧ suspended r = []
  ∧ map snapshot_id (snapshotsTable (shared r)) = ["1"; "2"; "4"]
  ∧ ordersFor "trace-X" (shared r) = 2
  ∧ ¬ ordersFor "trace-X" (shared r) <= 1
  ∧ map (fun o => (ao_orderId o, ao_balanceA o, ao_balanceB o))
        (arbitrageOrders (shared r)) =
      [("trace-X", "0.1", "2500"); ("trace-X", "0.1", "0.2")].
Proof.
  assert (Htwo : ordersFor "trace-X"
            (shared (turns env0
               (started (handleSnapshots env0 (Returned (Some [t2; t4]))
                           {| world := worldLeg1; inFlight := []; cycles := 1 |})
                ++ [Resume 0; Resume 0; Listen; Listen; Resume 0; Resume 0])
               (idle worldLeg1))) = 2)
    by (vm_compute; reflexivity).
  split; [reflexivity |]. split; [vm_compute; reflexivity |].
  split; [vm_compute; reflexivity |]. split; [exact Htwo |].
  split; [| vm_compute; reflexivity].
  cbv zeta. change (world _) with worldLeg1. rewrite Htwo. lia.
Qed.

(** [t1] fetched by two ticks in a row, handled one after the other, and
    handled at once. *)
Lemma archive_rows_unique_without_overlap_witness :
  markersFor "1"
    (shared (turns env0
               (oneByOne [Intake t1; Intake t1; Deliver; Intake t2; Intake t1; Deliver])
               (idle (world0 [])))) <= 1
  ∧ (let r := turns env0 (bothThenBoth (Start t1) (Start t1)) (idle (world0 [])) in
     snapshotsTable (shared r) = [t1; t1]
     ∧ markersFor "1" (shared r) = 2
     ∧ emitted (shared r) = [ArbitrageCreate detailsX t1; ArbitrageCreate detailsX t1]).
Proof.
  split.
  - apply (proj1 (archive_rows_unique_without_overlap env0)).
    intros id. apply Nat.le_0_l.
  - destruct (proj2 (archive_rows_unique_without_overlap env0) (world0 []) t1
                eq_refl eq_refl eq_refl)
      as (_ & Hrows & Htwo & Hevents).
    repeat split; assumption.
Defined.

Lemma first_leg_kept_without_overlap_witness :
  (∃ ps',
      paymentStates
        (shared (turns env0 (oneByOne [Intake t2; Deliver; Intake t4; Deliver])
                   (idle worldLeg1))) !! "trace-X" = Some ps'
      ∧ firstLegOf ps' =
          firstLegOf (firstLeg "arbitrage" "trace-X" "BTC/USDT" t1 0))
  ∧ (let r := turns env0 (bothThenBoth Listen Listen) (idle twoFirstLegs) in
     (∃ ps', paymentStates (shared r) !! "trace-X" = Some ps'
             ∧ firstAssetId ps' = USDT ∧ firstAssetAmount ps' = "2500"
             ∧ firstSnapshotId ps' = "2" ∧ secondAssetId ps' = None)
     ∧ arbitrageOrders (shared r) = []).
Proof.
  split.
  - apply (proj1 (first_leg_kept_without_overlap env0)
             [Intake t2; Deliver; Intake t4; Deliver] worldLeg1 "trace-X").
    vm_compute. reflexivity.
  - destruct (proj2 (first_leg_kept_without_overlap env0) twoFirstLegs
                detailsX t1 detailsX t2 twoFirstLegs_healthy eq_refl
                (valid_BTC t1 eq_refl) (valid_USDT t2 eq_refl)
                ltac:(vm_compute; reflexivity) ltac:(vm_compute; reflexivity))
      as (_ & Hrow & Ha & _).
    split; [exact Hrow | exact Ha].
Defined.

Lemma complete_state_frozen_without_overlap_witness :
  paymentStates
    (shared (turns env0 (oneByOne [Intake t4; Deliver; Intake t3; Deliver])
               (idle worldLeg2))) !! "trace-X" =
    Some (applyLeg2 (secondLeg t2 1) (firstLeg "arbitrage" "trace-X" "BTC/USDT" t1 0))
  ∧ (let r1 := turns env0 [Listen; Listen; Resume 0] (idle twoSecondLegs) in
     let r2 := turn env0 (Resume 0) r1 in
     ∃ ps1 ps2,
       paymentStates (shared r1) !! "trace-X" = Some ps1
       ∧ secondAssetId ps1 = Some USDT ∧ secondAssetAmount ps1 = Some "2500"
       ∧ secondSnapshotId ps1 = Some "2"
       ∧ paymentStates (shared r2) !! "trace-X" = Some ps2
       ∧ secondAssetId ps2 = Some BTC ∧ secondAssetAmount ps2 = Some "0.2"
       ∧ secondSnapshotId ps2 = Some "4").
Proof.
  split.
  - apply (proj1 (complete_state_frozen_without_overlap env0));
      [vm_compute; reflexivity | reflexivity].
  - destruct (proj2 (complete_state_frozen_without_overlap env0) twoSecondLegs
                detailsX t2 detailsX t4
                (firstLeg "arbitrage" "trace-X" "BTC/USDT" t1 0)
                twoSecondLegs_healthy eq_refl (valid_USDT t2 eq_refl)
                (valid_BTC t4 eq_refl) ltac:(discriminate)
                ltac:(vm_compute; reflexivity) ltac:(vm_compute; reflexivity) eq_refl)
      as (ps1 & ps2 & H1 & _ & Ha1 & Hm1 & Hs1 & H2 & Ha2 & Hm2 & Hs2).
    exists ps1, ps2. repeat split; assumption.
Defined.

Lemma orders_backed_without_overlap_witness :
  ordersBacked
    (shared (turns env0
               (oneByOne [Intake t1; Deliver; Intake m1; Intake t2; Deliver; Deliver;
                          Intake m2; Deliver; Intake t4; Deliver])
               (idle (world0 []))))
  ∧ (let r := turns env0 (bothThenBoth Listen Listen) (idle twoSecondLegs) in
     (∃ o1 o2 ps2,
         arbitrageOrders (shared r) = [o1; o2]
         ∧ ao_balanceA o1 = "0.1" ∧ ao_balanceB o1 = "2500"
         ∧ ao_balanceA o2 = "0.1" ∧ ao_balanceB o2 = "0.2"
         ∧ paymentStates (shared r) !! "trace-X" = Some ps2
         ∧ secondAssetAmount ps2 = Some "0.2")
     ∧ ¬ ordersBacked (shared r)).
Proof.
  split.
  - apply (proj1 (orders_backed_without_overlap env0)); try reflexivity.
    repeat constructor; discriminate.
  - destruct (proj2 (orders_backed_without_overlap env0) twoSecondLegs
                detailsX t2 detailsX t4
                (firstLeg "arbitrage" "trace-X" "BTC/USDT" t1 0)
                twoSecondLegs_healthy eq_refl (valid_USDT t2 eq_refl)
                (valid_BTC t4 eq_refl) ltac:(vm_compute; reflexivity)
                ltac:(vm_compute; reflexivity) eq_refl)
      as ((o1 & o2 & ps2 & Harb & _ & _ & HA1 & HB1 & HA2 & HB2 & Hrow & _ & Hsecond)
          & Hnot).
    split.
    + exists o1, o2, ps2. repeat split; assumption.
    + apply Hnot. discriminate.
Defined.
